(** * VercelLLMService: streaming reconciliation and task entry points

    A shallow embedding of [src/core/ai/llm/services/vercel.ts].

    The service owns two pieces of shared mutable state, the message
    manager (conversation history) and the event emitter, and each call
    of [streamText] owns a closure with two [let] variables.  All four
    are fields of [State]; the methods and callbacks are computations of
    a small state-and-exception monad [M], so that each definition can be
    read next to the TypeScript it embeds. *)

From Stdlib Require Import List Bool Arith NArith ZArith Lia String Ascii.
Import ListNotations.

(* ================================================================= *)
(** ** JavaScript strings *)

(** A JavaScript string is a sequence of UTF-16 code units.  Only the
    operations the service uses are modelled: concatenation ([++]),
    truthiness, comparison with [''] and [String.prototype.trim]. *)
Module JS.

Definition code_unit := N.
Definition jsstring := list code_unit.

(** ECMAScript [WhiteSpace] and [LineTerminator] code points, the ones
    [trim] strips.  All of them lie in the basic plane, so deciding on
    code units is exact. *)
Definition isWhiteSpace (c : code_unit) : bool :=
  ((0x9 <=? c) && (c <=? 0xD)
   || (c =? 0x20) || (c =? 0xA0) || (c =? 0x1680)
   || ((0x2000 <=? c) && (c <=? 0x200A))
   || (c =? 0x2028) || (c =? 0x2029) || (c =? 0x202F)
   || (c =? 0x205F) || (c =? 0x3000) || (c =? 0xFEFF))%N.

Fixpoint trimStart (s : jsstring) : jsstring :=
  match s with
  | [] => []
  | c :: s' => if isWhiteSpace c then trimStart s' else s
  end.

Definition trimEnd (s : jsstring) : jsstring := rev (trimStart (rev s)).

Definition trim (s : jsstring) : jsstring := trimEnd (trimStart s).

(** [s === ''] *)
Definition isEmpty (s : jsstring) : bool :=
  match s with [] => true | _ :: _ => false end.

(** ToBoolean on a string: every string but [''] is truthy. *)
Definition truthy (s : jsstring) : bool := negb (isEmpty s).

(** An ASCII string literal, one code unit per character. *)
Definition lit (s : string) : jsstring :=
  map N_of_ascii (list_ascii_of_string s).

End JS.
Import JS.

(* ================================================================= *)
(** ** Data carried by the provider and by events *)

(** Tool arguments and results are opaque JSON values to the service. *)
Unset Elimination Schemes.
Inductive json : Type :=
| JNull
| JBool (b : bool)
| JNum (z : Z)
| JStr (s : jsstring)
| JArr (items : list json)
| JObj (fields : list (jsstring * json)).
Set Elimination Schemes.

Record ToolCall := { toolName : jsstring; args : json }.

Record ToolResult := { resultToolName : jsstring; result : json }.

(** The [step] object handed to [onStepFinish]. *)
Record StepResult := {
  text : jsstring;
  toolCalls : list ToolCall;
  toolResults : list ToolResult
}.

(** [chunk.chunk]: only the ['text-delta'] type is inspected. *)
Inductive Chunk : Type :=
| TextDelta (textDelta : jsstring)
| OtherChunk (type : jsstring).

(** A thrown JavaScript value: an [Error] or anything else. *)
Inductive Thrown : Type :=
| ErrorObject (message : jsstring)
| NonError (asString : jsstring).

(** [error instanceof Error ? error.message : String(error)]; this is also
    the message of the [Error] that the error event carries, namely
    [error instanceof Error ? error : new Error(String(error))]. *)
Definition errorMessage (error : Thrown) : jsstring :=
  match error with
  | ErrorObject message => message
  | NonError asString => asString
  end.

(** Events on the agent event bus, named after ['llmservice:<kind>']. *)
Inductive Event : Type :=
| EvThinking
| EvChunk (delta : jsstring)
| EvToolCall (name : jsstring) (arguments : json)
| EvToolResult (name : jsstring) (res : json)
| EvResponse (segment : jsstring)
| EvError (message : jsstring)
| EvConversationReset
| EvResetAccumulation.

Definition ImageData := jsstring.

Inductive Role : Type := user | assistant | tool.

Record Message := {
  role : Role;
  content : jsstring;
  image : option ImageData
}.

Definition assistantMessage (content : jsstring) : Message :=
  {| role := assistant; content := content; image := None |}.

Definition userMessage (content : jsstring) (img : option ImageData) : Message :=
  {| role := user; content := content; image := img |}.

(* ================================================================= *)
(** ** State and the monad of effects *)

Record State := mkState {
  stepIteration : nat;               (* let stepIteration *)
  currentSegmentText : jsstring;     (* let currentSegmentText *)
  messageManager : list Message;     (* this.messageManager, oldest first *)
  eventEmitter : list Event          (* this.eventEmitter, in emission order *)
}.

Inductive Completion (A : Type) : Type :=
| Normal (a : A)
| Abrupt (e : Thrown).
Arguments Normal {A} a.
Arguments Abrupt {A} e.

Definition M (A : Type) : Type := State -> Completion A * State.

Definition ret {A} (a : A) : M A := fun s => (Normal a, s).

Definition bind {A B} (m : M A) (k : A -> M B) : M B :=
  fun s =>
    match m s with
    | (Normal a, s') => k a s'
    | (Abrupt e, s') => (Abrupt e, s')
    end.

Definition throw {A} (e : Thrown) : M A := fun s => (Abrupt e, s).

(** [try { body } catch (error) { handler }] *)
Definition tryCatch {A} (body : M A) (handler : Thrown -> M A) : M A :=
  fun s =>
    match body s with
    | (Normal a, s') => (Normal a, s')
    | (Abrupt e, s') => handler e s'
    end.

Declare Scope eff_scope.
Delimit Scope eff_scope with eff.
Notation "x <- m ;; k" := (bind m (fun x => k))
  (at level 61, m at next level, right associativity) : eff_scope.
Notation "m ;; k" := (bind m (fun _ => k))
  (at level 61, right associativity) : eff_scope.
Open Scope eff_scope.

(** [for (const x of xs) { body x }] *)
Fixpoint forEach {A} (xs : list A) (body : A -> M unit) : M unit :=
  match xs with
  | [] => ret tt
  | x :: xs' => body x ;; forEach xs' body
  end.

Definition execState {A} (m : M A) (s : State) : State := snd (m s).
Definition completion {A} (m : M A) (s : State) : Completion A := fst (m s).

(** *** Primitive effects *)

(** [this.eventEmitter.emit(...)]: listeners are fire-and-forget, the bus
    is modelled by the log of what was emitted. *)
Definition emit (e : Event) : M unit :=
  fun s => (Normal tt,
            mkState (stepIteration s) (currentSegmentText s)
                    (messageManager s) (eventEmitter s ++ [e])).

Definition getCurrentSegmentText : M jsstring :=
  fun s => (Normal (currentSegmentText s), s).

Definition setCurrentSegmentText (t : jsstring) : M unit :=
  fun s => (Normal tt,
            mkState (stepIteration s) t (messageManager s) (eventEmitter s)).

Definition setStepIteration (n : nat) : M unit :=
  fun s => (Normal tt,
            mkState n (currentSegmentText s) (messageManager s) (eventEmitter s)).

Definition incrStepIteration : M unit :=
  fun s => (Normal tt,
            mkState (S (stepIteration s)) (currentSegmentText s)
                    (messageManager s) (eventEmitter s)).

(** Modelled from the spec: the Conversation Store ([MessageManager],
    [../messages/manager.js], not among the sources).  "appendAssistant(text)
    -- appends an assistant Message". *)
Definition addAssistantMessage (content : jsstring) : M unit :=
  fun s => (Normal tt,
            mkState (stepIteration s) (currentSegmentText s)
                    (messageManager s ++ [assistantMessage content])
                    (eventEmitter s)).

(** Modelled from the spec: the Conversation Store's [reset()], "clears all
    messages atomically; emits no side effects". *)
Definition messageManager_reset : M unit :=
  fun s => (Normal tt,
            mkState (stepIteration s) (currentSegmentText s) [] (eventEmitter s)).

(* ================================================================= *)
(** ** The streaming callbacks ([streamText], lines 230-345) *)

(** [onChunk]: a non-empty text delta is appended to the segment buffer
    and re-published as a chunk event; nothing else is inspected. *)
Definition onChunk (chunk : Chunk) : M unit :=
  match chunk with
  | TextDelta delta =>
      if truthy delta then
        cur <- getCurrentSegmentText ;;
        setCurrentSegmentText (cur ++ delta) ;;
        emit (EvChunk delta)
      else ret tt
  | OtherChunk _ => ret tt
  end.

(** [onError] *)
Definition onError (error : Thrown) : M unit :=
  emit (EvError (errorMessage error)).

(** [onStepFinish].  The local [hasHandledThisStep] is threaded through
    the four consecutive [if] statements as [handled1 .. handled3]. *)
Definition onStepFinish (step : StepResult) : M unit :=
  incrStepIteration ;;
  (* Handle completed text segments first *)
  handled1 <-
    (if truthy (text step) && negb (isEmpty (trim (text step))) then
       addAssistantMessage (text step) ;;
       emit (EvResponse (text step)) ;;
       setCurrentSegmentText [] ;;
       ret true
     else ret false) ;;
  (* Handle tool calls if present *)
  handled2 <-
    (if 0 <? List.length (toolCalls step) then
       cur <- getCurrentSegmentText ;;
       (if truthy (trim cur) && negb handled1 then
          addAssistantMessage cur ;;
          emit (EvResponse cur)
        else ret tt) ;;
       setCurrentSegmentText [] ;;
       forEach (toolCalls step)
               (fun toolCall => emit (EvToolCall (toolName toolCall) (args toolCall))) ;;
       emit EvResetAccumulation ;;
       ret true
     else ret handled1) ;;
  (* Handle tool results if present *)
  handled3 <-
    (if 0 <? List.length (toolResults step) then
       forEach (toolResults step)
               (fun toolResult =>
                  emit (EvToolResult (resultToolName toolResult) (result toolResult))) ;;
       setCurrentSegmentText [] ;;
       ret true
     else ret handled2) ;;
  (* Fallback *)
  cur <- getCurrentSegmentText ;;
  if truthy (trim cur) && negb handled3 then
    addAssistantMessage cur ;;
    emit (EvResponse cur) ;;
    setCurrentSegmentText []
  else ret tt.

(** [onFinish] *)
Definition onFinish : M unit :=
  cur <- getCurrentSegmentText ;;
  (if truthy (trim cur) then
     addAssistantMessage cur ;;
     emit (EvResponse cur)
   else ret tt) ;;
  setCurrentSegmentText [].

(** The four callbacks are the only way the SDK talks to the service
    while a stream is consumed. *)
Inductive Signal : Type :=
| SChunk (chunk : Chunk)
| SStepFinish (step : StepResult)
| SFinish
| SError (error : Thrown).

Definition deliver (sig : Signal) : M unit :=
  match sig with
  | SChunk chunk => onChunk chunk
  | SStepFinish step => onStepFinish step
  | SFinish => onFinish
  | SError error => onError error
  end.

(** While [processStream] consumes the stream, the SDK delivers the
    signals one after the other. *)
Definition processSignals (signals : list Signal) : M unit :=
  forEach signals deliver.

(* ================================================================= *)
(** ** Collaborators outside the file *)

(** [ToolSet]: tool name -> description and parameter schema. *)
Definition ToolSet := list (jsstring * (jsstring * json)).

(** What [generateText] of the [ai] package resolves with, as far as the
    service reads it: [response.text] and the messages that
    [processLLMResponse] appends. *)
Record GenerateTextResult := {
  responseText : jsstring;
  responseMessages : list Message
}.

(** One call of the SDK's [generateText]: the steps it reported through
    [onStepFinish], in order, and how the promise settled. *)
Record GenerateOutcome := {
  stepsFinished : list StepResult;
  settled : Thrown + GenerateTextResult
}.

Inductive StreamEnd : Type :=
| Consumed
| IterationThrows (error : Thrown).

(** One call of the SDK's [streamText]: it throws, or it returns a
    result whose [textStream] is not an async iterable, or it returns a
    stream which, while [processStream] consumes it, invokes the
    callbacks in [signals] order and then ends. *)
Inductive StreamOutcome : Type :=
| StreamCallThrows (error : Thrown)
| NotIterable
| Stream (signals : list Signal) (ending : StreamEnd).

(** The collaborators the constructor receives.  Their code is outside
    [vercel.ts]; each is a parameter, fallible where a JavaScript call
    can throw or a promise can reject.

    Modelled from the spec: [rejectsUserMessage] stands for the absent
    [MessageManager.addUserMessage], "appendUser(text, optionalImage) --
    appends a user Message; never fails on well-formed input": [None] on
    well-formed input, the value thrown otherwise. *)
Record Env := {
  rejectsUserMessage : jsstring -> option ImageData -> option Thrown;
  getAllTools : Thrown + ToolSet;              (* clientManager.getAllTools() *)
  getFormattedMessages : list Message -> Thrown + list Message;
  sdkGenerateText : list Message -> ToolSet -> Z -> GenerateOutcome;
  sdkStreamText : list Message -> ToolSet -> Z -> StreamOutcome
}.

(** [await p] for a promise that is already settled. *)
Definition await {A} (p : Thrown + A) : M A :=
  match p with
  | inl error => throw error
  | inr a => ret a
  end.

Definition getMessages : M (list Message) :=
  fun s => (Normal (messageManager s), s).

(** Modelled from the spec: [MessageManager.addUserMessage] is absent;
    "appends a user Message; never fails on well-formed input".  Input
    the store rejects makes it throw before anything is appended. *)
Definition addUserMessage (env : Env) (userInput : jsstring)
           (imageData : option ImageData) : M unit :=
  match rejectsUserMessage env userInput imageData with
  | Some error => throw error
  | None =>
      fun s => (Normal tt,
                mkState (stepIteration s) (currentSegmentText s)
                        (messageManager s ++ [userMessage userInput imageData])
                        (eventEmitter s))
  end.

(** Modelled from the spec: [MessageManager.processLLMResponse] is absent;
    "records a tool turn so later generation attempts see prior tool
    outputs": the response's messages are appended in order. *)
Definition processLLMResponse (response : GenerateTextResult) : M unit :=
  fun s => (Normal tt,
            mkState (stepIteration s) (currentSegmentText s)
                    (messageManager s ++ responseMessages response)
                    (eventEmitter s)).

(** [formatTools]: same keys, description and schema; the [execute]
    closure it adds is only ever called by the SDK. *)
Definition formatTools (tools : ToolSet) : ToolSet :=
  fold_left (fun acc entry => acc ++ [(fst entry, (fst (snd entry), snd (snd entry)))])
            tools [].

(* ================================================================= *)
(** ** The service methods *)

Definition exhaustionMessage : jsstring :=
  lit "Reached maximum number of tool call iterations without a final response.".

Definition errorPrefix : jsstring := lit "Error processing request: ".

(** [onStepFinish] of the non-streaming [generateText] (lines 141-176). *)
Definition generateText_onStepFinish (step : StepResult) : M unit :=
  incrStepIteration ;;
  (if truthy (text step) then emit (EvResponse (text step)) else ret tt) ;;
  (if 0 <? List.length (toolCalls step) then
     forEach (toolCalls step)
             (fun toolCall => emit (EvToolCall (toolName toolCall) (args toolCall)))
   else ret tt) ;;
  (if 0 <? List.length (toolResults step) then
     forEach (toolResults step)
             (fun toolResult =>
                emit (EvToolResult (resultToolName toolResult) (result toolResult)))
   else ret tt).

(** [generateText] (lines 130-184).  Its [stepIteration] counter is a
    closure variable of its own; like the one of [streamText] it is only
    logged, and both live in the same field of [State]. *)
Definition generateText (env : Env) (messages : list Message) (tools : ToolSet)
           (maxSteps : Z) : M jsstring :=
  setStepIteration 0 ;;
  let outcome := sdkGenerateText env messages tools maxSteps in
  forEach (stepsFinished outcome) generateText_onStepFinish ;;
  response <- await (settled outcome) ;;
  processLLMResponse response ;;
  ret (responseText response).

(** The [while (iterationCount < 1)] loop of [completeTask] with its two
    loop-carried locals.  [fuel] bounds the unfolding; [1 - iterationCount]
    is always enough (lemma [generationLoop_fuel]). *)
Fixpoint generationLoop (fuel : nat) (env : Env) (maxIterations : Z)
         (formattedTools : ToolSet) (iterationCount : nat)
         (fullResponse : jsstring) : M (nat * jsstring) :=
  if iterationCount <? 1 then
    match fuel with
    | O => ret (iterationCount, fullResponse)
    | S fuel' =>
        emit EvThinking ;;
        let iterationCount := S iterationCount in
        history <- getMessages ;;
        formattedMessages <- await (getFormattedMessages env history) ;;
        fullResponse <- generateText env formattedMessages formattedTools maxIterations ;;
        generationLoop fuel' env maxIterations formattedTools iterationCount fullResponse
    end
  else ret (iterationCount, fullResponse).

(** [fullResponse || '...'] *)
Definition orElse (a b : jsstring) : jsstring := if truthy a then a else b.

(** [completeTask] (lines 61-128).  The logger calls and the token
    estimate, which is only logged, have no effect and are left out. *)
Definition completeTask (env : Env) (maxIterations : Z) (userInput : jsstring)
           (imageData : option ImageData) : M jsstring :=
  addUserMessage env userInput imageData ;;
  tools <- await (getAllTools env) ;;
  let formattedTools := formatTools tools in
  let iterationCount := 0 in
  let fullResponse := [] in
  tryCatch
    (final <- generationLoop (1 - iterationCount) env maxIterations formattedTools
                             iterationCount fullResponse ;;
     ret (orElse (snd final) exhaustionMessage))
    (fun error =>
       let errorMessage := errorMessage error in
       emit (EvError errorMessage) ;;
       ret (errorPrefix ++ errorMessage)).

(** [streamText] (lines 230-345): a fresh closure, then the SDK call. *)
Definition streamText (env : Env) (messages : list Message) (tools : ToolSet)
           (maxSteps : Z) : M StreamOutcome :=
  setStepIteration 0 ;;
  setCurrentSegmentText [] ;;
  match sdkStreamText env messages tools maxSteps with
  | StreamCallThrows error => throw error
  | streamResult => ret streamResult
  end.

Definition notIterableMessage : jsstring :=
  lit "Vercel AI SDK stream is not iterable as expected.".

(** [processStream] (lines 186-227) *)
Definition processStream (env : Env) (messages : list Message) (tools : ToolSet)
           (maxSteps : Z) : M unit :=
  streamResult <- streamText env messages tools maxSteps ;;
  tryCatch
    (match streamResult with
     | Stream signals ending =>
         (* for await (const _ of streamResult.textStream) {} *)
         processSignals signals ;;
         match ending with
         | Consumed => ret tt
         | IterationThrows error => throw error
         end
     | _ => emit (EvError notIterableMessage)
     end)
    (fun error => emit (EvError (errorMessage error))).

(** [completeTaskStreaming] (lines 392-439) *)
Definition completeTaskStreaming (env : Env) (maxIterations : Z)
           (userInput : jsstring) (imageData : option ImageData) : M unit :=
  addUserMessage env userInput imageData ;;
  tools <- await (getAllTools env) ;;
  let formattedTools := formatTools tools in
  tryCatch
    (emit EvThinking ;;
     history <- getMessages ;;
     formattedMessages <- await (getFormattedMessages env history) ;;
     processStream env formattedMessages formattedTools maxIterations)
    (fun error => emit (EvError (errorMessage error))).

(** [resetConversation] (lines 347-350) *)
Definition resetConversation : M unit :=
  messageManager_reset ;;
  emit EvConversationReset.

(* ================================================================= *)
(** ** Vocabulary of the statements *)

(** [s.trim()] is truthy: [s] holds a character that is not white space. *)
Definition nonBlank (s : jsstring) : bool := truthy (trim s).

Definition hasItems {A} (xs : list A) : bool := 0 <? List.length xs.

Definition toolCallEvent (toolCall : ToolCall) : Event :=
  EvToolCall (toolName toolCall) (args toolCall).

Definition toolResultEvent (toolResult : ToolResult) : Event :=
  EvToolResult (resultToolName toolResult) (result toolResult).

Definition isResponse (e : Event) : bool :=
  match e with EvResponse _ => true | _ => false end.

Definition isError (e : Event) : bool :=
  match e with EvError _ => true | _ => false end.

Definition isToolCall (e : Event) : bool :=
  match e with EvToolCall _ _ => true | _ => false end.

Definition isResetAccumulation (e : Event) : bool :=
  match e with EvResetAccumulation => true | _ => false end.

Definition isThinking (e : Event) : bool :=
  match e with EvThinking => true | _ => false end.

Definition countEvents (p : Event -> bool) (evs : list Event) : nat :=
  List.length (filter p evs).

(** The payloads of the response events of a log, in order. *)
Definition responsesOf (evs : list Event) : list jsstring :=
  flat_map (fun e => match e with EvResponse segment => [segment] | _ => [] end) evs.

(** [kept] is [xs] with some elements left out, order preserved. *)
Inductive Subsequence {A} : list A -> list A -> Prop :=
| sub_nil : Subsequence [] []
| sub_skip x kept xs : Subsequence kept xs -> Subsequence kept (x :: xs)
| sub_take x kept xs : Subsequence kept xs -> Subsequence (x :: kept) (x :: xs).

(** [s] ends with [suffix] ([s.endsWith(suffix)]). *)
Definition endsWith (s suffix : jsstring) : Prop :=
  exists front, s = front ++ suffix.

(** *** What one signal does, as functions of the signal and the buffer

    The callbacks read nothing of the state but the segment buffer, so
    their effect is summarised by three functions: the segments flushed
    to the store, the events emitted, the buffer left behind.  Lemma
    [deliver_run] proves the summary equal to the callbacks; the
    summaries are proof devices, not a second model. *)

Definition flushedAtStep (step : StepResult) (buf : jsstring) : list jsstring :=
  if nonBlank (text step) then [text step]
  else if nonBlank buf
          && (hasItems (toolCalls step) || negb (hasItems (toolResults step)))
       then [buf]
       else [].

Definition bufferAfterStep (step : StepResult) (buf : jsstring) : jsstring :=
  if nonBlank (text step) || hasItems (toolCalls step)
     || hasItems (toolResults step) || nonBlank buf
  then [] else buf.

Definition eventsAtStep (step : StepResult) (buf : jsstring) : list Event :=
  map EvResponse (flushedAtStep step buf)
  ++ map toolCallEvent (toolCalls step)
  ++ (if hasItems (toolCalls step) then [EvResetAccumulation] else [])
  ++ map toolResultEvent (toolResults step).

Definition flushedAt (sig : Signal) (buf : jsstring) : list jsstring :=
  match sig with
  | SStepFinish step => flushedAtStep step buf
  | SFinish => if nonBlank buf then [buf] else []
  | _ => []
  end.

Definition bufferAfter (sig : Signal) (buf : jsstring) : jsstring :=
  match sig with
  | SChunk (TextDelta delta) => buf ++ delta
  | SChunk (OtherChunk _) => buf
  | SStepFinish step => bufferAfterStep step buf
  | SFinish => []
  | SError _ => buf
  end.

Definition eventsAt (sig : Signal) (buf : jsstring) : list Event :=
  match sig with
  | SChunk (TextDelta delta) => if truthy delta then [EvChunk delta] else []
  | SChunk (OtherChunk _) => []
  | SStepFinish step => eventsAtStep step buf
  | SFinish => map EvResponse (flushedAt SFinish buf)
  | SError error => [EvError (errorMessage error)]
  end.

Definition stepsAt (sig : Signal) : nat :=
  match sig with SStepFinish _ => 1 | _ => 0 end.

Fixpoint flushedOver (signals : list Signal) (buf : jsstring) : list jsstring :=
  match signals with
  | [] => []
  | sig :: rest => flushedAt sig buf ++ flushedOver rest (bufferAfter sig buf)
  end.

Fixpoint eventsOver (signals : list Signal) (buf : jsstring) : list Event :=
  match signals with
  | [] => []
  | sig :: rest => eventsAt sig buf ++ eventsOver rest (bufferAfter sig buf)
  end.

Fixpoint bufferOver (signals : list Signal) (buf : jsstring) : jsstring :=
  match signals with
  | [] => buf
  | sig :: rest => bufferOver rest (bufferAfter sig buf)
  end.

Fixpoint stepsOver (signals : list Signal) : nat :=
  match signals with
  | [] => 0
  | sig :: rest => stepsAt sig + stepsOver rest
  end.

(** The text deltas of a signal sequence, in order. *)
Definition deltasOf (signals : list Signal) : list jsstring :=
  flat_map (fun sig => match sig with
                       | SChunk (TextDelta delta) => [delta]
                       | _ => []
                       end) signals.

(** The step-finish notices of a signal sequence that carry a non-empty
    tool-call batch. *)
Definition carriesToolCalls (sig : Signal) : bool :=
  match sig with
  | SStepFinish step => hasItems (toolCalls step)
  | _ => false
  end.

(** Every step-finish notice of the sequence reports blank text, so that
    every response event is a flush of the buffer. *)
Definition noClosedText (signals : list Signal) : Prop :=
  forall step, In (SStepFinish step) signals -> nonBlank (text step) = false.

(** What the non-streaming [onStepFinish] emits for one step. *)
Definition eventsAtGenerateStep (step : StepResult) : list Event :=
  (if truthy (text step) then [EvResponse (text step)] else [])
  ++ map toolCallEvent (toolCalls step)
  ++ map toolResultEvent (toolResults step).

(** A failure inside the guarded region of [completeTask]: formatting the
    history rejects, or the SDK's [generateText] does. *)
Definition generationFails (env : Env) (maxIterations : Z) (tools : ToolSet)
           (history : list Message) (error : Thrown) : Prop :=
  getFormattedMessages env history = inl error
  \/ exists formatted,
      getFormattedMessages env history = inr formatted
      /\ settled (sdkGenerateText env formatted (formatTools tools) maxIterations)
         = inl error.

(** A failure inside the guarded region of [completeTaskStreaming] that
    reaches it as an exception: formatting the history rejects, the
    SDK's [streamText] throws, or consuming the text stream throws. *)
Definition streamingFails (env : Env) (maxIterations : Z) (tools : ToolSet)
           (history : list Message) (error : Thrown) : Prop :=
  getFormattedMessages env history = inl error
  \/ exists formatted,
      getFormattedMessages env history = inr formatted
      /\ (sdkStreamText env formatted (formatTools tools) maxIterations
          = StreamCallThrows error
          \/ exists signals,
              sdkStreamText env formatted (formatTools tools) maxIterations
              = Stream signals (IterationThrows error)).

(** The value the two calls made before the guarded region raise, if
    any: [addUserMessage] first, then [getAllTools]. *)
Definition preludeFailure (env : Env) (userInput : jsstring)
           (imageData : option ImageData) : option Thrown :=
  match rejectsUserMessage env userInput imageData with
  | Some error => Some error
  | None =>
      match getAllTools env with
      | inl error => Some error
      | inr _ => None
      end
  end.

(* ================================================================= *)
(** ** Concrete inputs used by the examples *)

(** A service that has not seen any traffic. *)
Definition initialState : State := mkState 0 [] [] [].

Definition fsList : ToolCall :=
  {| toolName := lit "fs.list"; args := JObj [(lit "path", JStr (lit "."))] |}.

Definition fsListResult : ToolResult :=
  {| resultToolName := lit "fs.list"; result := JArr [JStr (lit "a.txt")] |}.

Definition textDelta (t : string) : Signal := SChunk (TextDelta (lit t)).

(** A state whose segment buffer holds [buf] and nothing else. *)
Definition buffering (buf : jsstring) : State := mkState 0 buf [] [].

(** Collaborators that never fail: any input is accepted, no tools are
    registered, the history is passed on as it is, and the SDK calls
    settle as given. *)
Definition settledEnv (generate : Z -> GenerateOutcome) (stream : StreamOutcome) : Env :=
  {| rejectsUserMessage := fun _ _ => None;
     getAllTools := inr [];
     getFormattedMessages := fun history => inr history;
     sdkGenerateText := fun _ _ maxSteps => generate maxSteps;
     sdkStreamText := fun _ _ _ => stream |}.

(** A step in which the model says something and calls a tool. *)
Definition chattyToolStep : StepResult :=
  {| text := lit "Checking."; toolCalls := [fsList]; toolResults := [fsListResult] |}.

(** A binding that honours [maxSteps] against a provider which answers
    every attempt with [chattyToolStep]: it runs [maxSteps] steps and
    resolves with the text of the last one. *)
Definition alwaysToolCalls (maxSteps : Z) : GenerateOutcome :=
  {| stepsFinished := repeat chattyToolStep (Z.to_nat maxSteps);
     settled := inr {| responseText := lit "Checking."; responseMessages := [] |} |}.

(** The same against a provider whose steps carry tool calls and no
    text. *)
Definition silentToolStep : StepResult :=
  {| text := []; toolCalls := [fsList]; toolResults := [fsListResult] |}.

Definition alwaysSilentToolCalls (maxSteps : Z) : GenerateOutcome :=
  {| stepsFinished := repeat silentToolStep (Z.to_nat maxSteps);
     settled := inr {| responseText := []; responseMessages := [] |} |}.

Definition notConnected : Thrown := ErrorObject (lit "Not connected").

(** The tool registry cannot be listed. *)
Definition registryDown : Env :=
  {| rejectsUserMessage := fun _ _ => None;
     getAllTools := inl notConnected;
     getFormattedMessages := fun history => inr history;
     sdkGenerateText := fun _ _ maxSteps => alwaysSilentToolCalls maxSteps;
     sdkStreamText := fun _ _ _ => Stream [] Consumed |}.

Definition emptyContent : Thrown :=
  ErrorObject (lit "Content must be a non-empty string.").

(** A store that takes blank user input for ill-formed. *)
Definition strictStore : Env :=
  {| rejectsUserMessage :=
       fun userInput _ => if isEmpty (trim userInput) then Some emptyContent else None;
     getAllTools := inr [];
     getFormattedMessages := fun history => inr history;
     sdkGenerateText := fun _ _ maxSteps => alwaysSilentToolCalls maxSteps;
     sdkStreamText := fun _ _ _ => Stream [] Consumed |}.

Definition overloaded : Thrown := ErrorObject (lit "Overloaded").

(** The provider fails and the SDK reports it through [onError]. *)
Definition failsViaCallback : StreamOutcome :=
  Stream [SStepFinish {| text := lit "Let me look."; toolCalls := [fsList];
                         toolResults := [fsListResult] |};
          textDelta "Par"; SError overloaded]
         Consumed.

(** The SDK reports the failure through [onError] and the text stream
    throws it as well. *)
Definition failsTwice : StreamOutcome :=
  Stream [textDelta "Par"; SError overloaded] (IterationThrows overloaded).

(** A tool step completes, the next attempt fails while streaming, and
    the SDK goes on to call [onFinish] after [onError]. *)
Definition failsThenFinishes : StreamOutcome :=
  Stream [SStepFinish silentToolStep; textDelta "Par"; SError overloaded; SFinish]
         Consumed.

(** Nothing is generated in non-streaming mode. *)
Definition generateNothing (maxSteps : Z) : GenerateOutcome :=
  {| stepsFinished := [];
     settled := inr {| responseText := []; responseMessages := [] |} |}.

Definition generateRejects (maxSteps : Z) : GenerateOutcome :=
  {| stepsFinished := []; settled := inl overloaded |}.

(* ================================================================= *)
(** ** Further vocabulary: what a log and a signal sequence contain *)

Definition isChunk (e : Event) : bool :=
  match e with EvChunk _ => true | _ => false end.

Definition isToolResult (e : Event) : bool :=
  match e with EvToolResult _ _ => true | _ => false end.

(** The payloads of the chunk events of a log, in order. *)
Definition chunksOf (evs : list Event) : list jsstring :=
  flat_map (fun e => match e with EvChunk delta => [delta] | _ => [] end) evs.

(** The steps whose step-finish notices a signal sequence carries. *)
Definition stepsOf (signals : list Signal) : list StepResult :=
  flat_map (fun sig => match sig with SStepFinish step => [step] | _ => [] end)
           signals.

(** [xs] ends with [ys]: [ys] is what is left of [xs] after dropping a
    front part. *)
Definition Suffix {A} (ys xs : list A) : Prop := exists front, xs = front ++ ys.

(* ================================================================= *)
(** ** More JavaScript string operations *)

(** [s.startsWith(prefix)], by code units. *)
Fixpoint startsWith (s prefix : jsstring) : bool :=
  match prefix, s with
  | [], _ => true
  | _ :: _, [] => false
  | p :: prefix', c :: s' => (c =? p)%N && startsWith s' prefix'
  end.

(** [s.indexOf(search)]: the least index at which [search] occurs in
    [s], or [-1]; [from] counts the code units already passed. *)
Fixpoint indexOfFrom (s search : jsstring) (from : nat) : Z :=
  if startsWith s search then Z.of_nat from
  else match s with
       | [] => (-1)%Z
       | _ :: s' => indexOfFrom s' search (S from)
       end.

Definition indexOf (s search : jsstring) : Z := indexOfFrom s search 0.

(** [s.slice(start, end)], [end] being optional: negative indices count
    from the end, both are clamped to the string. *)
Definition slice (s : jsstring) (start : Z) (finish : option Z) : jsstring :=
  let len := Z.of_nat (List.length s) in
  let clamp (k : Z) := if (k <? 0)%Z then Z.max (len + k) 0 else Z.min k len in
  let from := clamp start in
  let to := match finish with None => len | Some e => clamp e end in
  firstn (Z.to_nat (Z.max (to - from) 0)) (skipn (Z.to_nat from) s).

(* ================================================================= *)
(** ** The Discord front end ([messageCreate] handler of [startDiscordBot]) *)

Definition askCommand : jsstring := lit "!ask ".

(** Steps 2 to 4 of the handler: which prompt, if any, a message asks.
    [None] stands for the two early [return]s. *)
Definition extractPrompt (isDM : bool) (messageContent : jsstring) : option jsstring :=
  let content := orElse messageContent [] in
  let askIndex := indexOf content askCommand in
  if negb isDM && (askIndex =? -1)%Z then None
  else
    let userText :=
        if isDM then trim content
        else trim (slice content (askIndex + 5) None) in
    if truthy userText then Some userText else None.

(** What the handler sends back. *)
Inductive Outgoing : Type :=
| Reply (content : jsstring)          (* message.reply(...) *)
| ChannelSend (content : jsstring).   (* message.channel.send(...) *)

Definition outgoingContent (out : Outgoing) : jsstring :=
  match out with Reply content => content | ChannelSend content => content end.

Definition isChannelSend (out : Outgoing) : bool :=
  match out with ChannelSend _ => true | Reply _ => false end.

Definition MAX : Z := 1900.

(** The [while (rest.length)] loop with its locals [rest] and [first].
    Every pass shortens [rest], so [List.length rest] passes are always
    enough fuel. *)
Fixpoint sendRest (fuel : nat) (rest : jsstring) (first : bool) : list Outgoing :=
  if negb (Nat.eqb (List.length rest) 0) then
    match fuel with
    | O => []
    | S fuel' =>
        let chunk := slice rest 0 (Some MAX) in
        let rest := slice rest MAX None in
        (if first then Reply chunk else ChannelSend chunk)
          :: sendRest fuel' rest false
    end
  else [].

(** The block that answers within Discord's length limit: the messages
    it sends, in order, when none of them is rejected (a rejected send
    raises and ends the block, so that what was sent is a front part of
    this list). *)
Definition sendResponse (responseText : jsstring) : list Outgoing :=
  if (Z.of_nat (List.length responseText) <=? MAX)%Z then [Reply responseText]
  else sendRest (List.length responseText) responseText true.

(* ================================================================= *)
(** ** The CLI subscriber ([cli-subscriber.ts]): cleaning of duplicates *)

(** [a === b] on strings. *)
Fixpoint strictEq (a b : jsstring) : bool :=
  match a, b with
  | [], [] => true
  | x :: a', y :: b' => (x =? y)%N && strictEq a' b'
  | _, _ => false
  end.

(** [s.substring(start, end)] for indices that are not negative: both
    are clamped to the string and swapped when out of order. *)
Definition substring (s : jsstring) (start finish : nat) : jsstring :=
  let a := Nat.min start (List.length s) in
  let b := Nat.min finish (List.length s) in
  firstn (Nat.max a b - Nat.min a b) (skipn (Nat.min a b) s).

(** [s.includes(search)] *)
Definition includes (s search : jsstring) : bool :=
  negb (indexOf s search =? -1)%Z.

(** [s.endsWith(suffix)] *)
Definition endsWithb (s suffix : jsstring) : bool :=
  startsWith (rev s) (rev suffix).

(** [xs.join(sep)] *)
Fixpoint join (sep : jsstring) (xs : list jsstring) : jsstring :=
  match xs with
  | [] => []
  | x :: xs' =>
      match xs' with
      | [] => x
      | _ :: _ => x ++ sep ++ join sep xs'
      end
  end.

Definition backslash : code_unit := 0x5C%N.
Definition letter_s : code_unit := 0x73%N.
Definition letter_n : code_unit := 0x6E%N.
Definition space : code_unit := 0x20%N.

(** [.], [!] or [?], the characters of the look-behind [(?<=[.!?])]. *)
Definition isSentenceEnd (c : code_unit) : bool :=
  ((c =? 0x2E) || (c =? 0x21) || (c =? 0x3F))%N.

Definition afterSentenceEnd (prev : option code_unit) : bool :=
  match prev with Some c => isSentenceEnd c | None => false end.

(** [text.split(/(?<=[.!?])\\s+/)].  In the regular expression literal of
    the source the backslash is doubled, so that the separator is a
    backslash followed by one or more letters [s], found right after a
    [.], [!] or [?].  The scan goes left to right: [prev] is the code
    unit before the position, [current] the fragment being collected
    (reversed), and [inSeparator] tells that a separator has been entered
    and its run of [s] is being consumed. *)
Fixpoint splitSentences (prev : option code_unit) (inSeparator : bool)
         (current : jsstring) (rest : jsstring) {struct rest} : list jsstring :=
  match rest with
  | [] => [rev current]
  | c :: rest' =>
      if inSeparator && (c =? letter_s)%N then
        splitSentences (Some c) true [] rest'
      else
        match rest' with
        | c' :: rest'' =>
            if afterSentenceEnd prev && (c =? backslash)%N && (c' =? letter_s)%N then
              rev current :: splitSentences (Some c') true [] rest''
            else splitSentences (Some c) false (c :: current) rest'
        | [] => splitSentences (Some c) false (c :: current) rest'
        end
  end.

Section CleanDuplicateText.

(** [String.prototype.toLowerCase] follows the Unicode case mappings,
    which are not modelled: it is a parameter. *)
Variable toLowerCase : jsstring -> jsstring.

(** The loop over the fragments, with its locals [uniqueFragments] and
    [seen]; the set is a list, to which a member is not added twice. *)
Fixpoint uniqueLoop (fragments uniqueFragments seen : list jsstring) : list jsstring :=
  match fragments with
  | [] => uniqueFragments
  | fragment :: more =>
      let normalized := toLowerCase (trim fragment) in
      if Nat.eqb (List.length normalized) 0 then uniqueLoop more uniqueFragments seen
      else if negb (existsb (strictEq normalized) seen) then
        uniqueLoop more (uniqueFragments ++ [fragment]) (normalized :: seen)
      else if (0 <? List.length uniqueFragments)
              && strictEq (toLowerCase (trim (last uniqueFragments []))) normalized
      then uniqueLoop more uniqueFragments seen
      else uniqueLoop more (uniqueFragments ++ [fragment]) seen
  end.

(** [cleanDuplicateText] (lines 275-333) *)
Definition cleanDuplicateText (text : jsstring) : jsstring :=
  if negb (truthy text) then []
  else
    (* Step 1: whole-string duplication *)
    let halfLength := List.length text / 2 in
    let text :=
        if (1 <? List.length text) && Nat.eqb (List.length text mod 2) 0 then
          let firstHalf := substring text 0 halfLength in
          let secondHalf := substring text halfLength (List.length text) in
          if strictEq firstHalf secondHalf then firstHalf else text
        else text in
    (* Step 2: duplicated sentences or fragments *)
    let fragments := splitSentences None false [] text in
    if (List.length fragments <=? 1) && negb (includes text [backslash; letter_n])
    then text
    else trim (join [space] (uniqueLoop fragments [] [])).

End CleanDuplicateText.

(** No two neighbours of [xs] have the same image under [norm]. *)
Definition NoImmediateRepeat (norm : jsstring -> jsstring) (xs : list jsstring) : Prop :=
  forall front a b back, xs = front ++ a :: b :: back -> norm a <> norm b.

(* ================================================================= *)
(** ** The CLI subscriber ([src/app/cli/cli-subscriber.ts])

    The subscriber listens to the events of the service and draws them
    on the terminal.  Its state is the six fields of the class; what
    it writes is collected in [terminal], in the order of the calls.
    The diagnostic lines of [logger.debug] and [logger.silly] are not
    part of the trace. *)

Module CLISubscriber.

(** A box drawn by [boxen]; the title fixes the border and the layout,
    the arguments are what the source puts inside. *)
Inductive Box : Type :=
| AIResponsePartialBox (cleanedResponse : jsstring)
| AIResponseBox (cleanedResponse : jsstring)
| ToolCallBox (toolName formattedArgs : jsstring)
| ToolResultBox (toolName formattedResult : jsstring).

Inductive Color : Type := red | blue.

Inductive Output : Type :=
| StdoutWrite (box : Box)          (* process.stdout.write(box) *)
| ConsoleLog (box : Box)           (* console.log(box) *)
| CursorUp (lines : nat)           (* process.stdout.write(`\x1b[${lines}A`) *)
| ClearToEnd                       (* process.stdout.write(`\x1b[J`) *)
| NewLine                          (* process.stdout.write('\n') *)
| LoggerInfo (message : jsstring) (color : option Color)
| LoggerError (message : jsstring) (color : option Color)
| DisplayAIResponse (content : jsstring).

(** [updateInterval] is [true] while a timer set by [setInterval] is
    alive and [false] for [null]; [clockReads] counts the calls of
    [Date.now]. *)
Record Subscriber : Type := mkSubscriber {
  accumulatedResponse : jsstring;
  currentLines : nat;
  isFirstChunk : bool;
  updateInterval : bool;
  lastUpdateTime : Z;
  pendingUpdate : bool;
  terminal : list Output;
  clockReads : nat
}.

(** The field initialisers of the class. *)
Definition newSubscriber : Subscriber :=
  mkSubscriber [] 0 true false 0 false [] 0.

Definition setAccumulatedResponse (v : jsstring) (st : Subscriber) : Subscriber :=
  mkSubscriber v (currentLines st) (isFirstChunk st) (updateInterval st)
               (lastUpdateTime st) (pendingUpdate st) (terminal st) (clockReads st).

Definition setCurrentLines (v : nat) (st : Subscriber) : Subscriber :=
  mkSubscriber (accumulatedResponse st) v (isFirstChunk st) (updateInterval st)
               (lastUpdateTime st) (pendingUpdate st) (terminal st) (clockReads st).

Definition setIsFirstChunk (v : bool) (st : Subscriber) : Subscriber :=
  mkSubscriber (accumulatedResponse st) (currentLines st) v (updateInterval st)
               (lastUpdateTime st) (pendingUpdate st) (terminal st) (clockReads st).

Definition setUpdateInterval (v : bool) (st : Subscriber) : Subscriber :=
  mkSubscriber (accumulatedResponse st) (currentLines st) (isFirstChunk st) v
               (lastUpdateTime st) (pendingUpdate st) (terminal st) (clockReads st).

Definition setLastUpdateTime (v : Z) (st : Subscriber) : Subscriber :=
  mkSubscriber (accumulatedResponse st) (currentLines st) (isFirstChunk st)
               (updateInterval st) v (pendingUpdate st) (terminal st) (clockReads st).

Definition setPendingUpdate (v : bool) (st : Subscriber) : Subscriber :=
  mkSubscriber (accumulatedResponse st) (currentLines st) (isFirstChunk st)
               (updateInterval st) (lastUpdateTime st) v (terminal st) (clockReads st).

Definition write (o : Output) (st : Subscriber) : Subscriber :=
  mkSubscriber (accumulatedResponse st) (currentLines st) (isFirstChunk st)
               (updateInterval st) (lastUpdateTime st) (pendingUpdate st)
               (terminal st ++ [o]) (clockReads st).

Definition thinkingMessage : jsstring :=
  [0xD83E; 0xDD14]%N ++ lit " Ace is thinking...".

Definition errorMessagePrefix : jsstring := [0x274C]%N ++ lit " Error: ".

Definition historyClearedMessage : jsstring :=
  [0xD83D; 0xDD04]%N ++ lit " Conversation history cleared.".

Section Handlers.

(** What the subscriber takes from its surroundings: the case mapping
    of strings, the number of lines of a drawn box
    ([box.split('\n').length]), [JSON.stringify(value, null, 2)], and
    the clock, as the value of the n-th call of [Date.now]. *)
Variable toLowerCase : jsstring -> jsstring.
Variable lineCount : Box -> nat.
Variable stringify : json -> jsstring.
Variable dateNow : nat -> Z.

(** [renderAccumulatedResponse] (lines 115-147) *)
Definition renderAccumulatedResponse (st : Subscriber) : Subscriber :=
  let cleanedResponse := cleanDuplicateText toLowerCase (accumulatedResponse st) in
  let box := AIResponseBox cleanedResponse in
  let newLines := lineCount box in
  let st := if 0 <? currentLines st
            then write ClearToEnd (write (CursorUp (currentLines st)) st)
            else st in
  let st := write (StdoutWrite box) st in
  let st := setCurrentLines newLines st in
  let st := write NewLine st in
  setLastUpdateTime (dateNow (clockReads st))
                    (mkSubscriber (accumulatedResponse st) (currentLines st)
                                  (isFirstChunk st) (updateInterval st)
                                  (lastUpdateTime st) (pendingUpdate st)
                                  (terminal st) (S (clockReads st))).

(** The callback given to [setInterval] in [onThinking] (lines 75-80). *)
Definition intervalCallback (st : Subscriber) : Subscriber :=
  if pendingUpdate st then
    setPendingUpdate false (renderAccumulatedResponse st)
  else st.

(** [onThinking] (lines 38-83) *)
Definition onThinking (st : Subscriber) : Subscriber :=
  let st :=
      if truthy (trim (accumulatedResponse st)) then
        let cleanedResponse := cleanDuplicateText toLowerCase (accumulatedResponse st) in
        let box := AIResponsePartialBox cleanedResponse in
        let st := if 0 <? currentLines st
                  then write ClearToEnd (write (CursorUp (currentLines st)) st)
                  else st in
        write (ConsoleLog box) st
      else st in
  let st := setAccumulatedResponse [] st in
  let st := setCurrentLines 0 st in
  let st := setIsFirstChunk true st in
  let st := setPendingUpdate false st in
  let st := if updateInterval st then setUpdateInterval false st else st in
  let st := setUpdateInterval true st in
  write (LoggerInfo thinkingMessage None) st.

(** [onChunk] (lines 85-113) *)
Definition onChunk (text : jsstring) (st : Subscriber) : Subscriber :=
  if endsWithb (accumulatedResponse st) text then st
  else
    let st := setAccumulatedResponse (accumulatedResponse st ++ text) st in
    let st := setPendingUpdate true st in
    if isFirstChunk st then
      let st := setIsFirstChunk false st in
      let st := renderAccumulatedResponse st in
      setPendingUpdate false st
    else
      let now := dateNow (clockReads st) in
      let st := mkSubscriber (accumulatedResponse st) (currentLines st)
                             (isFirstChunk st) (updateInterval st)
                             (lastUpdateTime st) (pendingUpdate st)
                             (terminal st) (S (clockReads st)) in
      if (now - lastUpdateTime st >? 100)%Z then
        let st := renderAccumulatedResponse st in
        setPendingUpdate false st
      else st.

(** [onToolCall] (lines 149-199) *)
Definition onToolCall (toolName : jsstring) (args : json) (st : Subscriber) : Subscriber :=
  let st := if updateInterval st then setUpdateInterval false st else st in
  let st :=
      if truthy (trim (accumulatedResponse st)) then
        let cleanedResponse := cleanDuplicateText toLowerCase (accumulatedResponse st) in
        let box := AIResponsePartialBox cleanedResponse in
        let st := if 0 <? currentLines st
                  then write ClearToEnd (write (CursorUp (currentLines st)) st)
                  else st in
        write (ConsoleLog box) st
      else st in
  let st := setAccumulatedResponse [] st in
  let st := setCurrentLines 0 st in
  let st := setIsFirstChunk true st in
  let st := setPendingUpdate false st in
  let formattedArgs := stringify args in
  write (ConsoleLog (ToolCallBox toolName formattedArgs)) st.

(** [onToolResult] (lines 201-216) *)
Definition onToolResult (toolName : jsstring) (result : json) (st : Subscriber) : Subscriber :=
  let formattedResult := stringify result in
  write (ConsoleLog (ToolResultBox toolName formattedResult)) st.

(** [onResponse] (lines 218-269) *)
Definition onResponse (text : jsstring) (st : Subscriber) : Subscriber :=
  let st := if updateInterval st then setUpdateInterval false st else st in
  if truthy (trim (accumulatedResponse st)) then
    let st := if pendingUpdate st then renderAccumulatedResponse st else st in
    let st := setAccumulatedResponse [] st in
    let st := setCurrentLines 0 st in
    let st := setPendingUpdate false st in
    setIsFirstChunk true st
  else
    let cleanedText := cleanDuplicateText toLowerCase text in
    let st := if 0 <? currentLines st
              then write ClearToEnd (write (CursorUp (currentLines st)) st)
              else st in
    let st := write (DisplayAIResponse cleanedText) st in
    let st := setAccumulatedResponse [] st in
    let st := setCurrentLines 0 st in
    let st := setPendingUpdate false st in
    setIsFirstChunk true st.

(** [onError] (lines 335-348); [message] is [error.message]. *)
Definition onError (message : jsstring) (st : Subscriber) : Subscriber :=
  let st := if updateInterval st then setUpdateInterval false st else st in
  let st := setAccumulatedResponse [] st in
  let st := setCurrentLines 0 st in
  let st := setPendingUpdate false st in
  write (LoggerError (errorMessagePrefix ++ message) (Some red)) st.

(** [onConversationReset] (lines 350-363) *)
Definition onConversationReset (st : Subscriber) : Subscriber :=
  let st := if updateInterval st then setUpdateInterval false st else st in
  let st := setAccumulatedResponse [] st in
  let st := setCurrentLines 0 st in
  let st := setPendingUpdate false st in
  write (LoggerInfo historyClearedMessage (Some blue)) st.

(** [onResetAccumulation] (lines 365-376) *)
Definition onResetAccumulation (st : Subscriber) : Subscriber :=
  let st := setAccumulatedResponse [] st in
  let st := setCurrentLines 0 st in
  let st := setIsFirstChunk true st in
  if updateInterval st then setUpdateInterval false st else st.

(** [subscribe] (lines 27-36) binds one handler to each event name. *)
Definition subscribe (e : Event) (st : Subscriber) : Subscriber :=
  match e with
  | EvThinking => onThinking st
  | EvChunk text => onChunk text st
  | EvToolCall toolName args => onToolCall toolName args st
  | EvToolResult toolName result => onToolResult toolName result st
  | EvResponse text => onResponse text st
  | EvError message => onError message st
  | EvConversationReset => onConversationReset st
  | EvResetAccumulation => onResetAccumulation st
  end.

(** What reaches the subscriber: an event of the bus, or the timer of
    [onThinking] coming due, which runs its callback only while the
    timer is alive. *)
Inductive Input : Type :=
| Emitted (e : Event)
| IntervalElapsed.

Definition step (st : Subscriber) (input : Input) : Subscriber :=
  match input with
  | Emitted e => subscribe e st
  | IntervalElapsed => if updateInterval st then intervalCallback st else st
  end.

Definition run (inputs : list Input) (st : Subscriber) : Subscriber :=
  fold_left step inputs st.

End Handlers.

(** *** Reading the terminal *)

(** The text inside a response box, final or partial. *)
Definition responseBoxContent (o : Output) : option jsstring :=
  match o with
  | StdoutWrite (AIResponseBox content) => Some content
  | StdoutWrite (AIResponsePartialBox content) => Some content
  | ConsoleLog (AIResponseBox content) => Some content
  | ConsoleLog (AIResponsePartialBox content) => Some content
  | _ => None
  end.

(** The text of the response box drawn last, [shown] if there is none. *)
Fixpoint lastResponseBox (outputs : list Output) (shown : option jsstring)
  : option jsstring :=
  match outputs with
  | [] => shown
  | o :: rest =>
      lastResponseBox rest (match responseBoxContent o with
                            | Some content => Some content
                            | None => shown
                            end)
  end.

(** The texts handed to [logger.displayAIResponse], in order. *)
Definition displayed (outputs : list Output) : list jsstring :=
  flat_map (fun o => match o with DisplayAIResponse content => [content] | _ => [] end)
           outputs.

(** The events among the inputs, in order. *)
Definition eventsIn (inputs : list Input) : list Event :=
  flat_map (fun input => match input with Emitted e => [e] | IntervalElapsed => [] end)
           inputs.

(** The event closes the text accumulated so far: the three handlers
    that draw the accumulated response before they clear it. *)
Definition closesSegment (e : Event) : bool :=
  match e with
  | EvThinking | EvToolCall _ _ | EvResponse _ => true
  | _ => false
  end.

(** No chunk of the list would be skipped by [onChunk] when the chunks
    arrive in order after [accumulated]. *)
Fixpoint noTailRepeated (chunks : list jsstring) (accumulated : jsstring) : bool :=
  match chunks with
  | [] => true
  | text :: rest =>
      negb (endsWithb accumulated text) && noTailRepeated rest (accumulated ++ text)
  end.

(** *** What the handlers do to the accumulated response

    The accumulated response after an event depends on nothing but the
    event and the accumulated response before it, and so does what is
    handed to [logger.displayAIResponse].  The two functions below say
    how; lemma [step_summary] proves them equal to the handlers. *)

Definition accumulatedAfter (e : Event) (accumulated : jsstring) : jsstring :=
  match e with
  | EvChunk text => if endsWithb accumulated text then accumulated else accumulated ++ text
  | EvToolResult _ _ => accumulated
  | _ => []
  end.

Definition displayedAt (toLowerCase : jsstring -> jsstring)
           (e : Event) (accumulated : jsstring) : list jsstring :=
  match e with
  | EvResponse text =>
      if nonBlank accumulated then [] else [cleanDuplicateText toLowerCase text]
  | _ => []
  end.

Fixpoint accumulatedOver (events : list Event) (accumulated : jsstring) : jsstring :=
  match events with
  | [] => accumulated
  | e :: rest => accumulatedOver rest (accumulatedAfter e accumulated)
  end.

Fixpoint displayedOver (toLowerCase : jsstring -> jsstring)
         (events : list Event) (accumulated : jsstring) : list jsstring :=
  match events with
  | [] => []
  | e :: rest =>
      displayedAt toLowerCase e accumulated
      ++ displayedOver toLowerCase rest (accumulatedAfter e accumulated)
  end.

End CLISubscriber.

(** *** Streams as a provider produces them *)

(** No signal of the sequence is an error notice. *)
Definition noErrorSignal (signals : list Signal) : bool :=
  forallb (fun sig => match sig with SError _ => false | _ => true end) signals.

(** Every step of the sequence that reports text has had text streamed
    before it finished: its text is not blank only when the segment
    buffer is not blank at that point. *)
Fixpoint closedTextsWereStreamed (signals : list Signal) (buf : jsstring) : bool :=
  match signals with
  | [] => true
  | sig :: rest =>
      match sig with
      | SStepFinish step => implb (nonBlank (text step)) (nonBlank buf)
      | _ => true
      end && closedTextsWereStreamed rest (bufferAfter sig buf)
  end.

(** *** How a run uses up the text it is streamed

    A run of the callbacks splits into consecutive pieces.  A piece is
    made of the signals received while the segment buffer fills,
    followed by the signal that empties it. *)

(** A signal that leaves a blank buffer as it is: a chunk, an error
    notice, or a step-finish notice that carries no text, no tool call
    and no tool result. *)
Definition idle (sig : Signal) : bool :=
  match sig with
  | SChunk _ | SError _ => true
  | SStepFinish step =>
      negb (nonBlank (text step))
      && negb (hasItems (toolCalls step)) && negb (hasItems (toolResults step))
  | SFinish => false
  end.

(** The text that a step-finish notice reports for its step. *)
Definition closedText (sig : Signal) : jsstring :=
  match sig with SStepFinish step => text step | _ => [] end.

(** The signals at which buffered text is emitted: stream completion, and
    a step-finish notice without text of its own that carries tool calls
    or no tool results. *)
Definition flushesBuffer (sig : Signal) : bool :=
  match sig with
  | SFinish => true
  | SStepFinish step =>
      negb (nonBlank (text step))
      && (hasItems (toolCalls step) || negb (hasItems (toolResults step)))
  | _ => false
  end.

(** The signal at which buffered text is thrown away: a step-finish
    notice that carries tool results and neither text nor tool calls. *)
Definition discardsBuffer (sig : Signal) : bool :=
  match sig with
  | SStepFinish step =>
      negb (nonBlank (text step))
      && negb (hasItems (toolCalls step)) && hasItems (toolResults step)
  | _ => false
  end.

(** What becomes of the text of a piece: it is emitted as a response, it
    gives way to the text that the closing step-finish notice reports, or
    it is emitted by nobody. *)
Inductive Fate : Type := Flushed | Replaced | Discarded.

Record Piece : Type := mkPiece {
  filling : list Signal;
  closing : Signal;
  fate : Fate
}.

Definition pieceSignals (p : Piece) : list Signal := filling p ++ [closing p].

(** The text streamed while the piece lasts. *)
Definition streamedIn (p : Piece) : jsstring := List.concat (deltasOf (filling p)).

(** The response that the piece gives rise to, if any. *)
Definition pieceResponse (p : Piece) : list jsstring :=
  match fate p with
  | Flushed => [streamedIn p]
  | Replaced => [closedText (closing p)]
  | Discarded => []
  end.

(** The closed text that the piece emits, if it emits one. *)
Definition replacedText (p : Piece) : list jsstring :=
  match fate p with
  | Replaced => [closedText (closing p)]
  | _ => []
  end.

(** The fate of a piece fits its signals: the signals before the closing
    one are idle; streamed text is flushed only if it is not blank and
    the closing signal is a flush point; it is replaced when the closing
    step reports non-blank text; it is emitted by nobody at a
    tool-result-only step, or when it is blank and the closing signal is
    stream completion or carries tool calls. *)
Definition pieceOk (p : Piece) : bool :=
  forallb idle (filling p)
  && match fate p with
     | Flushed => nonBlank (streamedIn p) && flushesBuffer (closing p)
     | Replaced => nonBlank (closedText (closing p))
     | Discarded =>
         discardsBuffer (closing p)
         || (negb (nonBlank (streamedIn p))
             && flushesBuffer (closing p) && negb (idle (closing p)))
     end.

(** *** Failures of a stream *)

(** The failures that the SDK reports through [onError], in order. *)
Definition errorsOf (signals : list Signal) : list Thrown :=
  flat_map (fun sig => match sig with SError error => [error] | _ => [] end) signals.

(** The failure that the text stream throws, if it throws. *)
Definition thrownBy (ending : StreamEnd) : list Thrown :=
  match ending with Consumed => [] | IterationThrows error => [error] end.

(** The messages of the failures that reach [completeTaskStreaming]
    inside its guarded region, in the order in which they reach it:
    formatting the history rejects; [streamText] throws; the result has
    no text stream; the SDK calls [onError]; the text stream throws. *)
Definition streamingFailures (env : Env) (maxIterations : Z) (tools : ToolSet)
           (history : list Message) : list jsstring :=
  match getFormattedMessages env history with
  | inl error => [errorMessage error]
  | inr formatted =>
      match sdkStreamText env formatted (formatTools tools) maxIterations with
      | StreamCallThrows error => [errorMessage error]
      | NotIterable => [notIterableMessage]
      | Stream signals ending => map errorMessage (errorsOf signals ++ thrownBy ending)
      end
  end.

(** The signal brings no text that could be emitted: no non-blank delta
    and no non-blank closed text. *)
Definition carriesNoText (sig : Signal) : bool :=
  match sig with
  | SChunk (TextDelta delta) => negb (nonBlank delta)
  | SStepFinish step => negb (nonBlank (text step))
  | _ => true
  end.

(** A tool step with prose completes, the next attempt fails before it
    has streamed any text, and the SDK goes on to finish the step and
    the stream. *)
Definition failsBeforeText : StreamOutcome :=
  Stream [SStepFinish {| text := lit "Let me look."; toolCalls := [fsList];
                         toolResults := [fsListResult] |};
          SError overloaded;
          SStepFinish {| text := []; toolCalls := []; toolResults := [] |};
          SFinish]
         Consumed.

(* ================================================================= *)
(** ** Basic facts *)

Lemma forEach_emit {A} (f : A -> Event) (xs : list A) (s : State) :
  forEach xs (fun x => emit (f x)) s
  = (Normal tt,
     mkState (stepIteration s) (currentSegmentText s) (messageManager s)
             (eventEmitter s ++ map f xs)).
Proof.
  revert s; induction xs as [|x xs IH]; intros s; simpl.
  - unfold ret. rewrite app_nil_r. now destruct s.
  - unfold bind at 1, emit at 1. rewrite IH. simpl.
    now rewrite <- app_assoc.
Qed.

Lemma hasItems_nil {A} : hasItems (@nil A) = false.
Proof. reflexivity. Qed.

Lemma hasItems_cons {A} (x : A) xs : hasItems (x :: xs) = true.
Proof. reflexivity. Qed.

Lemma hasItems_true {A} (xs : list A) : hasItems xs = true <-> xs <> [].
Proof. destruct xs; unfold hasItems, Nat.ltb; simpl; split; intros; congruence. Qed.

Lemma closedText_nonBlank (t : jsstring) :
  truthy t && negb (isEmpty (trim t)) = nonBlank t.
Proof. destruct t; reflexivity. Qed.

Lemma hasItems_false {A} (xs : list A) : hasItems xs = false -> xs = [].
Proof. destruct xs; unfold hasItems, Nat.ltb; simpl; intros; congruence. Qed.

Lemma nonBlank_nil : nonBlank [] = false.
Proof. reflexivity. Qed.

Lemma fold_nonBlank (t : jsstring) : truthy (trim t) = nonBlank t.
Proof. reflexivity. Qed.

(** Symbolic execution: the plumbing unfolds once a state is supplied,
    loops and string tests stay folded. *)
Arguments bind {A B} m k s /.
Arguments ret {A} a s /.
Arguments throw {A} e s /.
Arguments tryCatch {A} body handler s /.
Arguments emit e s /.
Arguments getCurrentSegmentText s /.
Arguments setCurrentSegmentText t s /.
Arguments setStepIteration n s /.
Arguments incrStepIteration s /.
Arguments addAssistantMessage content s /.
Arguments messageManager_reset s /.
Arguments getMessages s /.
Arguments processLLMResponse response s /.
Arguments truthy s : simpl never.
Arguments trim s : simpl never.
Arguments nonBlank s : simpl never.
Arguments hasItems {A} xs : simpl never.

Ltac eff_run :=
  repeat (cbn; rewrite ?forEach_emit, ?fold_nonBlank, ?nonBlank_nil).

Lemma trimStart_nil_iff (s : jsstring) :
  trimStart s = [] <-> forallb isWhiteSpace s = true.
Proof.
  induction s as [|c s IH]; cbn; [tauto|].
  destruct (isWhiteSpace c); cbn; [exact IH|]. split; discriminate.
Qed.

(** [trim] leaves something exactly when some character is not white
    space. *)
Lemma nonBlank_spec (s : jsstring) :
  nonBlank s = true <-> exists c, In c s /\ isWhiteSpace c = false.
Proof.
  unfold nonBlank, truthy, trim, trimEnd. split.
  - intros H. destruct (forallb isWhiteSpace s) eqn:Hall.
    + apply trimStart_nil_iff in Hall. rewrite Hall in H. discriminate H.
    + assert (Hex : existsb (fun c => negb (isWhiteSpace c)) s = true).
      { clear H. induction s as [|c s IH]; cbn in *; [discriminate|].
        destruct (isWhiteSpace c); cbn in *; auto. }
      apply existsb_exists in Hex. destruct Hex as (c & Hin & Hc).
      exists c. split; [exact Hin|]. now destruct (isWhiteSpace c).
  - intros (c & Hin & Hc).
    assert (Hkeep : forall t, In c t -> trimStart t <> [] /\ In c (trimStart t)).
    { induction t as [|d t IH]; cbn; [contradiction|].
      intros [->|Hin']; [rewrite Hc; split; [discriminate | now left]|].
      destruct (isWhiteSpace d); [now apply IH|].
      split; [discriminate | now right]. }
    destruct (Hkeep s Hin) as [_ Hin1].
    apply in_rev in Hin1.
    destruct (Hkeep _ Hin1) as [Hne _].
    destruct (trimStart (rev (trimStart s))) as [|d t]; [contradiction|].
    cbn. now destruct (rev t).
Qed.

Lemma nonBlank_app (a b : jsstring) :
  nonBlank (a ++ b) = nonBlank a || nonBlank b.
Proof.
  destruct (nonBlank a) eqn:Ha; cbn.
  - apply nonBlank_spec in Ha. destruct Ha as (c & Hin & Hc).
    apply nonBlank_spec. exists c. split; [apply in_or_app; now left | exact Hc].
  - destruct (nonBlank b) eqn:Hb.
    + apply nonBlank_spec in Hb. destruct Hb as (c & Hin & Hc).
      apply nonBlank_spec. exists c. split; [apply in_or_app; now right | exact Hc].
    + destruct (nonBlank (a ++ b)) eqn:Hab; [|reflexivity].
      apply nonBlank_spec in Hab. destruct Hab as (c & Hin & Hc).
      apply in_app_or in Hin. destruct Hin as [Hin | Hin].
      * assert (nonBlank a = true) by (apply nonBlank_spec; now exists c). congruence.
      * assert (nonBlank b = true) by (apply nonBlank_spec; now exists c). congruence.
Qed.

Lemma onStepFinish_run (step : StepResult) (s : State) :
  onStepFinish step s
  = (Normal tt,
     mkState (S (stepIteration s))
             (bufferAfterStep step (currentSegmentText s))
             (messageManager s
                ++ map assistantMessage (flushedAtStep step (currentSegmentText s)))
             (eventEmitter s ++ eventsAtStep step (currentSegmentText s))).
Proof.
  destruct s as [n buf mm ee], step as [t calls results].
  unfold onStepFinish, eventsAtStep, flushedAtStep, bufferAfterStep.
  cbn [text toolCalls toolResults currentSegmentText stepIteration
       messageManager eventEmitter].
  rewrite closedText_nonBlank. fold (hasItems calls). fold (hasItems results).
  destruct (hasItems calls) eqn:Hc; [|apply hasItems_false in Hc; subst calls];
    (destruct (hasItems results) eqn:Hr; [|apply hasItems_false in Hr; subst results]);
    destruct (nonBlank t) eqn:Ht; destruct (nonBlank buf) eqn:Hb;
    eff_run; rewrite ?Hb; eff_run.
  all: rewrite ?app_nil_r, <- ?app_assoc; cbn [app].
  all: reflexivity.
Qed.

Lemma onChunk_run (chunk : Chunk) (s : State) :
  onChunk chunk s
  = (Normal tt,
     mkState (stepIteration s)
             (bufferAfter (SChunk chunk) (currentSegmentText s))
             (messageManager s)
             (eventEmitter s ++ eventsAt (SChunk chunk) (currentSegmentText s))).
Proof.
  destruct s as [n buf mm ee], chunk as [delta|ty]; cbn.
  - destruct delta as [|c delta]; cbn; now rewrite ?app_nil_r.
  - now rewrite ?app_nil_r.
Qed.

Lemma onFinish_run (s : State) :
  onFinish s
  = (Normal tt,
     mkState (stepIteration s) []
             (messageManager s
                ++ map assistantMessage (flushedAt SFinish (currentSegmentText s)))
             (eventEmitter s ++ eventsAt SFinish (currentSegmentText s))).
Proof.
  destruct s as [n buf mm ee]; unfold onFinish; eff_run.
  destruct (nonBlank buf); cbn; now rewrite ?app_nil_r.
Qed.

Lemma onError_run (error : Thrown) (s : State) :
  onError error s
  = (Normal tt,
     mkState (stepIteration s) (currentSegmentText s) (messageManager s)
             (eventEmitter s ++ [EvError (errorMessage error)])).
Proof. reflexivity. Qed.

(** Every callback returns normally, and its effect is the summary's. *)
Lemma deliver_run (sig : Signal) (s : State) :
  deliver sig s
  = (Normal tt,
     mkState (stepsAt sig + stepIteration s)
             (bufferAfter sig (currentSegmentText s))
             (messageManager s
                ++ map assistantMessage (flushedAt sig (currentSegmentText s)))
             (eventEmitter s ++ eventsAt sig (currentSegmentText s))).
Proof.
  destruct sig as [chunk|step| |error]; unfold deliver.
  - rewrite onChunk_run; cbn. now rewrite app_nil_r.
  - now rewrite onStepFinish_run.
  - now rewrite onFinish_run.
  - rewrite onError_run; cbn. now rewrite app_nil_r.
Qed.

Lemma processSignals_run (signals : list Signal) (s : State) :
  processSignals signals s
  = (Normal tt,
     mkState (stepsOver signals + stepIteration s)
             (bufferOver signals (currentSegmentText s))
             (messageManager s
                ++ map assistantMessage (flushedOver signals (currentSegmentText s)))
             (eventEmitter s ++ eventsOver signals (currentSegmentText s))).
Proof.
  unfold processSignals. revert s.
  induction signals as [|sig rest IH]; intros s.
  - destruct s; cbn. now rewrite !app_nil_r.
  - cbn [forEach]. unfold bind. rewrite deliver_run, IH. cbn.
    rewrite map_app, <- !app_assoc. f_equal. f_equal. lia.
Qed.

Lemma flushedOver_app (xs ys : list Signal) (buf : jsstring) :
  flushedOver (xs ++ ys) buf
  = flushedOver xs buf ++ flushedOver ys (bufferOver xs buf).
Proof.
  revert buf; induction xs as [|x xs IH]; intros buf; cbn; [reflexivity|].
  now rewrite IH, app_assoc.
Qed.

Lemma eventsOver_app (xs ys : list Signal) (buf : jsstring) :
  eventsOver (xs ++ ys) buf
  = eventsOver xs buf ++ eventsOver ys (bufferOver xs buf).
Proof.
  revert buf; induction xs as [|x xs IH]; intros buf; cbn; [reflexivity|].
  now rewrite IH, app_assoc.
Qed.

Lemma bufferOver_app (xs ys : list Signal) (buf : jsstring) :
  bufferOver (xs ++ ys) buf = bufferOver ys (bufferOver xs buf).
Proof.
  revert buf; induction xs as [|x xs IH]; intros buf; cbn; [reflexivity|].
  now rewrite IH.
Qed.

Lemma responsesOf_app (xs ys : list Event) :
  responsesOf (xs ++ ys) = responsesOf xs ++ responsesOf ys.
Proof. apply flat_map_app. Qed.

Lemma responsesOf_responses (segments : list jsstring) :
  responsesOf (map EvResponse segments) = segments.
Proof.
  unfold responsesOf.
  induction segments as [|x xs IH]; simpl; [reflexivity | now f_equal].
Qed.

Lemma responsesOf_toolCalls (calls : list ToolCall) :
  responsesOf (map toolCallEvent calls) = [].
Proof. induction calls; cbn; auto. Qed.

Lemma responsesOf_toolResults (results : list ToolResult) :
  responsesOf (map toolResultEvent results) = [].
Proof. induction results; cbn; auto. Qed.

Lemma responsesOf_eventsAtStep (step : StepResult) (buf : jsstring) :
  responsesOf (eventsAtStep step buf) = flushedAtStep step buf.
Proof.
  unfold eventsAtStep.
  rewrite !responsesOf_app, responsesOf_responses, responsesOf_toolCalls,
    responsesOf_toolResults.
  destruct (hasItems (toolCalls step)); cbn; now rewrite app_nil_r.
Qed.

Lemma responsesOf_eventsAt (sig : Signal) (buf : jsstring) :
  responsesOf (eventsAt sig buf) = flushedAt sig buf.
Proof.
  destruct sig as [[delta|ty]|step| |error]; cbn.
  - now destruct (truthy delta).
  - reflexivity.
  - apply responsesOf_eventsAtStep.
  - destruct (nonBlank buf); reflexivity.
  - reflexivity.
Qed.

(** The store receives one assistant message per response event. *)
Lemma responsesOf_eventsOver (signals : list Signal) (buf : jsstring) :
  responsesOf (eventsOver signals buf) = flushedOver signals buf.
Proof.
  revert buf; induction signals as [|sig rest IH]; intros buf; cbn; [reflexivity|].
  now rewrite responsesOf_app, responsesOf_eventsAt, IH.
Qed.

Lemma countEvents_app (p : Event -> bool) (xs ys : list Event) :
  countEvents p (xs ++ ys) = countEvents p xs + countEvents p ys.
Proof. unfold countEvents. now rewrite filter_app, length_app. Qed.

Lemma flushedAtStep_length (step : StepResult) (buf : jsstring) :
  List.length (flushedAtStep step buf) <= 1.
Proof.
  unfold flushedAtStep.
  destruct (nonBlank (text step)); [cbn; lia|].
  destruct (_ && _); cbn; lia.
Qed.

Lemma countEvents_responses (evs : list Event) :
  countEvents isResponse evs = List.length (responsesOf evs).
Proof.
  unfold countEvents.
  induction evs as [|e evs IH]; cbn; [reflexivity|].
  destruct e; cbn; auto.
Qed.

Lemma stepsOver_app (xs ys : list Signal) :
  stepsOver (xs ++ ys) = stepsOver xs + stepsOver ys.
Proof. induction xs as [|x xs IH]; cbn; [reflexivity | rewrite IH; lia]. Qed.

Lemma flushedOver_deltas (deltas : list jsstring) (buf : jsstring) :
  flushedOver (map (fun delta => SChunk (TextDelta delta)) deltas) buf = [].
Proof. revert buf; induction deltas as [|d ds IH]; intros buf; cbn; auto. Qed.

Lemma stepsOver_deltas (deltas : list jsstring) :
  stepsOver (map (fun delta => SChunk (TextDelta delta)) deltas) = 0.
Proof. induction deltas as [|d ds IH]; cbn; auto. Qed.

(* ================================================================= *)
(** ** The step reconciler *)

(** C1 (as amended).  For every sequence of deltas followed by a
    step-finish notice whose reported text is non-blank (it holds a
    character that [trim] keeps), the reconciler returns normally, emits
    exactly one response event, whose payload is the step's reported
    text and not the accumulated buffer, appends exactly one assistant
    message with that text to the store, and leaves the buffer empty. *)
Theorem closed_text_one_response
        (deltas : list jsstring) (step : StepResult) (s : State) :
  nonBlank (text step) = true ->
  let signals :=
      map (fun delta => SChunk (TextDelta delta)) deltas ++ [SStepFinish step] in
  exists evs,
    processSignals signals s
    = (Normal tt,
       mkState (S (stepIteration s)) []
               (messageManager s ++ [assistantMessage (text step)])
               (eventEmitter s ++ evs))
    /\ responsesOf evs = [text step].
Proof.
  intros Ht signals.
  exists (eventsOver signals (currentSegmentText s)).
  rewrite processSignals_run, responsesOf_eventsOver.
  subst signals.
  rewrite flushedOver_app, bufferOver_app, stepsOver_app,
    flushedOver_deltas, stepsOver_deltas.
  cbn. unfold flushedAtStep, bufferAfterStep. rewrite Ht. cbn.
  split; reflexivity.
Qed.

(** C1, witness: the scenario of the specification, two deltas and a
    step-finish that reports their concatenation. *)
Lemma closed_text_one_response_witness :
  exists evs,
    processSignals
      [textDelta "I'll "; textDelta "check that.";
       SStepFinish {| text := lit "I'll check that.";
                      toolCalls := [fsList]; toolResults := [] |}]
      initialState
    = (Normal tt,
       mkState 1 [] [assistantMessage (lit "I'll check that.")] evs)
    /\ responsesOf evs = [lit "I'll check that."].
Proof.
  apply (closed_text_one_response
           [lit "I'll "; lit "check that."]
           {| text := lit "I'll check that.";
              toolCalls := [fsList]; toolResults := [] |}
           initialState).
  reflexivity.
Defined.

(** C1 as stated fails: a step-finish whose reported text is the
    non-empty string [" "] yields no response event and no assistant
    message, because the text is tested after [trim]. *)
Lemma whitespace_text_no_response :
  truthy (lit " ") = true
  /\ processSignals
       [textDelta " ";
        SStepFinish {| text := lit " "; toolCalls := []; toolResults := [] |}]
       initialState
     = (Normal tt, mkState 1 (lit " ") [] [EvChunk (lit " ")])
  /\ responsesOf [EvChunk (lit " ")] = [].
Proof. repeat split. Qed.

(** C10.  One step-finish notice emits at most one response event, and
    when it emits one the segment buffer is empty afterwards: the
    closed-text flush, the flush before the tool calls and the fallback
    flush exclude each other. *)
Theorem step_finish_at_most_one_response (step : StepResult) (s : State) :
  exists evs,
    eventEmitter (execState (onStepFinish step) s) = eventEmitter s ++ evs
    /\ countEvents isResponse evs <= 1
    /\ (countEvents isResponse evs = 1 ->
        currentSegmentText (execState (onStepFinish step) s) = []).
Proof.
  exists (eventsAtStep step (currentSegmentText s)).
  unfold execState. rewrite onStepFinish_run. cbn.
  rewrite countEvents_responses, responsesOf_eventsAtStep.
  split; [reflexivity|]. split; [apply flushedAtStep_length|].
  unfold flushedAtStep, bufferAfterStep.
  destruct (nonBlank (text step)); [reflexivity|].
  destruct (nonBlank (currentSegmentText s)); cbn.
  - now rewrite !orb_true_r.
  - discriminate.
Qed.

(** C10, witness: a step with closed text and a tool call, prose being
    buffered; the single response leaves the buffer empty. *)
Lemma step_finish_at_most_one_response_witness :
  currentSegmentText
    (execState (onStepFinish {| text := lit "I'll check that.";
                                toolCalls := [fsList]; toolResults := [] |})
               (buffering (lit "I'll check that.")))
  = [].
Proof.
  destruct (step_finish_at_most_one_response
              {| text := lit "I'll check that.";
                 toolCalls := [fsList]; toolResults := [] |}
              (buffering (lit "I'll check that.")))
    as (evs & Hevs & _ & Hclear).
  apply Hclear. cbn in Hevs. subst evs. reflexivity.
Defined.

Lemma countEvents_reset_step (step : StepResult) (buf : jsstring) :
  countEvents isResetAccumulation (eventsAtStep step buf)
  = if hasItems (toolCalls step) then 1 else 0.
Proof.
  unfold eventsAtStep. rewrite !countEvents_app.
  assert (H1 : countEvents isResetAccumulation
                 (map EvResponse (flushedAtStep step buf)) = 0).
  { unfold countEvents. induction (flushedAtStep step buf); cbn; auto. }
  assert (H2 : countEvents isResetAccumulation
                 (map toolCallEvent (toolCalls step)) = 0).
  { unfold countEvents. induction (toolCalls step); cbn; auto. }
  assert (H3 : countEvents isResetAccumulation
                 (map toolResultEvent (toolResults step)) = 0).
  { unfold countEvents. induction (toolResults step); cbn; auto. }
  rewrite H1, H2, H3. destruct (hasItems (toolCalls step)); reflexivity.
Qed.

Lemma countEvents_reset_signal (sig : Signal) (buf : jsstring) :
  countEvents isResetAccumulation (eventsAt sig buf)
  = if carriesToolCalls sig then 1 else 0.
Proof.
  destruct sig as [[delta|ty]|step| |error]; cbn.
  - now destruct (truthy delta).
  - reflexivity.
  - apply countEvents_reset_step.
  - now destruct (nonBlank buf).
  - reflexivity.
Qed.

(** C7.  Over any sequence of provider signals the reconciler emits one
    resetAccumulation event per step-finish notice that carries a
    non-empty tool-call batch and no other: a single signal emits the
    event if and only if it is such a notice, and a notice with text only
    never does. *)
Theorem resetAccumulation_iff_tool_calls (signals : list Signal) (s : State) :
  exists evs,
    eventEmitter (execState (processSignals signals) s) = eventEmitter s ++ evs
    /\ countEvents isResetAccumulation evs
       = List.length (filter carriesToolCalls signals)
    /\ (forall sig,
          signals = [sig] ->
          (In EvResetAccumulation evs
           <-> exists step, sig = SStepFinish step /\ toolCalls step <> [])).
Proof.
  exists (eventsOver signals (currentSegmentText s)).
  unfold execState. rewrite processSignals_run. cbn.
  split; [reflexivity|]. split.
  - generalize (currentSegmentText s).
    induction signals as [|sig rest IH]; intros buf; [reflexivity|].
    cbn [eventsOver filter].
    rewrite countEvents_app, countEvents_reset_signal, IH.
    now destruct (carriesToolCalls sig).
  - intros sig ->. cbn. rewrite app_nil_r.
    assert (Hin : In EvResetAccumulation (eventsAt sig (currentSegmentText s))
                  <-> carriesToolCalls sig = true).
    { pose proof (countEvents_reset_signal sig (currentSegmentText s)) as Hc.
      unfold countEvents in Hc. split.
      - intros Hin. destruct (carriesToolCalls sig); [reflexivity|].
        assert (In EvResetAccumulation
                   (filter isResetAccumulation (eventsAt sig (currentSegmentText s))))
          by (apply filter_In; split; auto).
        destruct (filter _ _); [contradiction | discriminate].
      - intros Ht. rewrite Ht in Hc.
        destruct (filter isResetAccumulation (eventsAt sig (currentSegmentText s)))
          as [|e l] eqn:Hf; [discriminate|].
        assert (He : In e (filter isResetAccumulation
                              (eventsAt sig (currentSegmentText s))))
          by (rewrite Hf; now left).
        apply filter_In in He. destruct He as [He1 He2].
        destruct e; try discriminate. exact He1. }
    rewrite Hin. destruct sig as [chunk|step| |error]; cbn.
    + split; [discriminate | intros (step & H & _); discriminate].
    + rewrite hasItems_true. split.
      * intros H; exists step; auto.
      * intros (step' & H & Hne). now inversion H; subst.
    + split; [discriminate | intros (step & H & _); discriminate].
    + split; [discriminate | intros (step & H & _); discriminate].
Qed.

(** C7, witness: a single step-finish notice with one tool call. *)
Lemma resetAccumulation_iff_tool_calls_witness :
  exists evs,
    eventEmitter (execState (processSignals [SStepFinish silentToolStep]) initialState)
    = evs
    /\ In EvResetAccumulation evs.
Proof.
  destruct (resetAccumulation_iff_tool_calls [SStepFinish silentToolStep] initialState)
    as (evs & Hevs & _ & Hiff).
  exists evs. split; [exact Hevs|].
  apply (Hiff (SStepFinish silentToolStep) eq_refl).
  exists silentToolStep. split; [reflexivity | discriminate].
Defined.

(** C2 (as amended).  When a step-finish notice reports tool calls while
    the step's reported text or the buffered text is non-blank, exactly
    one response event is emitted, strictly before every toolCall event
    of the step; it carries the step's reported text when that is
    non-blank and the buffered text otherwise, and the same text is
    appended to the store.  Within any step-finish notice the order is:
    at most one text flush, the toolCall events followed by
    resetAccumulation, the toolResult events. *)
Theorem text_flush_precedes_tool_calls (step : StepResult) (s : State) :
  toolCalls step <> [] ->
  nonBlank (text step) = true \/ nonBlank (currentSegmentText s) = true ->
  let segment :=
      if nonBlank (text step) then text step else currentSegmentText s in
  onStepFinish step s
  = (Normal tt,
     mkState (S (stepIteration s)) []
             (messageManager s ++ [assistantMessage segment])
             (eventEmitter s
                ++ [EvResponse segment]
                ++ map toolCallEvent (toolCalls step)
                ++ [EvResetAccumulation]
                ++ map toolResultEvent (toolResults step)))
  /\ (forall step' s',
        exists flushed,
          List.length flushed <= 1
          /\ eventEmitter (execState (onStepFinish step') s')
             = eventEmitter s'
                 ++ map EvResponse flushed
                 ++ map toolCallEvent (toolCalls step')
                 ++ (if hasItems (toolCalls step') then [EvResetAccumulation] else [])
                 ++ map toolResultEvent (toolResults step')).
Proof.
  intros Hcalls Htext segment. split.
  - rewrite onStepFinish_run.
    apply hasItems_true in Hcalls.
    unfold eventsAtStep, flushedAtStep, bufferAfterStep, segment.
    rewrite Hcalls.
    destruct (nonBlank (text step)) eqn:Ht; cbn; [reflexivity|].
    destruct Htext as [Hx|Hb]; [discriminate|]. rewrite Hb. reflexivity.
  - intros step' s'. exists (flushedAtStep step' (currentSegmentText s')).
    split; [apply flushedAtStep_length|].
    unfold execState. rewrite onStepFinish_run. reflexivity.
Qed.

(** C2, witness: prose was streamed, the step reports no text of its own
    and one tool call. *)
Lemma text_flush_precedes_tool_calls_witness :
  onStepFinish {| text := []; toolCalls := [fsList]; toolResults := [fsListResult] |}
               (buffering (lit "Let me look."))
  = (Normal tt,
     mkState 1 [] [assistantMessage (lit "Let me look.")]
             [EvResponse (lit "Let me look."); toolCallEvent fsList;
              EvResetAccumulation; toolResultEvent fsListResult]).
Proof.
  refine (proj1 (text_flush_precedes_tool_calls
                   {| text := []; toolCalls := [fsList];
                      toolResults := [fsListResult] |}
                   (buffering (lit "Let me look.")) _ _)).
  - discriminate.
  - right. reflexivity.
Defined.

(** C2 as stated fails twice over.  A buffer holding the non-empty text
    [" "] is not flushed before the tool call; and when the step reports
    text of its own, the response carries that text, not the buffer. *)
Lemma tool_call_without_buffer_response :
  truthy (currentSegmentText (buffering (lit " "))) = true
  /\ onStepFinish {| text := lit " "; toolCalls := [fsList]; toolResults := [] |}
                  (buffering (lit " "))
     = (Normal tt, mkState 1 [] [] [toolCallEvent fsList; EvResetAccumulation])
  /\ onStepFinish {| text := lit "I'll check that."; toolCalls := [fsList];
                     toolResults := [] |}
                  (buffering (lit "I'll "))
     = (Normal tt,
        mkState 1 [] [assistantMessage (lit "I'll check that.")]
                [EvResponse (lit "I'll check that."); toolCallEvent fsList;
                 EvResetAccumulation]).
Proof. repeat split. Qed.

(** C6 (as amended).  On each incoming chunk the reconciler appends the
    delta to the buffer and emits a chunk event carrying only that delta
    if and only if the chunk is a text delta and the delta is non-empty;
    otherwise the state is unchanged.  The buffer is not consulted. *)
Theorem onChunk_appends_nonempty_delta (chunk : Chunk) (s : State) :
  onChunk chunk s
  = (Normal tt,
     match chunk with
     | TextDelta delta =>
         if truthy delta then
           mkState (stepIteration s) (currentSegmentText s ++ delta)
                   (messageManager s) (eventEmitter s ++ [EvChunk delta])
         else s
     | OtherChunk _ => s
     end).
Proof.
  destruct s as [n buf mm ee], chunk as [delta|ty]; cbn; [|reflexivity].
  now destruct delta.
Qed.

(** C6 as stated fails: a delta that the buffer already ends with is
    appended and published again. *)
Lemma repeated_delta_appended_again :
  endsWith (currentSegmentText (buffering (lit "Hello"))) (lit "llo")
  /\ onChunk (TextDelta (lit "llo")) (buffering (lit "Hello"))
     = (Normal tt, mkState 0 (lit "Hellollo") [] [EvChunk (lit "llo")]).
Proof.
  split; [|reflexivity]. exists (lit "He"). reflexivity.
Qed.

(* ================================================================= *)
(** ** The segment buffer *)

Lemma Subsequence_blank_head {A} {kept xs : list (list A)} :
  Subsequence kept ([] :: xs) ->
  exists kept', Subsequence kept' xs /\ List.concat kept' = List.concat kept.
Proof.
  intros H. inversion H; subst.
  - now exists kept.
  - now exists kept0.
Qed.

(** Buffer flushes partition the delta stream: what was flushed so far,
    followed by what is still buffered, is the concatenation of a
    subsequence of the deltas received (the buffer at the start counting
    as the first of them). *)
Lemma flushes_are_disjoint_ranges (signals : list Signal) (buf : jsstring) :
  noClosedText signals ->
  exists kept,
    Subsequence kept (buf :: deltasOf signals)
    /\ List.concat (flushedOver signals buf) ++ bufferOver signals buf = List.concat kept.
Proof.
  revert buf. induction signals as [|sig rest IH]; intros buf Hblank.
  - exists [buf]. split; [apply sub_take, sub_nil|]. cbn. now rewrite ?app_nil_r.
  - assert (Hrest : noClosedText rest)
      by (intros step Hin; apply Hblank; now right).
    destruct (IH (bufferAfter sig buf) Hrest) as (kept & Hsub & Hcat).
    cbn [flushedOver bufferOver]. rewrite concat_app, <- app_assoc, Hcat.
    assert (Hclear :
              forall flushed,
                flushed = [] \/ flushed = [buf] ->
                Subsequence kept ([] :: deltasOf rest) ->
                exists kept0,
                  Subsequence kept0 (buf :: deltasOf rest)
                  /\ List.concat flushed ++ List.concat kept = List.concat kept0).
    { intros flushed Hf Hs.
      destruct (Subsequence_blank_head Hs) as (k & Hk & Hkc).
      destruct Hf as [-> | ->].
      - exists k. split; [now apply sub_skip | now cbn].
      - exists (buf :: k). split; [now apply sub_take|].
        cbn. now rewrite app_nil_r, Hkc. }
    destruct sig as [[delta|ty]|step| |error].
    + (* text delta *)
      cbn in *. inversion Hsub; subst.
      * exists kept. split; [now apply sub_skip, sub_skip | reflexivity].
      * exists (buf :: delta :: kept0). split; [now apply sub_take, sub_take|].
        cbn. now rewrite app_assoc.
    + exists kept. split; [exact Hsub | reflexivity].
    + (* step-finish without closed text *)
      assert (Ht : nonBlank (text step) = false) by (apply Hblank; now left).
      cbn in *. unfold flushedAtStep, bufferAfterStep in *. rewrite Ht in *.
      cbn in *.
      destruct (nonBlank buf) eqn:Hb;
        destruct (hasItems (toolCalls step)) eqn:Hc;
        destruct (hasItems (toolResults step)) eqn:Hr; cbn in *;
        try (apply (Hclear [buf]); [now right | exact Hsub]);
        try (apply (Hclear []); [now left | exact Hsub]).
      exists kept. split; [exact Hsub | reflexivity].
    + (* stream finish *)
      cbn in *. destruct (nonBlank buf) eqn:Hb.
      * apply (Hclear [buf]); [now right | exact Hsub].
      * apply (Hclear []); [now left | exact Hsub].
    + exists kept. split; [exact Hsub | reflexivity].
Qed.

Lemma deltasOf_app (xs ys : list Signal) :
  deltasOf (xs ++ ys) = deltasOf xs ++ deltasOf ys.
Proof. apply flat_map_app. Qed.

Ltac piece_side_start :=
  cbn [flushedAt bufferAfter stepsOf flat_map map app filter];
  unfold flushedAtStep, bufferAfterStep, pieceOk, pieceResponse, replacedText,
    streamedIn;
  cbn [filling closing fate idle closedText flushesBuffer discardsBuffer];
  repeat match goal with
         | H : List.concat _ = _ |- _ => rewrite !H
         | H : _ = true |- _ => rewrite !H
         | H : _ = false |- _ => rewrite !H
         end;
  cbn [andb orb negb].

Ltac piece_side := piece_side_start; reflexivity.

Lemma stepsOf_cons (sig : Signal) (signals : list Signal) :
  stepsOf (sig :: signals) = stepsOf [sig] ++ stepsOf signals.
Proof. apply (flat_map_app _ [sig] signals). Qed.

(** Every run splits into pieces.  [pending] holds the signals received
    since the buffer was last emptied, so that the buffer is the text
    streamed in them. *)
Lemma run_in_pieces (signals : list Signal) :
  forall pending,
    forallb idle pending = true ->
    exists pieces rest,
      pending ++ signals = flat_map pieceSignals pieces ++ rest
      /\ forallb pieceOk pieces = true
      /\ forallb idle rest = true
      /\ flushedOver signals (List.concat (deltasOf pending))
         = flat_map pieceResponse pieces
      /\ bufferOver signals (List.concat (deltasOf pending))
         = List.concat (deltasOf rest)
      /\ flat_map replacedText pieces
         = filter nonBlank (map text (stepsOf signals)).
Proof.
  induction signals as [|sig signals IH]; intros pending Hidle.
  - exists [], pending. cbn. now rewrite app_nil_r.
  - set (buf := List.concat (deltasOf pending)).
    assert (Hbuf0 : List.concat (deltasOf pending) = buf) by reflexivity.
    clearbody buf.
    assert (Hstay :
              idle sig = true ->
              flushedAt sig buf = [] ->
              bufferAfter sig buf = List.concat (deltasOf (pending ++ [sig])) ->
              filter nonBlank (map text (stepsOf [sig])) = [] ->
              exists pieces rest,
                pending ++ sig :: signals = flat_map pieceSignals pieces ++ rest
                /\ forallb pieceOk pieces = true
                /\ forallb idle rest = true
                /\ flushedOver (sig :: signals) buf = flat_map pieceResponse pieces
                /\ bufferOver (sig :: signals) buf = List.concat (deltasOf rest)
                /\ flat_map replacedText pieces
                   = filter nonBlank (map text (stepsOf (sig :: signals)))).
    { intros Hi Hf Hb Hs.
      destruct (IH (pending ++ [sig])) as (pieces & rest & H1 & H2 & H3 & H4 & H5 & H6).
      { rewrite forallb_app, Hidle. cbn. now rewrite Hi. }
      exists pieces, rest. rewrite <- app_assoc in H1.
      cbn [flushedOver bufferOver]. rewrite Hf, Hb.
      rewrite (stepsOf_cons sig signals).
      rewrite map_app, filter_app, Hs. cbn [app].
      repeat split; assumption. }
    assert (Hclose :
              forall f,
                bufferAfter sig buf = [] ->
                pieceOk (mkPiece pending sig f) = true ->
                flushedAt sig buf = pieceResponse (mkPiece pending sig f) ->
                filter nonBlank (map text (stepsOf [sig]))
                = replacedText (mkPiece pending sig f) ->
                exists pieces rest,
                  pending ++ sig :: signals = flat_map pieceSignals pieces ++ rest
                  /\ forallb pieceOk pieces = true
                  /\ forallb idle rest = true
                  /\ flushedOver (sig :: signals) buf = flat_map pieceResponse pieces
                  /\ bufferOver (sig :: signals) buf = List.concat (deltasOf rest)
                  /\ flat_map replacedText pieces
                     = filter nonBlank (map text (stepsOf (sig :: signals)))).
    { intros f Hb Hok Hf Hs.
      destruct (IH [] eq_refl) as (pieces & rest & H1 & H2 & H3 & H4 & H5 & H6).
      exists (mkPiece pending sig f :: pieces), rest.
      cbn [flushedOver bufferOver flat_map forallb]. rewrite Hf, Hb, Hok.
      rewrite (stepsOf_cons sig signals).
      rewrite map_app, filter_app, Hs.
      cbn [app] in H1. unfold pieceSignals at 1. cbn [filling closing].
      rewrite <- !app_assoc. cbn [app]. rewrite <- H1.
      cbn in H4, H5. rewrite H4, H5, H6.
      repeat split; try assumption; reflexivity. }
    assert (Hgrow : forall sig',
               deltasOf [sig'] = [] ->
               buf = List.concat (deltasOf (pending ++ [sig']))).
    { intros sig' Hnone. rewrite deltasOf_app, concat_app, Hnone, Hbuf0. cbn.
      now rewrite app_nil_r. }
    destruct sig as [[delta|other] | step | | error].
    + apply Hstay; try reflexivity.
      rewrite deltasOf_app, concat_app, Hbuf0. cbn. now rewrite app_nil_r.
    + apply Hstay; try reflexivity. now apply Hgrow.
    + destruct (nonBlank (text step)) eqn:Htext;
        [|destruct (nonBlank buf) eqn:Hbuf;
          destruct (hasItems (toolCalls step)) eqn:Hcalls;
          destruct (hasItems (toolResults step)) eqn:Hresults].
      all: first
             [ apply (Hclose Replaced); piece_side
             | apply (Hclose Flushed); piece_side
             | apply (Hclose Discarded); piece_side
             | apply Hstay; [piece_side | piece_side | | piece_side] ].
      piece_side_start. now apply Hgrow.
    + destruct (nonBlank buf) eqn:Hbuf;
        [apply (Hclose Flushed) | apply (Hclose Discarded)]; piece_side.
    + apply Hstay; try reflexivity. now apply Hgrow.
Qed.

(** C3 (as amended).  While the buffered text is non-blank, the buffer is
    flushed -- appended to the store as an assistant message, emitted as
    a response event and cleared -- by stream completion, by a
    step-finish notice that carries tool calls and no text of its own,
    and by a step-finish notice that carries nothing at all.  A
    step-finish notice with non-blank text of its own flushes that text
    in the buffer's place, and one that carries only tool results clears
    the buffer without emitting it.  No delta range is emitted twice: a
    signal that emits a response leaves the buffer empty, and over any
    run whose step-finish notices report no text, the responses followed
    by the text still buffered are the concatenation of a subsequence of
    the deltas received.  Without any condition on the run: started on
    an empty buffer, a run splits into consecutive pieces, each made of
    signals that leave the buffer alone and closed by the signal that
    empties it, followed by signals that leave the buffer alone.  Every
    piece gives rise to at most one response: the text streamed during
    the piece when that is non-blank and the closing signal is a flush
    point, the step's own text when that is non-blank, and none
    otherwise.  The responses of the run are those of its pieces, in
    order, the store gains exactly these, and the buffer is left with
    the text streamed after the last piece; so every delta belongs to
    one piece and is emitted at most once, and every non-blank step text
    is emitted exactly once. *)
Theorem buffer_flush_points (s : State) (step : StepResult) :
  nonBlank (currentSegmentText s) = true ->
  let buf := currentSegmentText s in
  (* stream completion *)
  onFinish s
  = (Normal tt,
     mkState (stepIteration s) [] (messageManager s ++ [assistantMessage buf])
             (eventEmitter s ++ [EvResponse buf]))
  (* tool-call batch *)
  /\ (nonBlank (text step) = false -> toolCalls step <> [] ->
      onStepFinish step s
      = (Normal tt,
         mkState (S (stepIteration s)) []
                 (messageManager s ++ [assistantMessage buf])
                 (eventEmitter s
                    ++ [EvResponse buf]
                    ++ map toolCallEvent (toolCalls step)
                    ++ [EvResetAccumulation]
                    ++ map toolResultEvent (toolResults step))))
  (* a step that reports nothing *)
  /\ (nonBlank (text step) = false -> toolCalls step = [] -> toolResults step = [] ->
      onStepFinish step s
      = (Normal tt,
         mkState (S (stepIteration s)) []
                 (messageManager s ++ [assistantMessage buf])
                 (eventEmitter s ++ [EvResponse buf])))
  (* closed text takes the buffer's place *)
  /\ (nonBlank (text step) = true ->
      messageManager (execState (onStepFinish step) s)
      = messageManager s ++ [assistantMessage (text step)]
      /\ currentSegmentText (execState (onStepFinish step) s) = [])
  (* tool results alone *)
  /\ (nonBlank (text step) = false -> toolCalls step = [] -> toolResults step <> [] ->
      onStepFinish step s
      = (Normal tt,
         mkState (S (stepIteration s)) [] (messageManager s)
                 (eventEmitter s ++ map toolResultEvent (toolResults step))))
  (* never twice *)
  /\ (forall sig s1 evs,
        eventEmitter (execState (deliver sig) s1) = eventEmitter s1 ++ evs ->
        responsesOf evs <> [] ->
        currentSegmentText (execState (deliver sig) s1) = []
        /\ messageManager (execState (deliver sig) s1)
           = messageManager s1 ++ map assistantMessage (responsesOf evs))
  /\ (forall signals s1,
        currentSegmentText s1 = [] ->
        noClosedText signals ->
        exists evs kept,
          eventEmitter (execState (processSignals signals) s1)
          = eventEmitter s1 ++ evs
          /\ Subsequence kept (deltasOf signals)
          /\ List.concat (responsesOf evs)
             ++ currentSegmentText (execState (processSignals signals) s1)
             = List.concat kept)
  (* never twice, for every run *)
  /\ (forall signals s1,
        currentSegmentText s1 = [] ->
        exists evs pieces rest,
          eventEmitter (execState (processSignals signals) s1)
          = eventEmitter s1 ++ evs
          /\ signals = flat_map pieceSignals pieces ++ rest
          /\ forallb pieceOk pieces = true
          /\ forallb idle rest = true
          /\ responsesOf evs = flat_map pieceResponse pieces
          /\ messageManager (execState (processSignals signals) s1)
             = messageManager s1
               ++ map assistantMessage (flat_map pieceResponse pieces)
          /\ currentSegmentText (execState (processSignals signals) s1)
             = List.concat (deltasOf rest)
          /\ flat_map replacedText pieces
             = filter nonBlank (map text (stepsOf signals))).
Proof.
  intros Hb buf. subst buf.
  split; [|split; [|split; [|split; [|split; [|split; [|split]]]]]].
  - rewrite onFinish_run. cbn. now rewrite Hb.
  - intros Ht Hc. apply hasItems_true in Hc.
    rewrite onStepFinish_run.
    unfold eventsAtStep, flushedAtStep, bufferAfterStep. now rewrite Ht, Hc, Hb.
  - intros Ht Hc Hr. rewrite onStepFinish_run.
    unfold eventsAtStep, flushedAtStep, bufferAfterStep.
    rewrite Ht, Hc, Hr, Hb. cbn. now rewrite app_nil_r.
  - intros Ht. unfold execState. rewrite onStepFinish_run. cbn.
    unfold flushedAtStep, bufferAfterStep. now rewrite Ht.
  - intros Ht Hc Hr. apply hasItems_true in Hr. rewrite onStepFinish_run.
    unfold eventsAtStep, flushedAtStep, bufferAfterStep.
    rewrite Ht, Hc, Hr, Hb. cbn. now rewrite app_nil_r.
  - intros sig s1 evs Hevs Hresp. unfold execState in *.
    rewrite deliver_run in *. cbn [snd eventEmitter currentSegmentText messageManager] in *.
    apply app_inv_head in Hevs. subst evs.
    rewrite responsesOf_eventsAt in *. split; [|reflexivity].
    destruct sig as [[delta|ty]|step'| |error]; cbn in *;
      try congruence.
    unfold flushedAtStep, bufferAfterStep in *.
    destruct (nonBlank (text step')); [reflexivity|].
    destruct (nonBlank (currentSegmentText s1)); cbn in *;
      [now rewrite !orb_true_r | congruence].
  - intros signals s1 Hempty Hblank.
    destruct (flushes_are_disjoint_ranges signals [] Hblank) as (kept & Hsub & Hcat).
    destruct (Subsequence_blank_head Hsub) as (kept' & Hsub' & Hcat').
    exists (eventsOver signals []), kept'.
    unfold execState. rewrite processSignals_run, Hempty. cbn.
    rewrite responsesOf_eventsOver. repeat split; auto. congruence.
  - intros signals s1 Hempty.
    destruct (run_in_pieces signals [] eq_refl)
      as (pieces & rest & Hsplit & Hok & Hidle & Hflushed & Hleft & Hclosed).
    cbn in Hsplit, Hflushed, Hleft.
    exists (eventsOver signals []), pieces, rest.
    unfold execState. rewrite processSignals_run, Hempty. cbn.
    rewrite responsesOf_eventsOver, Hflushed, Hleft. repeat split; assumption.
Qed.

(** C3, witness: two of the flush points on a buffer holding
    ["Let me look."], and the pieces of a run in which a step streams
    its text, calls a tool and is followed by a step that streams the
    answer. *)
Lemma buffer_flush_points_witness :
  onFinish (buffering (lit "Let me look."))
  = (Normal tt,
     mkState 0 [] [assistantMessage (lit "Let me look.")]
             [EvResponse (lit "Let me look.")])
  /\ onStepFinish {| text := []; toolCalls := [fsList]; toolResults := [] |}
                  (buffering (lit "Let me look."))
     = (Normal tt,
        mkState 1 [] [assistantMessage (lit "Let me look.")]
                [EvResponse (lit "Let me look."); toolCallEvent fsList;
                 EvResetAccumulation])
  /\ (let signals :=
          [textDelta "Let me "; textDelta "look.";
           SStepFinish {| text := lit "Let me look."; toolCalls := [fsList];
                          toolResults := [fsListResult] |};
           textDelta "Done."; SFinish] in
      exists evs pieces rest,
        eventEmitter (execState (processSignals signals) initialState)
        = eventEmitter initialState ++ evs
        /\ signals = flat_map pieceSignals pieces ++ rest
        /\ forallb pieceOk pieces = true
        /\ forallb idle rest = true
        /\ responsesOf evs = flat_map pieceResponse pieces
        /\ messageManager (execState (processSignals signals) initialState)
           = messageManager initialState
             ++ map assistantMessage (flat_map pieceResponse pieces)
        /\ currentSegmentText (execState (processSignals signals) initialState)
           = List.concat (deltasOf rest)
        /\ flat_map replacedText pieces
           = filter nonBlank (map text (stepsOf signals))).
Proof.
  pose proof (buffer_flush_points
                (buffering (lit "Let me look."))
                {| text := []; toolCalls := [fsList]; toolResults := [] |}
                eq_refl) as H.
  split; [|split].
  - exact (proj1 H).
  - refine (proj1 (proj2 H) eq_refl _). discriminate.
  - exact (proj2 (proj2 (proj2 (proj2 (proj2 (proj2 (proj2 H))))))
             _ initialState eq_refl).
Defined.

(** C3 as stated fails: buffered text is dropped, not flushed, when a
    step-finish notice carries only a tool-result batch, and a buffer
    holding the non-empty text [" "] is dropped at stream completion and
    at a tool-call batch. *)
Lemma buffered_text_dropped :
  onStepFinish {| text := []; toolCalls := []; toolResults := [fsListResult] |}
               (buffering (lit "Let me look."))
  = (Normal tt, mkState 1 [] [] [toolResultEvent fsListResult])
  /\ truthy (lit " ") = true
  /\ onFinish (buffering (lit " ")) = (Normal tt, mkState 0 [] [] [])
  /\ onStepFinish {| text := []; toolCalls := [fsList]; toolResults := [] |}
                  (buffering (lit " "))
     = (Normal tt, mkState 1 [] [] [toolCallEvent fsList; EvResetAccumulation]).
Proof. repeat split. Qed.

(* ================================================================= *)
(** ** The service methods *)

(** C9.  [resetConversation] delegates to the store's reset and emits
    conversationReset; calling it twice in a row leaves the store as one
    call does, empty in both cases (each call emits its own event). *)
Theorem resetConversation_idempotent (s : State) :
  resetConversation s
  = (Normal tt,
     mkState (stepIteration s) (currentSegmentText s) []
             (eventEmitter s ++ [EvConversationReset]))
  /\ messageManager (execState (resetConversation ;; resetConversation) s)
     = messageManager (execState resetConversation s)
  /\ messageManager (execState resetConversation s) = []
  /\ eventEmitter (execState (resetConversation ;; resetConversation) s)
     = eventEmitter s ++ [EvConversationReset; EvConversationReset].
Proof.
  destruct s as [n buf mm ee]. unfold resetConversation, execState; cbn.
  repeat split. now rewrite <- app_assoc.
Qed.

Lemma generateText_onStepFinish_run (step : StepResult) (s : State) :
  generateText_onStepFinish step s
  = (Normal tt,
     mkState (S (stepIteration s)) (currentSegmentText s) (messageManager s)
             (eventEmitter s ++ eventsAtGenerateStep step)).
Proof.
  destruct s as [n buf mm ee], step as [t calls results].
  unfold generateText_onStepFinish, eventsAtGenerateStep.
  cbn [text toolCalls toolResults]. fold (hasItems calls). fold (hasItems results).
  destruct (hasItems calls) eqn:Hc; [|apply hasItems_false in Hc; subst calls];
    (destruct (hasItems results) eqn:Hr; [|apply hasItems_false in Hr; subst results]);
    destruct (truthy t); eff_run;
    rewrite ?app_nil_r, <- ?app_assoc; reflexivity.
Qed.

Lemma forEach_generateText_onStepFinish (steps : list StepResult) (s : State) :
  forEach steps generateText_onStepFinish s
  = (Normal tt,
     mkState (List.length steps + stepIteration s) (currentSegmentText s)
             (messageManager s)
             (eventEmitter s ++ flat_map eventsAtGenerateStep steps)).
Proof.
  revert s. induction steps as [|step steps IH]; intros s.
  - destruct s; cbn. now rewrite app_nil_r.
  - cbn [forEach]. unfold bind. rewrite generateText_onStepFinish_run, IH. cbn.
    rewrite <- app_assoc. f_equal. f_equal. lia.
Qed.

Lemma generateText_run (env : Env) (messages : list Message) (tools : ToolSet)
      (maxSteps : Z) (s : State) :
  let outcome := sdkGenerateText env messages tools maxSteps in
  let evs := flat_map eventsAtGenerateStep (stepsFinished outcome) in
  generateText env messages tools maxSteps s
  = match settled outcome with
    | inr response =>
        (Normal (responseText response),
         mkState (List.length (stepsFinished outcome)) (currentSegmentText s)
                 (messageManager s ++ responseMessages response)
                 (eventEmitter s ++ evs))
    | inl error =>
        (Abrupt error,
         mkState (List.length (stepsFinished outcome)) (currentSegmentText s)
                 (messageManager s) (eventEmitter s ++ evs))
    end.
Proof.
  intros outcome evs. unfold generateText. fold outcome.
  unfold bind at 1. cbn [setStepIteration].
  unfold bind at 1. rewrite forEach_generateText_onStepFinish.
  cbn [stepIteration currentSegmentText messageManager eventEmitter].
  rewrite Nat.add_0_r. fold evs.
  destruct (settled outcome) as [error|response]; reflexivity.
Qed.

(** One pass through the loop body, whatever fuel is left: the loop
    condition [iterationCount < 1] ends the loop, not the fuel. *)
Lemma generationLoop_run (fuel : nat) (env : Env) (maxIterations : Z)
      (tools : ToolSet) (fullResponse : jsstring) (s : State) :
  generationLoop (S fuel) env maxIterations tools 0 fullResponse s
  = match getFormattedMessages env (messageManager s) with
    | inl error =>
        (Abrupt error,
         mkState (stepIteration s) (currentSegmentText s) (messageManager s)
                 (eventEmitter s ++ [EvThinking]))
    | inr formatted =>
        let outcome := sdkGenerateText env formatted tools maxIterations in
        let evs := flat_map eventsAtGenerateStep (stepsFinished outcome) in
        match settled outcome with
        | inl error =>
            (Abrupt error,
             mkState (List.length (stepsFinished outcome)) (currentSegmentText s)
                     (messageManager s) (eventEmitter s ++ EvThinking :: evs))
        | inr response =>
            (Normal (1, responseText response),
             mkState (List.length (stepsFinished outcome)) (currentSegmentText s)
                     (messageManager s ++ responseMessages response)
                     (eventEmitter s ++ EvThinking :: evs))
        end
    end.
Proof.
  destruct s as [n buf mm ee].
  cbn [generationLoop Nat.ltb Nat.leb].
  unfold bind at 1. cbn [emit stepIteration currentSegmentText messageManager eventEmitter].
  unfold bind at 1. cbn [getMessages messageManager].
  unfold bind at 1.
  destruct (getFormattedMessages env mm) as [error|formatted]; cbn [await throw ret].
  - reflexivity.
  - unfold bind at 1. rewrite generateText_run.
    cbn [stepIteration currentSegmentText messageManager eventEmitter].
    destruct (settled (sdkGenerateText env formatted tools maxIterations))
      as [error|response].
    + now rewrite <- app_assoc.
    + rewrite <- (app_assoc ee [EvThinking]). destruct fuel; reflexivity.
Qed.

Lemma generationLoop_done (fuel : nat) (env : Env) (maxIterations : Z)
      (tools : ToolSet) (iterationCount : nat) (fullResponse : jsstring) (s : State) :
  1 <= iterationCount ->
  generationLoop fuel env maxIterations tools iterationCount fullResponse s
  = (Normal (iterationCount, fullResponse), s).
Proof.
  intros H. destruct iterationCount as [|k]; [lia|]. destruct fuel; reflexivity.
Qed.

(** Fuel adequacy: any fuel of at least [1 - iterationCount] gives the
    result of exactly that much. *)
Lemma generationLoop_fuel (fuel : nat) (env : Env) (maxIterations : Z)
      (tools : ToolSet) (iterationCount : nat) (fullResponse : jsstring) (s : State) :
  1 - iterationCount <= fuel ->
  generationLoop fuel env maxIterations tools iterationCount fullResponse s
  = generationLoop (1 - iterationCount) env maxIterations tools
                   iterationCount fullResponse s.
Proof.
  intros H. destruct iterationCount as [|k].
  - destruct fuel as [|fuel]; [cbn in H; lia|].
    cbn [Nat.sub]. now rewrite !generationLoop_run.
  - now rewrite !generationLoop_done by lia.
Qed.

Lemma processStream_run (env : Env) (messages : list Message) (tools : ToolSet)
      (maxSteps : Z) (s : State) :
  processStream env messages tools maxSteps s
  = match sdkStreamText env messages tools maxSteps with
    | StreamCallThrows error =>
        (Abrupt error, mkState 0 [] (messageManager s) (eventEmitter s))
    | NotIterable =>
        (Normal tt,
         mkState 0 [] (messageManager s)
                 (eventEmitter s ++ [EvError notIterableMessage]))
    | Stream signals ending =>
        (Normal tt,
         mkState (stepsOver signals) (bufferOver signals [])
                 (messageManager s ++ map assistantMessage (flushedOver signals []))
                 (eventEmitter s ++ eventsOver signals []
                    ++ match ending with
                       | Consumed => []
                       | IterationThrows error => [EvError (errorMessage error)]
                       end))
    end.
Proof.
  destruct s as [n buf mm ee]. unfold processStream, streamText.
  unfold bind at 1. unfold bind at 1. cbn [setStepIteration].
  unfold bind at 1.
  cbn [setCurrentSegmentText stepIteration currentSegmentText messageManager
       eventEmitter].
  destruct (sdkStreamText env messages tools maxSteps)
    as [error| |signals ending]; cbn [throw ret].
  - reflexivity.
  - reflexivity.
  - unfold tryCatch, bind at 1.
    rewrite processSignals_run.
    cbn [stepIteration currentSegmentText messageManager eventEmitter].
    rewrite Nat.add_0_r. destruct ending as [|error]; cbn.
    + now rewrite app_nil_r.
    + now rewrite <- app_assoc.
Qed.

Lemma countEvents_thinking_steps (steps : list StepResult) :
  countEvents isThinking (flat_map eventsAtGenerateStep steps) = 0.
Proof.
  induction steps as [|step steps IH]; [reflexivity|].
  cbn [flat_map]. rewrite countEvents_app, IH. unfold eventsAtGenerateStep.
  rewrite !countEvents_app.
  assert (H1 : countEvents isThinking (map toolCallEvent (toolCalls step)) = 0)
    by (unfold countEvents; induction (toolCalls step); cbn; auto).
  assert (H2 : countEvents isThinking (map toolResultEvent (toolResults step)) = 0)
    by (unfold countEvents; induction (toolResults step); cbn; auto).
  rewrite H1, H2. now destruct (truthy (text step)).
Qed.

Lemma responsesOf_silent_steps (steps : list StepResult) :
  (forall step, In step steps -> text step = []) ->
  responsesOf (flat_map eventsAtGenerateStep steps) = [].
Proof.
  induction steps as [|step steps IH]; intros Hsilent; [reflexivity|].
  cbn [flat_map]. rewrite responsesOf_app, IH
    by (intros st Hin; apply Hsilent; now right).
  rewrite app_nil_r. unfold eventsAtGenerateStep.
  rewrite (Hsilent step (or_introl eq_refl)).
  change (truthy []) with false. cbn [app].
  now rewrite responsesOf_app, responsesOf_toolCalls, responsesOf_toolResults.
Qed.

Lemma countEvents_error_signals (signals : list Signal) (buf : jsstring) :
  (forall error, ~ In (SError error) signals) ->
  countEvents isError (eventsOver signals buf) = 0.
Proof.
  revert buf. induction signals as [|sig rest IH]; intros buf Hno; [reflexivity|].
  cbn [eventsOver]. rewrite countEvents_app, IH
    by (intros error Hin; apply (Hno error); now right).
  rewrite Nat.add_0_r.
  destruct sig as [[delta|ty]|step| |error]; cbn [eventsAt].
  - now destruct (truthy delta).
  - reflexivity.
  - unfold eventsAtStep. rewrite !countEvents_app.
    assert (H1 : countEvents isError (map EvResponse (flushedAtStep step buf)) = 0)
      by (unfold countEvents; induction (flushedAtStep step buf); cbn; auto).
    assert (H2 : countEvents isError (map toolCallEvent (toolCalls step)) = 0)
      by (unfold countEvents; induction (toolCalls step); cbn; auto).
    assert (H3 : countEvents isError (map toolResultEvent (toolResults step)) = 0)
      by (unfold countEvents; induction (toolResults step); cbn; auto).
    rewrite H1, H2, H3. now destruct (hasItems (toolCalls step)).
  - cbn. now destruct (nonBlank buf).
  - exfalso. apply (Hno error). now left.
Qed.

Lemma flushedOver_quiet (signals : list Signal) :
  forall buf,
    nonBlank buf = false ->
    forallb carriesNoText signals = true ->
    flushedOver signals buf = [].
Proof.
  induction signals as [|sig signals IH]; intros buf Hbuf Hquiet; [reflexivity|].
  cbn [forallb] in Hquiet. apply andb_true_iff in Hquiet.
  destruct Hquiet as [Hsig Hquiet]. cbn [flushedOver].
  assert (Hstep : flushedAt sig buf = [] /\ nonBlank (bufferAfter sig buf) = false).
  { destruct sig as [[delta|other] | step | | error]; cbn in *.
    - split; [reflexivity|]. rewrite nonBlank_app, Hbuf.
      now apply negb_true_iff in Hsig.
    - now split.
    - apply negb_true_iff in Hsig. unfold flushedAtStep, bufferAfterStep.
      rewrite Hsig, Hbuf. cbn. split; [reflexivity|].
      now destruct (_ || _); [apply nonBlank_nil|].
    - rewrite Hbuf. split; [reflexivity | apply nonBlank_nil].
    - now split. }
  destruct Hstep as [-> Hnext]. now apply IH.
Qed.

Lemma errorEvents_eventsOver (signals : list Signal) :
  forall buf,
    filter isError (eventsOver signals buf)
    = map (fun error => EvError (errorMessage error)) (errorsOf signals).
Proof.
  induction signals as [|sig signals IH]; intros buf; [reflexivity|].
  cbn [eventsOver]. rewrite filter_app, IH.
  change (errorsOf (sig :: signals)) with
    ((match sig with SError error => [error] | _ => [] end) ++ errorsOf signals).
  rewrite map_app. f_equal.
  destruct sig as [[delta|other] | step | | error]; cbn [eventsAt].
  - now destruct (truthy delta).
  - reflexivity.
  - unfold eventsAtStep. rewrite !filter_app.
    assert (H1 : filter isError (map EvResponse (flushedAtStep step buf)) = [])
      by (induction (flushedAtStep step buf); cbn; auto).
    assert (H2 : filter isError (map toolCallEvent (toolCalls step)) = [])
      by (induction (toolCalls step); cbn; auto).
    assert (H3 : filter isError (map toolResultEvent (toolResults step)) = [])
      by (induction (toolResults step); cbn; auto).
    rewrite H1, H2, H3. now destruct (hasItems (toolCalls step)).
  - cbn. now destruct (nonBlank buf).
  - reflexivity.
Qed.

(** *** Inside the guarded region

    Both entry points append the user message and list the tools before
    they enter their [try] block.  The lemmas of this section describe a
    task for which those two calls succeed. *)
Section GuardedRegion.

Variables (env : Env) (maxIterations : Z).
Variables (userInput : jsstring) (imageData : option ImageData).
Variables (tools : ToolSet) (s : State).

Hypothesis accepted : rejectsUserMessage env userInput imageData = None.
Hypothesis listed : getAllTools env = inr tools.

(** The history that is formatted for the provider. *)
Let history : list Message :=
  messageManager s ++ [userMessage userInput imageData].

Lemma completeTask_run :
  completeTask env maxIterations userInput imageData s
  = match getFormattedMessages env history with
    | inl error =>
        (Normal (errorPrefix ++ errorMessage error),
         mkState (stepIteration s) (currentSegmentText s) history
                 (eventEmitter s ++ [EvThinking; EvError (errorMessage error)]))
    | inr formatted =>
        let outcome :=
            sdkGenerateText env formatted (formatTools tools) maxIterations in
        let evs := flat_map eventsAtGenerateStep (stepsFinished outcome) in
        match settled outcome with
        | inl error =>
            (Normal (errorPrefix ++ errorMessage error),
             mkState (List.length (stepsFinished outcome)) (currentSegmentText s)
                     history
                     (eventEmitter s
                        ++ EvThinking :: evs ++ [EvError (errorMessage error)]))
        | inr response =>
            (Normal (orElse (responseText response) exhaustionMessage),
             mkState (List.length (stepsFinished outcome)) (currentSegmentText s)
                     (history ++ responseMessages response)
                     (eventEmitter s ++ EvThinking :: evs))
        end
    end.
Proof.
  unfold history, completeTask, addUserMessage.
  rewrite accepted, listed. clear accepted listed history.
  destruct s as [n buf mm ee].
  unfold bind at 1. cbn [stepIteration currentSegmentText messageManager eventEmitter].
  unfold bind at 1. cbn [await ret]. unfold tryCatch, bind at 1.
  cbn [Nat.sub]. rewrite generationLoop_run.
  cbn [stepIteration currentSegmentText messageManager eventEmitter].
  destruct (getFormattedMessages env (mm ++ [userMessage userInput imageData]))
    as [error|formatted].
  - cbn. now rewrite <- app_assoc.
  - cbn zeta.
    destruct (settled (sdkGenerateText env formatted (formatTools tools) maxIterations))
      as [error|response].
    + cbn. rewrite <- !app_assoc. reflexivity.
    + reflexivity.
Qed.

Lemma completeTaskStreaming_run :
  completeTaskStreaming env maxIterations userInput imageData s
  = match getFormattedMessages env history with
    | inl error =>
        (Normal tt,
         mkState (stepIteration s) (currentSegmentText s) history
                 (eventEmitter s ++ [EvThinking; EvError (errorMessage error)]))
    | inr formatted =>
        match sdkStreamText env formatted (formatTools tools) maxIterations with
        | StreamCallThrows error =>
            (Normal tt,
             mkState 0 [] history
                     (eventEmitter s ++ [EvThinking; EvError (errorMessage error)]))
        | NotIterable =>
            (Normal tt,
             mkState 0 [] history
                     (eventEmitter s ++ [EvThinking; EvError notIterableMessage]))
        | Stream signals ending =>
            (Normal tt,
             mkState (stepsOver signals) (bufferOver signals [])
                     (history ++ map assistantMessage (flushedOver signals []))
                     (eventEmitter s
                        ++ EvThinking :: eventsOver signals []
                        ++ match ending with
                           | Consumed => []
                           | IterationThrows error => [EvError (errorMessage error)]
                           end))
        end
    end.
Proof.
  unfold history, completeTaskStreaming, addUserMessage.
  rewrite accepted, listed. clear accepted listed history.
  destruct s as [n buf mm ee].
  unfold bind at 1. cbn [stepIteration currentSegmentText messageManager eventEmitter].
  unfold bind at 1. cbn [await ret]. unfold tryCatch.
  unfold bind at 1. cbn [emit stepIteration currentSegmentText messageManager eventEmitter].
  unfold bind at 1. cbn [getMessages messageManager].
  unfold bind at 1.
  destruct (getFormattedMessages env (mm ++ [userMessage userInput imageData]))
    as [error|formatted]; cbn [await throw ret].
  - cbn. now rewrite <- app_assoc.
  - rewrite processStream_run.
    cbn [stepIteration currentSegmentText messageManager eventEmitter].
    destruct (sdkStreamText env formatted (formatTools tools) maxIterations)
      as [error| |signals ending]; cbn; now rewrite <- !app_assoc.
Qed.

(** C4 (as amended).  When the user message is accepted, the tools are
    listed, the history is formatted and the provider binding's
    [generateText] resolves, [completeTask] has called the binding exactly
    once, handing it [maxIterations] as the bound on provider-level steps
    (the generation attempts): its own loop runs once, and the loop
    condition ends it, not the fuel.  It publishes every step the binding
    reports and returns the binding's final text, or the fixed exhaustion
    message when that text is empty.  In particular, against a provider
    whose steps all carry tool calls and no text, and a binding that
    stops after [maxIterations] steps and resolves with the text of the
    last one, exactly [maxIterations] step-finish notices are processed,
    no response is emitted and the exhaustion message is returned. *)
Theorem completeTask_single_generation
        (formatted : list Message) (response : GenerateTextResult) :
  getFormattedMessages env history = inr formatted ->
  settled (sdkGenerateText env formatted (formatTools tools) maxIterations)
  = inr response ->
  let outcome := sdkGenerateText env formatted (formatTools tools) maxIterations in
  let evs := EvThinking :: flat_map eventsAtGenerateStep (stepsFinished outcome) in
  let s1 := execState (addUserMessage env userInput imageData) s in
  let s' := mkState (List.length (stepsFinished outcome)) (currentSegmentText s)
                    (history ++ responseMessages response)
                    (eventEmitter s ++ evs) in
  (forall fuel,
      1 <= fuel ->
      generationLoop fuel env maxIterations (formatTools tools) 0 [] s1
      = (Normal (1, responseText response), s'))
  /\ completeTask env maxIterations userInput imageData s
     = (Normal (if truthy (responseText response)
                then responseText response else exhaustionMessage), s')
  /\ countEvents isThinking evs = 1
  /\ ((forall step, In step (stepsFinished outcome) ->
                    text step = [] /\ toolCalls step <> []) ->
      List.length (stepsFinished outcome) = Z.to_nat maxIterations ->
      responseText response = last (map text (stepsFinished outcome)) [] ->
      completion (completeTask env maxIterations userInput imageData) s
      = Normal exhaustionMessage
      /\ stepIteration
           (execState (completeTask env maxIterations userInput imageData) s)
         = Z.to_nat maxIterations
      /\ responsesOf evs = []).
Proof.
  intros Hfmt Hres outcome evs s1 s'.
  assert (Hrun : completeTask env maxIterations userInput imageData s
                 = (Normal (orElse (responseText response) exhaustionMessage), s')).
  { rewrite completeTask_run, Hfmt. cbn zeta. now rewrite Hres. }
  unfold history in *.
  split; [|split; [exact Hrun|split]].
  - intros [|fuel] Hfuel; [lia|].
    rewrite generationLoop_run. subst s1. unfold execState, addUserMessage.
    rewrite accepted.
    cbn [snd stepIteration currentSegmentText messageManager eventEmitter].
    rewrite Hfmt. cbn zeta. rewrite Hres. reflexivity.
  - subst evs. change (countEvents isThinking (EvThinking :: ?l))
      with (S (countEvents isThinking l)).
    now rewrite countEvents_thinking_steps.
  - intros Hsilent Hbound Hlast.
    assert (Hempty : responseText response = []).
    { rewrite Hlast. clear -Hsilent.
      induction (stepsFinished outcome) as [|step steps IH]; [reflexivity|].
      cbn [map]. destruct steps as [|step' steps].
      - cbn. apply Hsilent. now left.
      - change (last (text step :: map text (step' :: steps)) [])
          with (last (map text (step' :: steps)) []).
        apply IH. intros st Hin. apply Hsilent. now right. }
    unfold completion, execState. rewrite Hrun. cbn [fst snd].
    unfold orElse. rewrite Hempty. split; [reflexivity|].
    split; [subst s'; exact Hbound|].
    subst evs. change (responsesOf (EvThinking :: ?l)) with (responsesOf l).
    apply responsesOf_silent_steps. intros st Hin. now apply Hsilent.
Qed.

(** C8 (as amended).  If a provider failure reaches the service exactly
    once while a streaming task runs -- through one call of [onError], at
    any point of the stream, or through the text stream throwing while
    it is consumed -- then the task returns normally and exactly one
    error event is emitted, after the events of the signals that came
    before the failure and before the events of those that come after
    it.  The store holds, after the user message, one assistant message
    for every response event emitted, in order: what was flushed before
    the failure stays in the store.  No response event follows the error
    event when the failure is the last thing the SDK reports, or when no
    non-blank text is buffered at the failure and the signals after it
    bring no text. *)
Theorem single_failure_single_error
        (formatted : list Message) (before after : list Signal) (error : Thrown) :
  getFormattedMessages env history = inr formatted ->
  (forall other, ~ In (SError other) before) ->
  (forall other, ~ In (SError other) after) ->
  sdkStreamText env formatted (formatTools tools) maxIterations
  = Stream (before ++ SError error :: after) Consumed
  \/ (sdkStreamText env formatted (formatTools tools) maxIterations
      = Stream before (IterationThrows error)
      /\ after = []) ->
  exists evsBefore evsAfter s',
    completeTaskStreaming env maxIterations userInput imageData s = (Normal tt, s')
    /\ eventEmitter s'
       = eventEmitter s
         ++ EvThinking :: evsBefore ++ EvError (errorMessage error) :: evsAfter
    /\ countEvents isError
         (EvThinking :: evsBefore ++ EvError (errorMessage error) :: evsAfter) = 1
    /\ messageManager s'
       = history ++ map assistantMessage (responsesOf evsBefore)
                 ++ map assistantMessage (responsesOf evsAfter)
    /\ evsBefore = eventsOver before []
    /\ evsAfter = eventsOver after (bufferOver before [])
    /\ (after = [] -> evsAfter = [])
    /\ (nonBlank (bufferOver before []) = false ->
        forallb carriesNoText after = true ->
        responsesOf evsAfter = []).
Proof.
  intros Hfmt Hbefore Hafter Hfail.
  set (buf := bufferOver before []).
  assert (Hcount : countEvents isError
                     (EvThinking :: eventsOver before []
                        ++ EvError (errorMessage error) :: eventsOver after buf) = 1).
  { change (countEvents isError (EvThinking :: ?l)) with (countEvents isError l).
    rewrite countEvents_app.
    change (countEvents isError (EvError ?m :: ?l)) with (S (countEvents isError l)).
    now rewrite !countEvents_error_signals. }
  pose proof completeTaskStreaming_run as Hrun.
  rewrite Hfmt in Hrun. unfold history in *.
  exists (eventsOver before []), (eventsOver after buf).
  rewrite !responsesOf_eventsOver.
  assert (Hquiet : nonBlank buf = false ->
                   forallb carriesNoText after = true ->
                   flushedOver after buf = [])
    by (intros; now apply flushedOver_quiet).
  destruct Hfail as [Hcb | [Hiter ->]].
  - rewrite Hcb in Hrun. eexists. split; [exact Hrun|].
    cbn [eventEmitter messageManager].
    rewrite eventsOver_app, flushedOver_app.
    cbn [eventsOver flushedOver eventsAt flushedAt bufferAfter app]. fold buf.
    rewrite app_nil_r, map_app, <- !app_assoc. cbn [app].
    repeat split; auto. now intros ->.
  - rewrite Hiter in Hrun. eexists. split; [exact Hrun|].
    cbn [eventEmitter messageManager eventsOver flushedOver map] in *.
    rewrite !app_nil_r. repeat split; auto.
Qed.

End GuardedRegion.

(** C4, witness: a binding that honours the bound of three steps against
    a provider which only ever calls tools; three steps are processed
    and the exhaustion message comes back. *)
Lemma completeTask_single_generation_witness :
  completeTask (settledEnv alwaysSilentToolCalls NotIterable) 3
               (lit "list files") None initialState
  = (Normal exhaustionMessage,
     mkState 3 [] [userMessage (lit "list files") None]
             [EvThinking;
              toolCallEvent fsList; toolResultEvent fsListResult;
              toolCallEvent fsList; toolResultEvent fsListResult;
              toolCallEvent fsList; toolResultEvent fsListResult])
  /\ stepIteration
       (execState (completeTask (settledEnv alwaysSilentToolCalls NotIterable) 3
                                (lit "list files") None) initialState)
     = Z.to_nat 3.
Proof.
  pose proof (completeTask_single_generation
                (settledEnv alwaysSilentToolCalls NotIterable) 3
                (lit "list files") None [] initialState eq_refl eq_refl
                [userMessage (lit "list files") None]
                {| responseText := []; responseMessages := [] |}
                eq_refl eq_refl) as H.
  split.
  - exact (proj1 (proj2 H)).
  - refine (proj1 (proj2 (proj2 (proj2 (proj2 H)) _ eq_refl eq_refl))).
    intros step [<-|[<-|[<-|[]]]]; (split; [reflexivity | discriminate]).
Defined.

(** C4 as stated fails.  Against a provider that answers every attempt
    with a further tool call, accompanied by text, and a binding that
    stops after the three steps it is allowed, [completeTask] returns the
    text of the last step, not the exhaustion message. *)
Lemma completeTask_returns_last_text :
  let env := settledEnv alwaysToolCalls NotIterable in
  Forall (fun step => toolCalls step <> []) (stepsFinished (alwaysToolCalls 3))
  /\ List.length (stepsFinished (alwaysToolCalls 3)) = 3
  /\ completeTask env 3 (lit "list files") None initialState
     = (Normal (lit "Checking."),
        mkState 3 [] [userMessage (lit "list files") None]
                [EvThinking;
                 EvResponse (lit "Checking.");
                 toolCallEvent fsList; toolResultEvent fsListResult;
                 EvResponse (lit "Checking.");
                 toolCallEvent fsList; toolResultEvent fsListResult;
                 EvResponse (lit "Checking.");
                 toolCallEvent fsList; toolResultEvent fsListResult])
  /\ lit "Checking." <> exhaustionMessage.
Proof.
  cbv zeta. split; [|split; [|split]].
  - repeat constructor; discriminate.
  - reflexivity.
  - reflexivity.
  - discriminate.
Qed.

(** C8, witness: a tool step with prose has been flushed, the next
    attempt fails before any text is streamed, and the SDK finishes the
    step and the stream after it has reported the failure. *)
Lemma single_failure_single_error_witness :
  exists evsBefore evsAfter s',
    completeTaskStreaming (settledEnv generateNothing failsBeforeText) 10
                          (lit "list files") None initialState
    = (Normal tt, s')
    /\ eventEmitter s'
       = EvThinking :: evsBefore ++ EvError (lit "Overloaded") :: evsAfter
    /\ countEvents isError
         (EvThinking :: evsBefore ++ EvError (lit "Overloaded") :: evsAfter) = 1
    /\ messageManager s'
       = [userMessage (lit "list files") None]
           ++ map assistantMessage (responsesOf evsBefore)
           ++ map assistantMessage (responsesOf evsAfter)
    /\ responsesOf evsBefore = [lit "Let me look."]
    /\ responsesOf evsAfter = [].
Proof.
  destruct (single_failure_single_error
              (settledEnv generateNothing failsBeforeText) 10
              (lit "list files") None [] initialState eq_refl eq_refl
              [userMessage (lit "list files") None]
              [SStepFinish {| text := lit "Let me look."; toolCalls := [fsList];
                              toolResults := [fsListResult] |}]
              [SStepFinish {| text := []; toolCalls := []; toolResults := [] |};
               SFinish]
              overloaded eq_refl)
    as (evsBefore & evsAfter & s' & Hrun & Hevents & Hcount & Hstore
        & Hbefore & Hafter & _ & Hquiet).
  - intros other [H|[]]; discriminate H.
  - intros other [H|[H|[]]]; discriminate H.
  - left. reflexivity.
  - exists evsBefore, evsAfter, s'.
    split; [exact Hrun|]. split; [exact Hevents|]. split; [exact Hcount|].
    split; [exact Hstore|]. split; [now rewrite Hbefore|].
    apply Hquiet; reflexivity.
Defined.

(** C8 as stated fails.  When the SDK reports a failure through [onError]
    and the text stream throws it as well, two error events are emitted;
    and when [onFinish] is called after [onError], the text buffered
    before the failure is flushed as a response event after the error
    event. *)
Lemma failure_reported_twice_or_followed_by_response :
  eventEmitter
    (execState (completeTaskStreaming (settledEnv generateNothing failsTwice) 10
                                      (lit "list files") None) initialState)
  = [EvThinking; EvChunk (lit "Par");
     EvError (lit "Overloaded"); EvError (lit "Overloaded")]
  /\ eventEmitter
       (execState (completeTaskStreaming (settledEnv generateNothing failsThenFinishes)
                                         10 (lit "list files") None) initialState)
     = [EvThinking; toolCallEvent fsList; EvResetAccumulation;
        toolResultEvent fsListResult; EvChunk (lit "Par");
        EvError (lit "Overloaded"); EvResponse (lit "Par")].
Proof. split; reflexivity. Qed.

(** C5 (as amended).  Both entry points guard everything from the
    thinking notice on.  When the user-message append and the tool
    listing succeed, [completeTask] returns a string and
    [completeTaskStreaming] returns normally, for every behaviour of the
    history formatter and of the provider binding.  A failure that
    reaches the entry point as an exception -- formatting the history
    rejects, [generateText] rejects, [streamText] throws, the text
    stream throws while it is consumed -- ends as the last event of the
    log, an error event, and for [completeTask] also as the returned
    string.  A failure that the SDK reports through [onError] is
    reported by an error event at that point of the stream, between the
    events of the signals before it and those of the signals after it,
    so that other events can follow it.  In streaming mode the error
    events of a task are exactly the failures that reach the guarded
    region, one event each and in order, a result without a text stream
    counting as one.  The two calls made before the guarded region are
    not covered: when the append or the listing fails, both entry points
    raise that failure to the caller and emit nothing. *)
Theorem entry_points_guarded_region
        (env : Env) (maxIterations : Z) (userInput : jsstring)
        (imageData : option ImageData) (s : State) :
  let history := messageManager s ++ [userMessage userInput imageData] in
  match preludeFailure env userInput imageData with
  | Some error =>
      completion (completeTask env maxIterations userInput imageData) s
      = Abrupt error
      /\ completion (completeTaskStreaming env maxIterations userInput imageData) s
         = Abrupt error
      /\ eventEmitter (execState (completeTask env maxIterations userInput imageData) s)
         = eventEmitter s
      /\ eventEmitter
           (execState (completeTaskStreaming env maxIterations userInput imageData) s)
         = eventEmitter s
  | None =>
      (exists answer,
          completion (completeTask env maxIterations userInput imageData) s
          = Normal answer)
      /\ completion (completeTaskStreaming env maxIterations userInput imageData) s
         = Normal tt
      /\ (forall tools error,
            getAllTools env = inr tools ->
            generationFails env maxIterations tools history error ->
            exists evs s',
              completeTask env maxIterations userInput imageData s
              = (Normal (errorPrefix ++ errorMessage error), s')
              /\ eventEmitter s'
                 = eventEmitter s ++ evs ++ [EvError (errorMessage error)])
      /\ (forall tools error,
            getAllTools env = inr tools ->
            streamingFails env maxIterations tools history error ->
            exists evs,
              eventEmitter
                (execState (completeTaskStreaming env maxIterations userInput imageData) s)
              = eventEmitter s ++ evs ++ [EvError (errorMessage error)])
      /\ (forall tools formatted,
            getAllTools env = inr tools ->
            getFormattedMessages env history = inr formatted ->
            sdkStreamText env formatted (formatTools tools) maxIterations
            = NotIterable ->
            eventEmitter
              (execState (completeTaskStreaming env maxIterations userInput imageData) s)
            = eventEmitter s ++ [EvThinking; EvError notIterableMessage])
      /\ (forall tools formatted before error after ending,
            getAllTools env = inr tools ->
            getFormattedMessages env history = inr formatted ->
            sdkStreamText env formatted (formatTools tools) maxIterations
            = Stream (before ++ SError error :: after) ending ->
            eventEmitter
              (execState (completeTaskStreaming env maxIterations userInput imageData) s)
            = eventEmitter s
              ++ EvThinking :: eventsOver before []
              ++ EvError (errorMessage error)
                 :: eventsOver after (bufferOver before [])
              ++ map (fun thrown => EvError (errorMessage thrown)) (thrownBy ending))
      /\ (forall tools,
            getAllTools env = inr tools ->
            exists evs,
              eventEmitter
                (execState (completeTaskStreaming env maxIterations userInput imageData) s)
              = eventEmitter s ++ evs
              /\ filter isError evs
                 = map EvError (streamingFailures env maxIterations tools history))
  end.
Proof.
  intros history. unfold preludeFailure.
  destruct (rejectsUserMessage env userInput imageData) as [rejected|] eqn:Hok.
  - unfold completion, execState, completeTask, completeTaskStreaming, addUserMessage.
    rewrite Hok. repeat split.
  - destruct (getAllTools env) as [error|tools] eqn:Htools.
    + unfold completion, execState, completeTask, completeTaskStreaming,
        addUserMessage.
      rewrite Hok, Htools. destruct s; repeat split.
    + pose proof (completeTask_run env maxIterations userInput imageData tools s
                                   Hok Htools) as Hrun.
      pose proof (completeTaskStreaming_run env maxIterations userInput imageData
                                            tools s Hok Htools) as Hstream.
      cbn zeta in Hrun, Hstream. fold history in Hrun, Hstream.
      split; [|split; [|split; [|split; [|split; [|split]]]]].
      * unfold completion. rewrite Hrun.
        destruct (getFormattedMessages env history) as [error|formatted];
          [eexists; reflexivity|].
        destruct (settled _); eexists; reflexivity.
      * unfold completion. rewrite Hstream.
        destruct (getFormattedMessages env history) as [error|formatted];
          [reflexivity|].
        destruct (sdkStreamText _ _ _ _); reflexivity.
      * intros tools' error Ht' Hfail.
        assert (tools' = tools) by congruence. subst tools'.
        rewrite Hrun.
        destruct Hfail as [Hfmt | (formatted & Hfmt & Hsettled)]; rewrite Hfmt.
        -- exists [EvThinking]. eexists. split; reflexivity.
        -- rewrite Hsettled.
           eexists (EvThinking :: _). eexists. split; reflexivity.
      * intros tools' error Ht' Hfail.
        assert (tools' = tools) by congruence. subst tools'.
        unfold execState. rewrite Hstream.
        destruct Hfail as [Hfmt | (formatted & Hfmt & [Hthrows | (signals & Hiter)])];
          rewrite Hfmt.
        -- exists [EvThinking]. reflexivity.
        -- rewrite Hthrows. exists [EvThinking]. reflexivity.
        -- rewrite Hiter. exists (EvThinking :: eventsOver signals []). reflexivity.
      * intros tools' formatted Ht' Hfmt Hnot.
        assert (tools' = tools) by congruence. subst tools'.
        unfold execState. now rewrite Hstream, Hfmt, Hnot.
      * intros tools' formatted before error after ending Ht' Hfmt Hsignals.
        assert (tools' = tools) by congruence. subst tools'.
        unfold execState. rewrite Hstream, Hfmt, Hsignals.
        cbn [snd eventEmitter]. rewrite eventsOver_app.
        cbn [eventsOver eventsAt bufferAfter app]. rewrite <- !app_assoc.
        cbn [app]. now destruct ending.
      * intros tools' Ht'.
        assert (tools' = tools) by congruence. subst tools'.
        unfold execState, streamingFailures. rewrite Hstream.
        destruct (getFormattedMessages env history) as [error|formatted].
        -- eexists. split; reflexivity.
        -- destruct (sdkStreamText env formatted (formatTools tools) maxIterations)
             as [error| |signals ending].
           ++ eexists. split; reflexivity.
           ++ eexists. split; reflexivity.
           ++ eexists. split; [reflexivity|].
              cbn [filter isError]. rewrite filter_app, errorEvents_eventsOver.
              rewrite !map_app, !map_map. f_equal. now destruct ending.
Qed.

(** C5, witness: the provider rejects in non-streaming mode; the answer
    is the error string and the log ends with the error event.  In
    streaming mode the SDK reports a failure through [onError] and goes
    on to finish the stream; the error event stands where the failure
    was reported and the flush of the buffer follows it. *)
Lemma entry_points_guarded_region_witness :
  (exists evs s',
      completeTask (settledEnv generateRejects NotIterable) 10
                   (lit "list files") None initialState
      = (Normal (errorPrefix ++ lit "Overloaded"), s')
      /\ eventEmitter s' = evs ++ [EvError (lit "Overloaded")])
  /\ eventEmitter
       (execState (completeTaskStreaming (settledEnv generateNothing failsThenFinishes)
                                         10 (lit "list files") None) initialState)
     = [EvThinking; toolCallEvent fsList; EvResetAccumulation;
        toolResultEvent fsListResult; EvChunk (lit "Par");
        EvError (lit "Overloaded"); EvResponse (lit "Par")].
Proof.
  split.
  - refine (proj1 (proj2 (proj2
              (entry_points_guarded_region
                 (settledEnv generateRejects NotIterable) 10
                 (lit "list files") None initialState)))
              [] overloaded eq_refl _).
    right. exists [userMessage (lit "list files") None]. split; reflexivity.
  - exact (proj1 (proj2 (proj2 (proj2 (proj2 (proj2
             (entry_points_guarded_region
                (settledEnv generateNothing failsThenFinishes) 10
                (lit "list files") None initialState))))))
             [] [userMessage (lit "list files") None]
             [SStepFinish silentToolStep; textDelta "Par"] overloaded [SFinish]
             Consumed eq_refl eq_refl eq_refl).
Defined.

(** C5 as stated fails: the user message is appended and the tool
    listing is awaited before the [try] block, so when the listing
    rejects, or the store rejects the input, both entry points raise and
    no error event is emitted. *)
Lemma entry_points_raise_before_guarded_region :
  completeTask registryDown 10 (lit "list files") None initialState
  = (Abrupt notConnected,
     mkState 0 [] [userMessage (lit "list files") None] [])
  /\ completeTaskStreaming registryDown 10 (lit "list files") None initialState
     = (Abrupt notConnected,
        mkState 0 [] [userMessage (lit "list files") None] [])
  /\ completeTask strictStore 10 [] None initialState
     = (Abrupt emptyContent, initialState)
  /\ completeTaskStreaming strictStore 10 [] None initialState
     = (Abrupt emptyContent, initialState).
Proof. repeat split. Qed.

(* ================================================================= *)
(** ** More about the streaming callbacks *)

Lemma filter_eventsAtStep (p : Event -> bool) (step : StepResult) (buf : jsstring) :
  filter p (eventsAtStep step buf)
  = filter p (map EvResponse (flushedAtStep step buf))
      ++ filter p (map toolCallEvent (toolCalls step))
      ++ filter p (if hasItems (toolCalls step) then [EvResetAccumulation] else [])
      ++ filter p (map toolResultEvent (toolResults step)).
Proof. unfold eventsAtStep. now rewrite !filter_app. Qed.

Lemma filter_map_none {A} (p : Event -> bool) (f : A -> Event) (xs : list A) :
  (forall x, p (f x) = false) -> filter p (map f xs) = [].
Proof.
  intros H. induction xs as [|x xs IH]; cbn; [reflexivity|]. now rewrite H.
Qed.

Lemma filter_map_all {A} (p : Event -> bool) (f : A -> Event) (xs : list A) :
  (forall x, p (f x) = true) -> filter p (map f xs) = map f xs.
Proof.
  intros H. induction xs as [|x xs IH]; cbn; [reflexivity|]. now rewrite H, IH.
Qed.

Lemma chunksOf_app (xs ys : list Event) :
  chunksOf (xs ++ ys) = chunksOf xs ++ chunksOf ys.
Proof. apply flat_map_app. Qed.

Lemma chunksOf_none {A} (f : A -> Event) (xs : list A) :
  (forall x, isChunk (f x) = false) -> chunksOf (map f xs) = [].
Proof.
  intros H. induction xs as [|x xs IH]; cbn; [reflexivity|].
  specialize (H x). destruct (f x); try discriminate H; exact IH.
Qed.

Lemma chunksOf_eventsAt (sig : Signal) (buf : jsstring) :
  chunksOf (eventsAt sig buf)
  = match sig with
    | SChunk (TextDelta delta) => if truthy delta then [delta] else []
    | _ => []
    end.
Proof.
  destruct sig as [[delta|ty]|step| |error]; cbn; try reflexivity.
  - now destruct (truthy delta).
  - unfold eventsAtStep. rewrite !chunksOf_app.
    rewrite !chunksOf_none by reflexivity.
    now destruct (hasItems (toolCalls step)).
  - now destruct (nonBlank buf).
Qed.

(** X1.  The chunk events of a stream are exactly its non-empty text
    deltas, in order: no delta is published twice, reordered or merged,
    and empty deltas and chunks of other types publish nothing. *)
Theorem chunk_events_are_nonempty_deltas (signals : list Signal) (s : State) :
  exists evs,
    eventEmitter (execState (processSignals signals) s) = eventEmitter s ++ evs
    /\ chunksOf evs = filter truthy (deltasOf signals).
Proof.
  exists (eventsOver signals (currentSegmentText s)).
  unfold execState. rewrite processSignals_run. split; [reflexivity|].
  generalize (currentSegmentText s).
  induction signals as [|sig rest IH]; intros buf; [reflexivity|].
  cbn [eventsOver]. rewrite chunksOf_app, chunksOf_eventsAt, IH.
  unfold deltasOf. cbn [flat_map]. rewrite filter_app.
  destruct sig as [[delta|ty]|step| |error]; reflexivity.
Qed.

(** X2.  The toolCall events of a stream are the tool calls of its
    step-finish notices, one event per call, in the order the provider
    reported them, and likewise the toolResult events. *)
Theorem tool_events_follow_steps (signals : list Signal) (s : State) :
  exists evs,
    eventEmitter (execState (processSignals signals) s) = eventEmitter s ++ evs
    /\ filter isToolCall evs
       = map toolCallEvent (flat_map toolCalls (stepsOf signals))
    /\ filter isToolResult evs
       = map toolResultEvent (flat_map toolResults (stepsOf signals)).
Proof.
  exists (eventsOver signals (currentSegmentText s)).
  unfold execState. rewrite processSignals_run. split; [reflexivity|].
  generalize (currentSegmentText s).
  induction signals as [|sig rest IH]; intros buf; [split; reflexivity|].
  destruct (IH (bufferAfter sig buf)) as [IHc IHr].
  cbn [eventsOver]. rewrite !filter_app, IHc, IHr.
  unfold stepsOf. cbn [flat_map]. rewrite !flat_map_app, !map_app.
  destruct sig as [[delta|ty]|step| |error]; cbn [eventsAt flat_map app].
  - destruct (truthy delta); split; reflexivity.
  - split; reflexivity.
  - rewrite !filter_eventsAtStep.
    rewrite (filter_map_none isToolCall EvResponse) by reflexivity.
    rewrite (filter_map_none isToolResult EvResponse) by reflexivity.
    rewrite (filter_map_all isToolCall toolCallEvent) by reflexivity.
    rewrite (filter_map_none isToolResult toolCallEvent) by reflexivity.
    rewrite (filter_map_none isToolCall toolResultEvent) by reflexivity.
    rewrite (filter_map_all isToolResult toolResultEvent) by reflexivity.
    destruct (hasItems (toolCalls step)); cbn; rewrite ?app_nil_r; split; reflexivity.
  - cbn. destruct (nonBlank buf); split; reflexivity.
  - split; reflexivity.
Qed.

Lemma flushedAt_nonBlank (sig : Signal) (buf : jsstring) :
  Forall (fun segment => nonBlank segment = true) (flushedAt sig buf).
Proof.
  destruct sig as [chunk|step| |error]; cbn; try constructor.
  - unfold flushedAtStep.
    destruct (nonBlank (text step)) eqn:Ht; [repeat constructor; exact Ht|].
    destruct (nonBlank buf) eqn:Hb; cbn; [|constructor].
    destruct (_ || _); repeat constructor. exact Hb.
  - destruct (nonBlank buf) eqn:Hb; repeat constructor. exact Hb.
Qed.

(** X3.  Whatever the provider signals, no response event of a stream
    carries an empty or whitespace-only text: every payload holds a
    character that [trim] keeps. *)
Theorem stream_responses_are_non_blank (signals : list Signal) (s : State) :
  exists evs,
    eventEmitter (execState (processSignals signals) s) = eventEmitter s ++ evs
    /\ Forall (fun segment => nonBlank segment = true) (responsesOf evs).
Proof.
  exists (eventsOver signals (currentSegmentText s)).
  unfold execState. rewrite processSignals_run. split; [reflexivity|].
  rewrite responsesOf_eventsOver. generalize (currentSegmentText s).
  induction signals as [|sig rest IH]; intros buf; [constructor|].
  cbn [flushedOver]. apply Forall_app. split; [apply flushedAt_nonBlank | apply IH].
Qed.

(** X4.  Started on an empty buffer, the segment buffer only ever holds
    the most recent text deltas: after any signal sequence it is the
    concatenation of a trailing part of the deltas received. *)
Theorem buffer_holds_latest_deltas (signals : list Signal) (s : State) :
  currentSegmentText s = [] ->
  exists latest,
    Suffix latest (deltasOf signals)
    /\ currentSegmentText (execState (processSignals signals) s)
       = List.concat latest.
Proof.
  intros Hempty. unfold execState. rewrite processSignals_run, Hempty. cbn.
  assert (Hgen : forall sigs buf,
             bufferOver sigs buf = buf ++ List.concat (deltasOf sigs)
             \/ exists latest,
                 Suffix latest (deltasOf sigs)
                 /\ bufferOver sigs buf = List.concat latest).
  { clear. induction sigs as [|sig rest IH]; intros buf.
    - left. cbn. now rewrite app_nil_r.
    - assert (Hkeep :
                forall b ds,
                  deltasOf (sig :: rest) = ds ++ deltasOf rest ->
                  (b = [] \/ b ++ List.concat (deltasOf rest)
                             = buf ++ List.concat (deltasOf (sig :: rest))) ->
                  bufferOver rest b = buf ++ List.concat (deltasOf (sig :: rest))
                  \/ exists latest,
                      Suffix latest (deltasOf (sig :: rest))
                      /\ bufferOver rest b = List.concat latest).
      { intros b ds Hds Hb. destruct (IH b) as [Hall | (latest & [front Hf] & Hl)].
        - destruct Hb as [-> | Hb].
          + right. exists (deltasOf rest). split; [now exists ds|]. exact Hall.
          + left. now rewrite Hall.
        - right. exists latest. split; [|exact Hl].
          exists (ds ++ front). now rewrite Hds, Hf, app_assoc. }
      cbn [bufferOver].
      destruct sig as [[delta|ty]|step| |error]; cbn [bufferAfter].
      + apply (Hkeep _ [delta]); [reflexivity|]. right.
        unfold deltasOf; cbn. now rewrite app_assoc.
      + apply (Hkeep _ []); [reflexivity|]. now right.
      + apply (Hkeep _ []); [reflexivity|]. unfold bufferAfterStep.
        destruct (_ || _); [now left | now right].
      + apply (Hkeep _ []); [reflexivity|]. now left.
      + apply (Hkeep _ []); [reflexivity|]. now right. }
  destruct (Hgen signals []) as [Hall | Hsome].
  - exists (deltasOf signals). split; [now exists []|]. exact Hall.
  - exact Hsome.
Qed.

Lemma buffer_holds_latest_deltas_witness :
  exists latest,
    Suffix latest (deltasOf [textDelta "Hel"; textDelta "lo"])
    /\ currentSegmentText
         (execState (processSignals [textDelta "Hel"; textDelta "lo"]) initialState)
       = List.concat latest.
Proof.
  exact (buffer_holds_latest_deltas [textDelta "Hel"; textDelta "lo"]
                                    initialState eq_refl).
Defined.

(* ================================================================= *)
(** ** More about the entry points *)

Lemma countEvents_thinking_signals (signals : list Signal) (buf : jsstring) :
  countEvents isThinking (eventsOver signals buf) = 0.
Proof.
  unfold countEvents. revert buf.
  induction signals as [|sig rest IH]; intros buf; [reflexivity|].
  cbn [eventsOver]. rewrite filter_app, length_app, IH, Nat.add_0_r.
  destruct sig as [[delta|ty]|step| |error]; cbn [eventsAt].
  - now destruct (truthy delta).
  - reflexivity.
  - rewrite filter_eventsAtStep, !filter_map_none by reflexivity.
    now destruct (hasItems (toolCalls step)).
  - cbn. now destruct (nonBlank buf).
  - reflexivity.
Qed.

(** X5.  Whatever the history formatter and the provider do, a streaming
    task whose user message was accepted and whose tools were listed
    leaves the store as the history it started from, the user message,
    and then exactly one assistant message per response event it
    emitted, in emission order; it records nothing else, in particular
    no tool turn. *)
Theorem streaming_store_mirrors_responses
        (env : Env) (maxIterations : Z) (userInput : jsstring)
        (imageData : option ImageData) (tools : ToolSet) (s : State) :
  rejectsUserMessage env userInput imageData = None ->
  getAllTools env = inr tools ->
  exists evs,
    eventEmitter
      (execState (completeTaskStreaming env maxIterations userInput imageData) s)
    = eventEmitter s ++ evs
    /\ messageManager
         (execState (completeTaskStreaming env maxIterations userInput imageData) s)
       = messageManager s
           ++ userMessage userInput imageData
           :: map assistantMessage (responsesOf evs).
Proof.
  intros Hok Htools. unfold execState.
  rewrite (completeTaskStreaming_run env maxIterations userInput imageData tools s
                                     Hok Htools).
  destruct (getFormattedMessages env _) as [error|formatted].
  - eexists. split; [reflexivity|]. cbn. now rewrite <- ?app_assoc.
  - destruct (sdkStreamText env formatted (formatTools tools) maxIterations)
      as [error| |signals ending].
    + eexists. split; [reflexivity|]. cbn. now rewrite <- ?app_assoc.
    + eexists. split; [reflexivity|]. cbn. now rewrite <- ?app_assoc.
    + eexists. split; [reflexivity|]. cbn [snd messageManager].
      change (responsesOf (EvThinking :: ?l)) with (responsesOf l).
      rewrite responsesOf_app, responsesOf_eventsOver.
      destruct ending; cbn; now rewrite app_nil_r, <- ?app_assoc.
Qed.

Lemma streaming_store_mirrors_responses_witness :
  let env := settledEnv generateNothing
                        (Stream [textDelta "Hi"; SFinish] Consumed) in
  exists evs,
    eventEmitter
      (execState (completeTaskStreaming env 10 (lit "hello") None) initialState)
    = eventEmitter initialState ++ evs
    /\ messageManager
         (execState (completeTaskStreaming env 10 (lit "hello") None) initialState)
       = messageManager initialState
         ++ userMessage (lit "hello") None :: map assistantMessage (responsesOf evs).
Proof.
  exact (streaming_store_mirrors_responses
           (settledEnv generateNothing (Stream [textDelta "Hi"; SFinish] Consumed))
           10 (lit "hello") None [] initialState eq_refl eq_refl).
Defined.

(** X6.  Every task whose user message was accepted and whose tools were
    listed announces itself exactly once: in both modes and for every
    outcome the first event it emits is the thinking event, and no other
    thinking event follows. *)
Theorem task_thinks_once_and_first
        (env : Env) (maxIterations : Z) (userInput : jsstring)
        (imageData : option ImageData) (tools : ToolSet) (s : State) :
  rejectsUserMessage env userInput imageData = None ->
  getAllTools env = inr tools ->
  (exists evs,
      eventEmitter (execState (completeTask env maxIterations userInput imageData) s)
      = eventEmitter s ++ EvThinking :: evs
      /\ countEvents isThinking evs = 0)
  /\ (exists evs,
        eventEmitter
          (execState (completeTaskStreaming env maxIterations userInput imageData) s)
        = eventEmitter s ++ EvThinking :: evs
        /\ countEvents isThinking evs = 0).
Proof.
  intros Hok Htools. unfold execState. split.
  - rewrite (completeTask_run env maxIterations userInput imageData tools s Hok Htools).
    destruct (getFormattedMessages env _) as [error|formatted].
    + eexists. split; reflexivity.
    + cbn zeta. destruct (settled _) as [error|response].
      * eexists. split; [reflexivity|].
        now rewrite countEvents_app, countEvents_thinking_steps.
      * eexists. split; [reflexivity|]. apply countEvents_thinking_steps.
  - rewrite (completeTaskStreaming_run env maxIterations userInput imageData tools s
                                       Hok Htools).
    destruct (getFormattedMessages env _) as [error|formatted].
    + eexists. split; reflexivity.
    + destruct (sdkStreamText env formatted (formatTools tools) maxIterations)
        as [error| |signals ending].
      * eexists. split; reflexivity.
      * eexists. split; reflexivity.
      * eexists. split; [reflexivity|].
        rewrite countEvents_app, countEvents_thinking_signals.
        now destruct ending.
Qed.

Lemma task_thinks_once_and_first_witness :
  let env := settledEnv alwaysSilentToolCalls failsViaCallback in
  (exists evs,
      eventEmitter
        (execState (completeTask env 3 (lit "list files") None) initialState)
      = eventEmitter initialState ++ EvThinking :: evs
      /\ countEvents isThinking evs = 0)
  /\ (exists evs,
         eventEmitter
           (execState (completeTaskStreaming env 3 (lit "list files") None)
                      initialState)
         = eventEmitter initialState ++ EvThinking :: evs
         /\ countEvents isThinking evs = 0).
Proof.
  exact (task_thinks_once_and_first
           (settledEnv alwaysSilentToolCalls failsViaCallback) 3
           (lit "list files") None [] initialState eq_refl eq_refl).
Defined.

(** X7.  When the provider's [generateText] rejects, the non-streaming
    task leaves the history with the user message as its only addition,
    although the events of the steps that finished before the failure
    have been published; the failure is the last event and is returned
    in the answer. *)
Theorem failed_generation_adds_only_user_message
        (env : Env) (maxIterations : Z) (userInput : jsstring)
        (imageData : option ImageData) (tools : ToolSet)
        (formatted : list Message) (error : Thrown) (s : State) :
  rejectsUserMessage env userInput imageData = None ->
  getAllTools env = inr tools ->
  getFormattedMessages env (messageManager s ++ [userMessage userInput imageData])
  = inr formatted ->
  settled (sdkGenerateText env formatted (formatTools tools) maxIterations)
  = inl error ->
  let steps :=
      stepsFinished (sdkGenerateText env formatted (formatTools tools) maxIterations) in
  let s' := execState (completeTask env maxIterations userInput imageData) s in
  completion (completeTask env maxIterations userInput imageData) s
  = Normal (errorPrefix ++ errorMessage error)
  /\ messageManager s' = messageManager s ++ [userMessage userInput imageData]
  /\ eventEmitter s'
     = eventEmitter s
         ++ EvThinking :: flat_map eventsAtGenerateStep steps
         ++ [EvError (errorMessage error)].
Proof.
  intros Hok Htools Hfmt Hres steps s'. subst s' steps.
  unfold completion, execState.
  rewrite (completeTask_run env maxIterations userInput imageData tools s Hok Htools),
    Hfmt.
  cbn zeta. rewrite Hres. repeat split.
Qed.

Lemma failed_generation_adds_only_user_message_witness :
  let env := settledEnv generateRejects NotIterable in
  completion (completeTask env 10 (lit "list files") None) initialState
  = Normal (errorPrefix ++ lit "Overloaded")
  /\ messageManager
       (execState (completeTask env 10 (lit "list files") None) initialState)
     = [userMessage (lit "list files") None]
  /\ eventEmitter
       (execState (completeTask env 10 (lit "list files") None) initialState)
     = [EvThinking; EvError (lit "Overloaded")].
Proof.
  exact (failed_generation_adds_only_user_message
           (settledEnv generateRejects NotIterable) 10 (lit "list files") None []
           [userMessage (lit "list files") None] overloaded initialState
           eq_refl eq_refl eq_refl eq_refl).
Defined.

(** X8.  Whenever [completeTask] returns, the string it returns is not
    empty: an empty provider text is replaced by the exhaustion message
    and a failure by the prefixed error message. *)
Theorem completeTask_answer_is_never_empty
        (env : Env) (maxIterations : Z) (userInput : jsstring)
        (imageData : option ImageData) (s : State) (answer : jsstring) :
  completion (completeTask env maxIterations userInput imageData) s = Normal answer ->
  truthy answer = true.
Proof.
  unfold completion. intros Hret.
  destruct (rejectsUserMessage env userInput imageData) as [rejected|] eqn:Hok.
  { unfold completeTask, addUserMessage in Hret. rewrite Hok in Hret.
    discriminate Hret. }
  destruct (getAllTools env) as [error|tools] eqn:Htools.
  { unfold completeTask, addUserMessage in Hret. rewrite Hok, Htools in Hret.
    discriminate Hret. }
  rewrite (completeTask_run env maxIterations userInput imageData tools s Hok Htools)
    in Hret.
  destruct (getFormattedMessages env _) as [error|formatted].
  - cbn in Hret. injection Hret as <-. reflexivity.
  - cbn zeta in Hret. destruct (settled _) as [error|response].
    + cbn in Hret. injection Hret as <-. reflexivity.
    + cbn in Hret. injection Hret as <-. unfold orElse.
      destruct (truthy (responseText response)) eqn:Ht; [exact Ht | reflexivity].
Qed.

Lemma completeTask_answer_is_never_empty_witness :
  completion (completeTask (settledEnv generateNothing NotIterable) 10
                           (lit "list files") None) initialState
  = Normal exhaustionMessage
  /\ truthy exhaustionMessage = true.
Proof.
  split; [reflexivity|].
  exact (completeTask_answer_is_never_empty
           (settledEnv generateNothing NotIterable) 10 (lit "list files") None
           initialState exhaustionMessage eq_refl).
Defined.



(** X10.  A task sees nothing of the state it starts in but the history:
    two runs of the same task from states with the same history complete
    alike, emit the same events and leave the same history, in both
    modes.  In particular a segment buffer left over by an earlier stream
    never leaks into the next one. *)
Theorem task_depends_on_history_only
        (env : Env) (maxIterations : Z) (userInput : jsstring)
        (imageData : option ImageData) (s1 s2 : State) :
  messageManager s1 = messageManager s2 ->
  (completion (completeTask env maxIterations userInput imageData) s1
   = completion (completeTask env maxIterations userInput imageData) s2
   /\ messageManager (execState (completeTask env maxIterations userInput imageData) s1)
      = messageManager (execState (completeTask env maxIterations userInput imageData) s2)
   /\ exists evs,
       eventEmitter (execState (completeTask env maxIterations userInput imageData) s1)
       = eventEmitter s1 ++ evs
       /\ eventEmitter (execState (completeTask env maxIterations userInput imageData) s2)
          = eventEmitter s2 ++ evs)
  /\ (completion (completeTaskStreaming env maxIterations userInput imageData) s1
      = completion (completeTaskStreaming env maxIterations userInput imageData) s2
      /\ messageManager
           (execState (completeTaskStreaming env maxIterations userInput imageData) s1)
         = messageManager
             (execState (completeTaskStreaming env maxIterations userInput imageData) s2)
      /\ exists evs,
          eventEmitter
            (execState (completeTaskStreaming env maxIterations userInput imageData) s1)
          = eventEmitter s1 ++ evs
          /\ eventEmitter
               (execState (completeTaskStreaming env maxIterations userInput imageData) s2)
             = eventEmitter s2 ++ evs).
Proof.
  intros Hmm. unfold completion, execState.
  destruct (rejectsUserMessage env userInput imageData) as [rejected|] eqn:Hok.
  { unfold completeTask, completeTaskStreaming, addUserMessage. rewrite Hok. cbn.
    repeat split; auto; exists []; now rewrite !app_nil_r. }
  destruct (getAllTools env) as [error|tools] eqn:Htools.
  { unfold completeTask, completeTaskStreaming, addUserMessage.
    rewrite Hok, Htools. cbn. rewrite Hmm.
    repeat split; auto; exists []; now rewrite !app_nil_r. }
  rewrite !(completeTask_run env maxIterations userInput imageData tools _ Hok Htools).
  rewrite !(completeTaskStreaming_run env maxIterations userInput imageData tools _
                                      Hok Htools).
  rewrite Hmm. split.
  - destruct (getFormattedMessages env _) as [error|formatted].
    + cbn. repeat split. eexists. split; reflexivity.
    + cbn zeta. destruct (settled _) as [error|response]; cbn;
        repeat split; eexists; split; reflexivity.
  - destruct (getFormattedMessages env _) as [error|formatted].
    + cbn. repeat split. eexists. split; reflexivity.
    + destruct (sdkStreamText env formatted (formatTools tools) maxIterations)
        as [error| |signals ending]; cbn;
        repeat split; eexists; split; reflexivity.
Qed.

Lemma task_depends_on_history_only_witness :
  let env := settledEnv alwaysToolCalls failsViaCallback in
  completion (completeTask env 2 (lit "list files") None) initialState
  = completion (completeTask env 2 (lit "list files") None)
               (mkState 7 (lit "left over") [] [EvConversationReset])
  /\ completion (completeTaskStreaming env 2 (lit "list files") None) initialState
     = completion (completeTaskStreaming env 2 (lit "list files") None)
                  (mkState 7 (lit "left over") [] [EvConversationReset]).
Proof.
  pose proof (task_depends_on_history_only
                (settledEnv alwaysToolCalls failsViaCallback) 2
                (lit "list files") None initialState
                (mkState 7 (lit "left over") [] [EvConversationReset]) eq_refl) as H.
  exact (conj (proj1 (proj1 H)) (proj1 (proj2 H))).
Defined.

(* ================================================================= *)
(** ** Strings: [trim], [indexOf], [slice] *)

Lemma trimStart_cases (s : jsstring) :
  trimStart s = []
  \/ exists c t, trimStart s = c :: t /\ isWhiteSpace c = false.
Proof.
  induction s as [|c s IH]; cbn; [now left|].
  destruct (isWhiteSpace c) eqn:Hc; [exact IH|]. right. now exists c, s.
Qed.

Lemma trimStart_keeps (c : code_unit) (t : jsstring) :
  isWhiteSpace c = false -> trimStart (c :: t) = c :: t.
Proof. intros Hc. cbn. now rewrite Hc. Qed.

Lemma trimStart_idempotent (s : jsstring) : trimStart (trimStart s) = trimStart s.
Proof.
  destruct (trimStart_cases s) as [-> | (c & t & -> & Hc)]; [reflexivity|].
  now apply trimStart_keeps.
Qed.

Lemma trimStart_snoc (l : jsstring) (c : code_unit) :
  isWhiteSpace c = false -> trimStart (l ++ [c]) = trimStart l ++ [c].
Proof.
  intros Hc. induction l as [|d l IH]; cbn; [now rewrite Hc|].
  now destruct (isWhiteSpace d).
Qed.

Lemma trimEnd_cons (c : code_unit) (t : jsstring) :
  isWhiteSpace c = false -> trimEnd (c :: t) = c :: trimEnd t.
Proof.
  intros Hc. unfold trimEnd. cbn [rev].
  now rewrite trimStart_snoc, rev_app_distr.
Qed.

Lemma trimEnd_idempotent (s : jsstring) : trimEnd (trimEnd s) = trimEnd s.
Proof. unfold trimEnd. now rewrite rev_involutive, trimStart_idempotent. Qed.

(** What [trim] returns has no white space left to strip. *)
Lemma trim_idempotent (s : jsstring) : trim (trim s) = trim s.
Proof.
  unfold trim.
  destruct (trimStart_cases s) as [-> | (c & t & -> & Hc)]; [reflexivity|].
  rewrite (trimEnd_cons c t Hc), (trimStart_keeps c _ Hc), <- (trimEnd_cons c t Hc).
  apply trimEnd_idempotent.
Qed.

Lemma startsWith_spec (s prefix : jsstring) :
  startsWith s prefix = true <-> exists rest, s = prefix ++ rest.
Proof.
  revert s. induction prefix as [|p prefix IH]; intros s.
  - split; [intros _; now exists s | intros _; now destruct s].
  - destruct s as [|c s]; cbn.
    + split; [discriminate | intros (rest & H); discriminate H].
    + rewrite andb_true_iff, N.eqb_eq, IH. split.
      * intros (-> & rest & ->). now exists rest.
      * intros (rest & H). injection H as -> ->. split; [reflexivity | now exists rest].
Qed.

(** [indexOf] returns [-1] when there is no occurrence, and otherwise
    the position of the first one. *)
Lemma indexOfFrom_spec (s search : jsstring) (from : nat) :
  (indexOfFrom s search from = (-1)%Z
   /\ forall k, startsWith (skipn k s) search = false)
  \/ exists k,
      indexOfFrom s search from = Z.of_nat (from + k)
      /\ startsWith (skipn k s) search = true
      /\ forall j, j < k -> startsWith (skipn j s) search = false.
Proof.
  revert from. induction s as [|c s IH]; intros from.
  - cbn [indexOfFrom]. destruct (startsWith [] search) eqn:Hs.
    + right. exists 0. rewrite Nat.add_0_r. repeat split; auto. intros j Hj; lia.
    + left. split; [reflexivity|]. intros k. now rewrite skipn_nil.
  - cbn [indexOfFrom]. destruct (startsWith (c :: s) search) eqn:Hs.
    + right. exists 0. rewrite Nat.add_0_r. repeat split; auto. intros j Hj; lia.
    + destruct (IH (S from)) as [[Hnone Hall] | (k & Hk & Hat & Hbefore)].
      * left. split; [exact Hnone|]. intros [|k]; [exact Hs | apply Hall].
      * right. exists (S k). split; [rewrite Hk; f_equal; lia|].
        split; [exact Hat|]. intros [|j] Hj; [exact Hs | apply Hbefore; lia].
Qed.

Lemma slice_from (s : jsstring) (k : nat) :
  slice s (Z.of_nat k) None = skipn k s.
Proof.
  unfold slice.
  assert (Hneg : (Z.of_nat k <? 0)%Z = false) by (apply Z.ltb_ge; lia).
  rewrite Hneg.
  destruct (Nat.le_gt_cases k (List.length s)) as [Hle | Hgt].
  - rewrite Z.min_l by lia. rewrite Nat2Z.id.
    apply firstn_all2. rewrite length_skipn. lia.
  - rewrite Z.min_r by lia. rewrite Nat2Z.id.
    rewrite skipn_all, (skipn_all2 s) by lia. now rewrite firstn_nil.
Qed.

Lemma slice_upto (s : jsstring) (k : nat) :
  slice s 0 (Some (Z.of_nat k)) = firstn k s.
Proof.
  unfold slice.
  assert (Hneg : (Z.of_nat k <? 0)%Z = false) by (apply Z.ltb_ge; lia).
  rewrite Hneg. change (0 <? 0)%Z with false. cbv iota.
  rewrite (Z.min_l 0) by lia. cbn [Z.to_nat skipn]. rewrite Z.sub_0_r.
  destruct (Nat.le_gt_cases k (List.length s)) as [Hle | Hgt].
  - rewrite Z.min_l, Z.max_l by lia. now rewrite Nat2Z.id.
  - rewrite Z.min_r, Z.max_l by lia. rewrite Nat2Z.id.
    now rewrite !firstn_all2 by lia.
Qed.

(* ================================================================= *)
(** ** The Discord front end *)

(** X11.  In a guild channel a message is answered exactly when it holds
    ["!ask "] and blank text does not follow its first occurrence; the
    prompt is then what follows that first occurrence, trimmed. *)
Theorem guild_prompt_follows_first_ask (content prompt : jsstring) :
  extractPrompt false content = Some prompt
  <-> exists before after,
      content = before ++ askCommand ++ after
      /\ (forall j, j < List.length before ->
                    startsWith (skipn j content) askCommand = false)
      /\ nonBlank after = true
      /\ prompt = trim after.
Proof.
  unfold extractPrompt.
  assert (Hcontent : orElse content [] = content) by now destruct content.
  rewrite Hcontent. unfold indexOf. cbn [negb andb].
  destruct (indexOfFrom_spec content askCommand 0)
    as [[Hnone Hall] | (k & Hk & Hat & Hbefore)].
  - rewrite Hnone, Z.eqb_refl. split; [discriminate|].
    intros (before & after & -> & _ & _).
    specialize (Hall (List.length before)).
    rewrite skipn_app, skipn_all, Nat.sub_diag in Hall. cbn [app skipn] in Hall.
    assert (startsWith (askCommand ++ after) askCommand = true)
      by (apply startsWith_spec; now exists after).
    congruence.
  - rewrite Hk. cbn [Nat.add].
    assert (Hne : (Z.of_nat k =? -1)%Z = false) by (apply Z.eqb_neq; lia).
    rewrite Hne.
    replace (Z.of_nat k + 5)%Z with (Z.of_nat (k + 5)) by lia.
    rewrite slice_from.
    apply startsWith_spec in Hat. destruct Hat as (after & Hafter).
    assert (Hsplit : content = firstn k content ++ askCommand ++ after)
      by (now rewrite <- Hafter, firstn_skipn).
    assert (Hk_le : k <= List.length content).
    { destruct (Nat.le_gt_cases k (List.length content)) as [H|H]; [exact H|].
      rewrite skipn_all2 in Hafter by lia. discriminate Hafter. }
    assert (Hlen : List.length (firstn k content) = k)
      by (rewrite length_firstn; lia).
    assert (Hrest : skipn (k + 5) content = after).
    { rewrite Nat.add_comm, <- skipn_skipn, Hafter. reflexivity. }
    rewrite Hrest. fold (nonBlank after). split.
    + destruct (nonBlank after) eqn:Hb; [|discriminate].
      intros H. injection H as <-.
      exists (firstn k content), after. rewrite Hlen. repeat split; auto.
    + intros (before & after' & Hc & Hfirst & Hb & ->).
      assert (Hsame : List.length before = k).
      { destruct (Nat.lt_trichotomy (List.length before) k) as [Hlt | [Heq | Hgt]];
          [|exact Heq|].
        - specialize (Hbefore _ Hlt).
          rewrite Hc, skipn_app, skipn_all, Nat.sub_diag in Hbefore.
          cbn [app skipn] in Hbefore.
          assert (startsWith (askCommand ++ after') askCommand = true)
            by (apply startsWith_spec; now exists after').
          congruence.
        - specialize (Hfirst _ Hgt). rewrite Hafter in Hfirst.
          assert (startsWith (askCommand ++ after) askCommand = true)
            by (apply startsWith_spec; now exists after).
          congruence. }
      assert (after' = after).
      { rewrite Hc in Hrest. rewrite <- Hsame in Hrest.
        rewrite skipn_app, skipn_all2 in Hrest by lia.
        replace (List.length before + 5 - List.length before) with 5 in Hrest by lia.
        cbn [app] in Hrest. exact Hrest. }
      subst after'. now rewrite Hb.
Qed.

Lemma guild_prompt_follows_first_ask_witness :
  exists before after,
    lit "hey !ask  what is up " = before ++ askCommand ++ after
    /\ (forall j, j < List.length before ->
                  startsWith (skipn j (lit "hey !ask  what is up ")) askCommand = false)
    /\ nonBlank after = true
    /\ lit "what is up" = trim after.
Proof.
  apply (proj1 (guild_prompt_follows_first_ask (lit "hey !ask  what is up ")
                                               (lit "what is up"))).
  reflexivity.
Defined.

(** X12.  Whenever the handler goes on with a prompt, in a direct message
    or in a guild channel, the prompt is not empty and has no white space
    at either end. *)
Theorem extracted_prompt_is_trimmed (isDM : bool) (content prompt : jsstring) :
  extractPrompt isDM content = Some prompt ->
  truthy prompt = true /\ trim prompt = prompt.
Proof.
  unfold extractPrompt. destruct (_ && _); [discriminate|].
  destruct isDM.
  - destruct (truthy (trim _)) eqn:Ht; [|discriminate].
    intros H. injection H as <-. split; [exact Ht | apply trim_idempotent].
  - destruct (truthy (trim _)) eqn:Ht; [|discriminate].
    intros H. injection H as <-. split; [exact Ht | apply trim_idempotent].
Qed.

Lemma extracted_prompt_is_trimmed_witness :
  extractPrompt true (lit "  what is up ") = Some (lit "what is up")
  /\ truthy (lit "what is up") = true
  /\ trim (lit "what is up") = lit "what is up".
Proof.
  split; [reflexivity|].
  exact (extracted_prompt_is_trimmed true (lit "  what is up ") (lit "what is up")
                                     eq_refl).
Defined.

Lemma sendRest_step (fuel : nat) (rest : jsstring) (first : bool) :
  rest <> [] ->
  sendRest (S fuel) rest first
  = (if first then Reply (firstn 1900 rest) else ChannelSend (firstn 1900 rest))
      :: sendRest fuel (skipn 1900 rest) false.
Proof.
  intros Hne. cbn [sendRest].
  destruct rest as [|c rest]; [contradiction|]. cbn [List.length Nat.eqb negb].
  change MAX with (Z.of_nat 1900). now rewrite slice_upto, slice_from.
Qed.

Lemma sendRest_spec (fuel : nat) :
  forall (rest : jsstring) (first : bool),
    List.length rest <= fuel ->
    let out := sendRest fuel rest first in
    List.concat (map outgoingContent out) = rest
    /\ Forall (fun o => 1 <= List.length (outgoingContent o) <= 1900) out
    /\ List.length rest <= List.length out * 1900
    /\ List.length out * 1900 < List.length rest + 1900
    /\ match out with
       | [] => rest = []
       | o :: others =>
           o = (if first then Reply (firstn 1900 rest)
                else ChannelSend (firstn 1900 rest))
           /\ forallb isChannelSend others = true
       end.
Proof.
  induction fuel as [|fuel IH]; intros rest first Hfuel out; subst out.
  - destruct rest; [|cbn in Hfuel; lia]. cbn. repeat split; auto; lia.
  - destruct rest as [|c rest].
    + cbn. repeat split; auto; lia.
    + rewrite sendRest_step by discriminate.
      set (whole := c :: rest) in *.
      assert (Hlen : 1 <= List.length whole) by (cbn; lia).
      destruct (IH (skipn 1900 whole) false) as (Hcat & Hall & Hlow & Hhigh & Hshape).
      { rewrite length_skipn. lia. }
      rewrite length_skipn in Hlow, Hhigh.
      cbn [map List.concat List.length].
      split; [|split; [|split; [|split]]].
      * rewrite Hcat.
        assert (Hc : outgoingContent
                       (if first then Reply (firstn 1900 whole)
                        else ChannelSend (firstn 1900 whole))
                     = firstn 1900 whole) by now destruct first.
        rewrite Hc. apply firstn_skipn.
      * constructor; [|exact Hall].
        assert (Hc : outgoingContent
                       (if first then Reply (firstn 1900 whole)
                        else ChannelSend (firstn 1900 whole))
                     = firstn 1900 whole) by now destruct first.
        rewrite Hc, length_firstn. lia.
      * lia.
      * destruct (sendRest fuel (skipn 1900 whole) false) as [|o others] eqn:Hout.
        -- assert (Hnil : List.length (skipn 1900 whole) = 0) by now rewrite Hshape.
           rewrite length_skipn in Hnil. cbn [List.length]. lia.
        -- cbn [List.length] in *. lia.
      * split; [reflexivity|].
        destruct (sendRest fuel (skipn 1900 whole) false) as [|o others];
          [reflexivity|].
        destruct Hshape as [-> Hothers]. cbn. exact Hothers.
Qed.

(** X13.  The handler answers with messages that partition the response:
    their contents, concatenated in sending order, are the response text;
    none is longer than 1900 code units; the first is a reply and all
    others are plain channel messages.  It sends as few messages as the
    limit allows, and none of them is empty unless the response itself
    is, which is sent as a single empty reply. *)
Theorem sendResponse_partitions_response (responseText : jsstring) :
  let out := sendResponse responseText in
  List.concat (map outgoingContent out) = responseText
  /\ Forall (fun o => List.length (outgoingContent o) <= 1900) out
  /\ (exists first others,
        out = Reply first :: others /\ forallb isChannelSend others = true)
  /\ List.length responseText <= List.length out * 1900
  /\ (responseText <> [] ->
      List.length out * 1900 < List.length responseText + 1900
      /\ Forall (fun o => outgoingContent o <> []) out)
  /\ (responseText = [] -> out = [Reply []]).
Proof.
  intros out. subst out. unfold sendResponse.
  change MAX with (Z.of_nat 1900).
  destruct (Z.leb_spec (Z.of_nat (List.length responseText)) (Z.of_nat 1900))
    as [Hshort | Hlong].
  - cbn [map List.concat outgoingContent List.length]. rewrite app_nil_r.
    split; [reflexivity|]. split; [constructor; [cbn; lia | constructor]|].
    split; [now exists responseText, []|]. split; [lia|]. split.
    + intros Hne. split; [destruct responseText; [contradiction | cbn; lia]|].
      constructor; [exact Hne | constructor].
    + now intros ->.
  - destruct (sendRest_spec (List.length responseText) responseText true (le_n _))
      as (Hcat & Hall & Hlow & Hhigh & Hshape).
    split; [exact Hcat|]. split.
    { eapply Forall_impl; [|exact Hall]. cbn. intros o Ho. lia. }
    split.
    { destruct (sendRest _ _ _) as [|o others].
      - subst responseText. cbn in Hlong. lia.
      - destruct Hshape as [-> Hothers]. now exists (firstn 1900 responseText), others. }
    split; [exact Hlow|]. split.
    + intros _. split; [exact Hhigh|].
      eapply Forall_impl; [|exact Hall]. cbn. intros o Ho Hnil.
      rewrite Hnil in Ho. cbn in Ho. lia.
    + intros ->. cbn in Hlong. lia.
Qed.

Lemma sendResponse_partitions_response_witness :
  List.length (sendResponse (lit "hello")) * 1900 < List.length (lit "hello") + 1900
  /\ Forall (fun o => outgoingContent o <> []) (sendResponse (lit "hello")).
Proof.
  apply (proj1 (proj2 (proj2 (proj2 (proj2
           (sendResponse_partitions_response (lit "hello"))))))).
  discriminate.
Defined.

(* ================================================================= *)
(** ** The CLI subscriber: cleaning of duplicates *)

Lemma strictEq_spec (a b : jsstring) : strictEq a b = true <-> a = b.
Proof.
  revert b. induction a as [|x a IH]; intros [|y b]; cbn;
    try (split; [discriminate | intros H; discriminate H]); [tauto|].
  rewrite andb_true_iff, N.eqb_eq, IH. split.
  - now intros [-> ->].
  - intros H. injection H as -> ->. now split.
Qed.

Lemma substring_front (s : jsstring) (k : nat) :
  k <= List.length s -> substring s 0 k = firstn k s.
Proof.
  intros Hk. unfold substring.
  rewrite Nat.min_0_l, (Nat.min_l k), Nat.max_0_l, Nat.min_0_l by lia.
  now rewrite Nat.sub_0_r.
Qed.

Lemma substring_back (s : jsstring) (k : nat) :
  k <= List.length s -> substring s k (List.length s) = skipn k s.
Proof.
  intros Hk. unfold substring.
  rewrite Nat.min_id, (Nat.min_l k), Nat.max_r, (Nat.min_l k) by lia.
  apply firstn_all2. rewrite length_skipn. lia.
Qed.

Lemma splitSentences_plain (rest : jsstring) :
  forall prev current,
    ~ In backslash rest ->
    splitSentences prev false current rest = [rev current ++ rest].
Proof.
  induction rest as [|c rest IH]; intros prev current Hno.
  - cbn. now rewrite app_nil_r.
  - assert (Hc : (c =? backslash)%N = false).
    { apply N.eqb_neq. intros ->. apply Hno. now left. }
    assert (Hrest : ~ In backslash rest) by (intros H; apply Hno; now right).
    cbn [splitSentences andb]. rewrite Hc, andb_false_r. cbn [andb].
    assert (Hgo : splitSentences (Some c) false (c :: current) rest
                  = [rev current ++ c :: rest]).
    { rewrite IH by exact Hrest. cbn [rev]. now rewrite <- app_assoc. }
    destruct rest; exact Hgo.
Qed.

Lemma includes_needs_first (s search : jsstring) (c : code_unit) (more : jsstring) :
  search = c :: more -> ~ In c s -> includes s search = false.
Proof.
  intros -> Hno. unfold includes, indexOf.
  destruct (indexOfFrom_spec s (c :: more) 0)
    as [[Hnone _] | (k & _ & Hat & _)]; [now rewrite Hnone|].
  apply startsWith_spec in Hat. destruct Hat as (rest & Hat).
  exfalso. apply Hno.
  rewrite <- (firstn_skipn k s), Hat. apply in_or_app. right. now left.
Qed.

Section CleanDuplicateTextFacts.

Variable toLowerCase : jsstring -> jsstring.

(** X14.  On a text without a backslash, [cleanDuplicateText] does one
    thing only: a text that is some non-empty string written twice is
    replaced by that string, and every other text is returned as it is.
    The sentence-level cleaning needs a backslash to be reached. *)
Theorem cleanDuplicateText_plain_text (text : jsstring) :
  ~ In backslash text ->
  (forall half, half <> [] -> text = half ++ half ->
                cleanDuplicateText toLowerCase text = half)
  /\ ((forall half, half <> [] -> text <> half ++ half) ->
      cleanDuplicateText toLowerCase text = text).
Proof.
  intros Hno.
  assert (Hplain : forall t, t <> [] -> ~ In backslash t ->
             (if (List.length (splitSentences None false [] t) <=? 1)
                 && negb (includes t [backslash; letter_n])
              then t
              else trim (join [space]
                           (uniqueLoop toLowerCase (splitSentences None false [] t)
                                       [] [])))
             = t).
  { intros t _ Ht. rewrite splitSentences_plain by exact Ht.
    now rewrite (includes_needs_first t _ backslash [letter_n] eq_refl Ht). }
  split.
  - intros half Hne ->. unfold cleanDuplicateText.
    assert (Hlen : List.length (half ++ half) = 2 * List.length half)
      by (rewrite length_app; lia).
    assert (Hpos : 1 <= List.length half) by (destruct half; [contradiction | cbn; lia]).
    assert (Ht : truthy (half ++ half) = true) by (destruct half; [contradiction | reflexivity]).
    rewrite Ht. cbn [negb].
    assert (Hdiv : List.length (half ++ half) / 2 = List.length half).
    { rewrite Hlen, Nat.mul_comm. apply Nat.div_mul. lia. }
    assert (Hmod : List.length (half ++ half) mod 2 = 0).
    { rewrite Hlen, Nat.mul_comm. apply Nat.Div0.mod_mul. }
    assert (Hgt : (1 <? List.length (half ++ half)) = true) by (apply Nat.ltb_lt; lia).
    rewrite Hdiv, Hmod, Hgt. cbn [andb Nat.eqb].
    rewrite substring_front, substring_back by (rewrite Hlen; lia).
    rewrite firstn_app, firstn_all, Nat.sub_diag, app_nil_r.
    rewrite skipn_app, skipn_all, Nat.sub_diag. cbn [firstn skipn app].
    assert (Heq : strictEq half half = true) by now apply strictEq_spec.
    rewrite Heq. apply Hplain; [exact Hne|].
    intros Hin. apply Hno. apply in_or_app. now left.
  - intros Hnot. unfold cleanDuplicateText.
    destruct text as [|c text]; [reflexivity|].
    change (truthy (c :: text)) with true. cbn [negb].
    set (whole := c :: text) in *.
    assert (Hsame :
              (if (1 <? List.length whole) && Nat.eqb (List.length whole mod 2) 0
               then
                 if strictEq (substring whole 0 (List.length whole / 2))
                             (substring whole (List.length whole / 2) (List.length whole))
                 then substring whole 0 (List.length whole / 2)
                 else whole
               else whole) = whole).
    { destruct (_ && _) eqn:Hcond; [|reflexivity].
      apply andb_true_iff in Hcond. destruct Hcond as [Hgt Heven].
      apply Nat.ltb_lt in Hgt. apply Nat.eqb_eq in Heven.
      assert (Hhalf : List.length whole / 2 <= List.length whole)
        by (apply Nat.Div0.div_le_upper_bound; lia).
      rewrite substring_front, substring_back by exact Hhalf.
      destruct (strictEq _ _) eqn:Heq; [|reflexivity].
      apply strictEq_spec in Heq. exfalso.
      apply (Hnot (firstn (List.length whole / 2) whole)).
      - intros Hnil. apply (f_equal (@List.length _)) in Hnil.
        rewrite length_firstn in Hnil. cbn [List.length] in Hnil.
        assert (1 <= List.length whole / 2)
          by (apply Nat.div_le_lower_bound; lia).
        lia.
      - rewrite Heq at 2. symmetry. apply firstn_skipn. }
    rewrite Hsame. apply Hplain; [discriminate | exact Hno].
Qed.

Let norm (fragment : jsstring) : jsstring := toLowerCase (trim fragment).

Lemma existsb_strictEq (x : jsstring) (seen : list jsstring) :
  existsb (strictEq x) seen = true <-> In x seen.
Proof.
  rewrite existsb_exists. split.
  - intros (y & Hin & Heq). apply strictEq_spec in Heq. now subst.
  - intros Hin. exists x. split; [exact Hin | now apply strictEq_spec].
Qed.

Lemma NoImmediateRepeat_nil (f : jsstring -> jsstring) : NoImmediateRepeat f [].
Proof. intros front a b back H. now destruct front. Qed.

Lemma NoImmediateRepeat_snoc (f : jsstring -> jsstring) (xs : list jsstring) (x : jsstring) :
  NoImmediateRepeat f xs ->
  (xs <> [] -> f (last xs []) <> f x) ->
  NoImmediateRepeat f (xs ++ [x]).
Proof.
  intros Hxs Hlast front a b back Heq.
  destruct (exists_last (l := a :: b :: back)) as (body & z & Hbody); [discriminate|].
  destruct back as [|c back].
  - assert (Heq' : xs ++ [x] = (front ++ [a]) ++ [b]) by now rewrite <- app_assoc.
    apply app_inj_tail in Heq'. destruct Heq' as [-> ->].
    rewrite last_last in Hlast. apply Hlast. now destruct front.
  - destruct (exists_last (l := c :: back)) as (body' & z' & Hbody'); [discriminate|].
    rewrite Hbody' in Heq.
    assert (Heq' : xs ++ [x] = (front ++ a :: b :: body') ++ [z'])
      by now rewrite <- app_assoc.
    apply app_inj_tail in Heq'. destruct Heq' as [-> _].
    now apply (Hxs front a b body').
Qed.

Lemma length_zero_iff (x : jsstring) : Nat.eqb (List.length x) 0 = true <-> x = [].
Proof. destruct x; cbn; split; congruence. Qed.

Lemma uniqueLoop_keeps (fragments : list jsstring) :
  forall uniqueFragments seen,
    Forall (fun u => In (norm u) seen) uniqueFragments ->
    Forall (fun u => norm u <> []) uniqueFragments ->
    NoImmediateRepeat norm uniqueFragments ->
    exists added,
      uniqueLoop toLowerCase fragments uniqueFragments seen = uniqueFragments ++ added
      /\ Subsequence added fragments
      /\ Forall (fun u => norm u <> []) (uniqueFragments ++ added)
      /\ NoImmediateRepeat norm (uniqueFragments ++ added).
Proof.
  induction fragments as [|fragment more IH]; intros unique seen Hseen Hfull Hrep.
  - exists []. rewrite app_nil_r. repeat split; try assumption. constructor.
  - cbn [uniqueLoop]. fold (norm fragment).
    assert (Hskip : forall added,
               uniqueLoop toLowerCase more unique seen = unique ++ added
               /\ Subsequence added more
               /\ Forall (fun u => norm u <> []) (unique ++ added)
               /\ NoImmediateRepeat norm (unique ++ added) ->
               uniqueLoop toLowerCase more unique seen = unique ++ added
               /\ Subsequence added (fragment :: more)
               /\ Forall (fun u => norm u <> []) (unique ++ added)
               /\ NoImmediateRepeat norm (unique ++ added)).
    { intros added (H1 & H2 & H3 & H4). repeat split; try assumption.
      now apply sub_skip. }
    assert (Hpush : forall seen',
               norm fragment <> [] ->
               In (norm fragment) seen' ->
               (forall x, In x seen -> In x seen') ->
               (unique <> [] -> norm (last unique []) <> norm fragment) ->
               exists added,
                 uniqueLoop toLowerCase more (unique ++ [fragment]) seen' = unique ++ added
                 /\ Subsequence added (fragment :: more)
                 /\ Forall (fun u => norm u <> []) (unique ++ added)
                 /\ NoImmediateRepeat norm (unique ++ added)).
    { intros seen' Hne Hin Hmono Hlast.
      destruct (IH (unique ++ [fragment]) seen') as (added & H1 & H2 & H3 & H4).
      - apply Forall_app. split.
        + eapply Forall_impl; [|exact Hseen]. intros u Hu. now apply Hmono.
        + now constructor.
      - apply Forall_app. split; [exact Hfull | now constructor].
      - now apply NoImmediateRepeat_snoc.
      - exists (fragment :: added). rewrite <- app_assoc in H1, H3, H4.
        repeat split; try assumption. now apply sub_take. }
    destruct (Nat.eqb (List.length (norm fragment)) 0) eqn:Hblank.
    + destruct (IH unique seen Hseen Hfull Hrep) as (added & H).
      exists added. now apply Hskip.
    + assert (Hne : norm fragment <> []).
      { intros H. apply length_zero_iff in H. congruence. }
      destruct (existsb (strictEq (norm fragment)) seen) eqn:Hmember; cbn [negb].
      * apply existsb_strictEq in Hmember.
        destruct ((0 <? List.length unique)
                  && strictEq (toLowerCase (trim (last unique []))) (norm fragment))
                 eqn:Hrepeat.
        -- destruct (IH unique seen Hseen Hfull Hrep) as (added & H).
           exists added. now apply Hskip.
        -- apply (Hpush seen Hne Hmember); [tauto|].
           intros Hsome Hsame.
           apply andb_false_iff in Hrepeat. destruct Hrepeat as [Hlen | Hneq].
           ++ apply Nat.ltb_ge in Hlen. destruct unique; [congruence | cbn in Hlen; lia].
           ++ assert (Htrue : strictEq (toLowerCase (trim (last unique []))) (norm fragment)
                              = true) by (apply strictEq_spec; exact Hsame).
              congruence.
      * apply (Hpush (norm fragment :: seen) Hne).
        -- now left.
        -- intros x Hx. now right.
        -- intros Hsome Hsame.
           assert (Hin : In (norm (last unique [])) seen).
           { rewrite Forall_forall in Hseen. apply Hseen.
             destruct (exists_last Hsome) as (body & z & ->).
             rewrite last_last. apply in_or_app. right. now left. }
           rewrite Hsame in Hin. apply existsb_strictEq in Hin. congruence.
Qed.

Lemma uniqueLoop_fixed (fragments : list jsstring) :
  forall uniqueFragments seen,
    Forall (fun u => norm u <> []) fragments ->
    NoImmediateRepeat norm (uniqueFragments ++ fragments) ->
    uniqueLoop toLowerCase fragments uniqueFragments seen = uniqueFragments ++ fragments.
Proof.
  induction fragments as [|fragment more IH]; intros unique seen Hfull Hrep.
  - cbn. now rewrite app_nil_r.
  - cbn [uniqueLoop]. fold (norm fragment).
    inversion Hfull as [|? ? Hne Hmore]; subst.
    assert (Hnext : forall seen',
               uniqueLoop toLowerCase more (unique ++ [fragment]) seen'
               = unique ++ fragment :: more).
    { intros seen'. rewrite IH; [now rewrite <- app_assoc | exact Hmore |].
      now rewrite <- app_assoc. }
    destruct (Nat.eqb (List.length (norm fragment)) 0) eqn:Hblank.
    { apply length_zero_iff in Hblank. contradiction. }
    destruct (existsb (strictEq (norm fragment)) seen); cbn [negb]; [|apply Hnext].
    destruct ((0 <? List.length unique)
              && strictEq (toLowerCase (trim (last unique []))) (norm fragment))
             eqn:Hrepeat; [|apply Hnext].
    exfalso. apply andb_true_iff in Hrepeat. destruct Hrepeat as [Hlen Hsame].
    apply Nat.ltb_lt in Hlen. apply strictEq_spec in Hsame.
    assert (Hsome : unique <> []) by (destruct unique; [cbn in Hlen; lia | discriminate]).
    destruct (exists_last Hsome) as (body & z & ->).
    rewrite last_last in Hsame.
    apply (Hrep body z fragment more); [now rewrite <- app_assoc | exact Hsame].
Qed.

(** X15.  The fragments kept by the loop of [cleanDuplicateText] are a
    subsequence of the fragments it is given; none of them is blank,
    and no two neighbours among them are equal up to surrounding white
    space and letter case. *)
Theorem kept_fragments_have_no_immediate_repeat (fragments : list jsstring) :
  let kept := uniqueLoop toLowerCase fragments [] [] in
  Subsequence kept fragments
  /\ Forall (fun fragment => toLowerCase (trim fragment) <> []) kept
  /\ NoImmediateRepeat (fun fragment => toLowerCase (trim fragment)) kept.
Proof.
  destruct (uniqueLoop_keeps fragments [] [] (Forall_nil _) (Forall_nil _)
                            (NoImmediateRepeat_nil _))
    as (added & H1 & H2 & H3 & H4).
  cbn in *. rewrite H1. repeat split; assumption.
Qed.

(** X16.  The loop of [cleanDuplicateText] returns its fragments as
    they are exactly when none of them is blank and no two neighbours
    are equal up to surrounding white space and letter case: a fragment
    that comes back later, after a different one, is kept. *)
Theorem only_blank_and_repeated_fragments_are_dropped (fragments : list jsstring) :
  uniqueLoop toLowerCase fragments [] [] = fragments
  <-> Forall (fun fragment => toLowerCase (trim fragment) <> []) fragments
      /\ NoImmediateRepeat (fun fragment => toLowerCase (trim fragment)) fragments.
Proof.
  split.
  - intros Hfixed.
    destruct (uniqueLoop_keeps fragments [] [] (Forall_nil _) (Forall_nil _)
                              (NoImmediateRepeat_nil _))
      as (added & H1 & H2 & H3 & H4).
    cbn in *. rewrite Hfixed in H1. subst added. now split.
  - intros [Hfull Hrep]. now apply (uniqueLoop_fixed fragments [] []).
Qed.

End CleanDuplicateTextFacts.

Lemma cleanDuplicateText_plain_text_witness :
  ~ In backslash (lit "Okay.Okay.")
  /\ cleanDuplicateText (fun s => s) (lit "Okay.Okay.") = lit "Okay.".
Proof.
  assert (Hplain : ~ In backslash (lit "Okay.Okay.")).
  { intros H. repeat (destruct H as [H|H]; [discriminate H|]). exact H. }
  split; [exact Hplain|].
  apply (proj1 (cleanDuplicateText_plain_text (fun s => s) (lit "Okay.Okay.") Hplain)
               (lit "Okay.")).
  - discriminate.
  - reflexivity.
Defined.

Lemma only_blank_and_repeated_fragments_are_dropped_witness :
  Forall (fun fragment => trim fragment <> []) [lit "Yes."; lit "No."; lit " yes."]
  /\ NoImmediateRepeat (fun fragment => trim fragment)
                       [lit "Yes."; lit "No."; lit " yes."].
Proof.
  apply (proj1 (only_blank_and_repeated_fragments_are_dropped
                  (fun s => s) [lit "Yes."; lit "No."; lit " yes."])).
  reflexivity.
Defined.

(* ================================================================= *)
(** ** The CLI subscriber *)

Arguments cleanDuplicateText toLowerCase text : simpl never.
Arguments endsWithb s suffix : simpl never.

Lemma endsWithb_spec (s suffix : jsstring) :
  endsWithb s suffix = true <-> endsWith s suffix.
Proof.
  unfold endsWithb, endsWith. rewrite startsWith_spec. split.
  - intros (rest & H). exists (rev rest).
    apply (f_equal (@rev _)) in H. rewrite rev_involutive, rev_app_distr in H.
    now rewrite rev_involutive in H.
  - intros (front & ->). exists (rev front). now rewrite rev_app_distr.
Qed.

Lemma lastResponseBox_app (a b : list CLISubscriber.Output) (shown : option jsstring) :
  CLISubscriber.lastResponseBox (a ++ b) shown
  = CLISubscriber.lastResponseBox b (CLISubscriber.lastResponseBox a shown).
Proof. revert shown. induction a as [|o a IH]; intros shown; cbn; [reflexivity | apply IH]. Qed.

Lemma eventsIn_app (a b : list CLISubscriber.Input) :
  CLISubscriber.eventsIn (a ++ b) = CLISubscriber.eventsIn a ++ CLISubscriber.eventsIn b.
Proof. apply flat_map_app. Qed.

Lemma accumulatedOver_app (a b : list Event) (accumulated : jsstring) :
  CLISubscriber.accumulatedOver (a ++ b) accumulated
  = CLISubscriber.accumulatedOver b (CLISubscriber.accumulatedOver a accumulated).
Proof. revert accumulated. induction a as [|e a IH]; intros acc; cbn; [reflexivity | apply IH]. Qed.

Lemma displayedOver_app (toLowerCase : jsstring -> jsstring)
      (a b : list Event) (accumulated : jsstring) :
  CLISubscriber.displayedOver toLowerCase (a ++ b) accumulated
  = CLISubscriber.displayedOver toLowerCase a accumulated
    ++ CLISubscriber.displayedOver toLowerCase b
         (CLISubscriber.accumulatedOver a accumulated).
Proof.
  revert accumulated. induction a as [|e a IH]; intros acc; cbn; [reflexivity|].
  now rewrite IH, app_assoc.
Qed.

Ltac subscriber_cases :=
  repeat (cbn in *;
          match goal with
          | |- context [if ?b then _ else _] => destruct b eqn:?
          end);
  cbn in *.

Section CLISubscriberFacts.

Variable toLowerCase : jsstring -> jsstring.
Variable lineCount : CLISubscriber.Box -> nat.
Variable stringify : json -> jsstring.
Variable dateNow : nat -> Z.

Lemma step_summary (st : CLISubscriber.Subscriber) (input : CLISubscriber.Input) :
  CLISubscriber.accumulatedResponse
    (CLISubscriber.step toLowerCase lineCount stringify dateNow st input)
  = CLISubscriber.accumulatedOver (CLISubscriber.eventsIn [input])
                                  (CLISubscriber.accumulatedResponse st)
  /\ CLISubscriber.displayed
       (CLISubscriber.terminal
          (CLISubscriber.step toLowerCase lineCount stringify dateNow st input))
     = CLISubscriber.displayed (CLISubscriber.terminal st)
       ++ CLISubscriber.displayedOver toLowerCase (CLISubscriber.eventsIn [input])
                                      (CLISubscriber.accumulatedResponse st).
Proof.
  destruct st as [acc lines first timer last pending out reads].
  destruct input as [e|]; [destruct e|];
    unfold CLISubscriber.step, CLISubscriber.subscribe, CLISubscriber.onThinking,
      CLISubscriber.onChunk, CLISubscriber.onToolCall, CLISubscriber.onToolResult,
      CLISubscriber.onResponse, CLISubscriber.onError,
      CLISubscriber.onConversationReset, CLISubscriber.onResetAccumulation,
      CLISubscriber.intervalCallback, CLISubscriber.renderAccumulatedResponse,
      CLISubscriber.displayedAt;
    cbn; rewrite ?fold_nonBlank;
    subscriber_cases; rewrite ?flat_map_app, ?app_nil_r; cbn;
    rewrite ?app_nil_r; auto; try congruence.
Qed.

Lemma run_cons (inputs : list CLISubscriber.Input) (input : CLISubscriber.Input)
      (st : CLISubscriber.Subscriber) :
  CLISubscriber.run toLowerCase lineCount stringify dateNow (input :: inputs) st
  = CLISubscriber.run toLowerCase lineCount stringify dateNow inputs
      (CLISubscriber.step toLowerCase lineCount stringify dateNow st input).
Proof. reflexivity. Qed.

Lemma run_snoc (inputs : list CLISubscriber.Input) (input : CLISubscriber.Input)
      (st : CLISubscriber.Subscriber) :
  CLISubscriber.run toLowerCase lineCount stringify dateNow (inputs ++ [input]) st
  = CLISubscriber.step toLowerCase lineCount stringify dateNow
      (CLISubscriber.run toLowerCase lineCount stringify dateNow inputs st) input.
Proof. unfold CLISubscriber.run. now rewrite fold_left_app. Qed.

Lemma run_summary (inputs : list CLISubscriber.Input) :
  forall st,
    CLISubscriber.accumulatedResponse
      (CLISubscriber.run toLowerCase lineCount stringify dateNow inputs st)
    = CLISubscriber.accumulatedOver (CLISubscriber.eventsIn inputs)
                                    (CLISubscriber.accumulatedResponse st)
    /\ CLISubscriber.displayed
         (CLISubscriber.terminal
            (CLISubscriber.run toLowerCase lineCount stringify dateNow inputs st))
       = CLISubscriber.displayed (CLISubscriber.terminal st)
         ++ CLISubscriber.displayedOver toLowerCase (CLISubscriber.eventsIn inputs)
                                        (CLISubscriber.accumulatedResponse st).
Proof.
  induction inputs as [|input inputs IH]; intros st.
  - cbn. now rewrite app_nil_r.
  - rewrite run_cons.
    destruct (IH (CLISubscriber.step toLowerCase lineCount stringify dateNow st input))
      as [Hacc Hshown].
    destruct (step_summary st input) as [Hacc1 Hshown1].
    change (input :: inputs) with ([input] ++ inputs).
    rewrite eventsIn_app, accumulatedOver_app, displayedOver_app.
    rewrite Hacc, Hshown, Hacc1, Hshown1. now rewrite app_assoc.
Qed.

(** What throttling keeps true: while the accumulated response is not
    blank and no update is pending, the response box drawn last shows
    the cleaned accumulated response. *)
Lemma step_keeps_drawn (st : CLISubscriber.Subscriber) (input : CLISubscriber.Input) :
  (nonBlank (CLISubscriber.accumulatedResponse st) = true ->
   CLISubscriber.pendingUpdate st = false ->
   CLISubscriber.lastResponseBox (CLISubscriber.terminal st) None
   = Some (cleanDuplicateText toLowerCase (CLISubscriber.accumulatedResponse st))) ->
  let st' := CLISubscriber.step toLowerCase lineCount stringify dateNow st input in
  nonBlank (CLISubscriber.accumulatedResponse st') = true ->
  CLISubscriber.pendingUpdate st' = false ->
  CLISubscriber.lastResponseBox (CLISubscriber.terminal st') None
  = Some (cleanDuplicateText toLowerCase (CLISubscriber.accumulatedResponse st')).
Proof.
  destruct st as [acc lines first timer last pending out reads].
  intros Hdrawn.
  destruct input as [e|]; [destruct e|];
    unfold CLISubscriber.step, CLISubscriber.subscribe, CLISubscriber.onThinking,
      CLISubscriber.onChunk, CLISubscriber.onToolCall, CLISubscriber.onToolResult,
      CLISubscriber.onResponse, CLISubscriber.onError,
      CLISubscriber.onConversationReset, CLISubscriber.onResetAccumulation,
      CLISubscriber.intervalCallback, CLISubscriber.renderAccumulatedResponse;
    cbn; rewrite ?fold_nonBlank;
    subscriber_cases; rewrite ?nonBlank_nil; intros Hfull Hpending;
    rewrite ?lastResponseBox_app; cbn;
    try discriminate; try reflexivity; try (now apply Hdrawn).
Qed.

Lemma run_keeps_drawn (inputs : list CLISubscriber.Input) :
  let st := CLISubscriber.run toLowerCase lineCount stringify dateNow inputs
                              CLISubscriber.newSubscriber in
  nonBlank (CLISubscriber.accumulatedResponse st) = true ->
  CLISubscriber.pendingUpdate st = false ->
  CLISubscriber.lastResponseBox (CLISubscriber.terminal st) None
  = Some (cleanDuplicateText toLowerCase (CLISubscriber.accumulatedResponse st)).
Proof.
  induction inputs as [|input inputs IH] using rev_ind.
  - cbn. rewrite nonBlank_nil. discriminate.
  - cbn zeta. rewrite run_snoc. now apply step_keeps_drawn.
Qed.

(** X17.  Throttling loses no text.  Whatever events and timer ticks
    a new subscriber has handled, when it holds a non-blank accumulated
    response and an event arrives that closes the segment (thinking, a
    tool call or a response), the response box drawn last shows the
    whole cleaned accumulated response, and the accumulator is empty
    afterwards. *)
Theorem accumulated_response_is_drawn_before_it_is_cleared
        (inputs : list CLISubscriber.Input) (e : Event) :
  let st := CLISubscriber.run toLowerCase lineCount stringify dateNow inputs
                              CLISubscriber.newSubscriber in
  let st' := CLISubscriber.subscribe toLowerCase lineCount stringify dateNow e st in
  CLISubscriber.closesSegment e = true ->
  nonBlank (CLISubscriber.accumulatedResponse st) = true ->
  CLISubscriber.lastResponseBox (CLISubscriber.terminal st') None
  = Some (cleanDuplicateText toLowerCase (CLISubscriber.accumulatedResponse st))
  /\ CLISubscriber.accumulatedResponse st' = [].
Proof.
  pose proof (run_keeps_drawn inputs) as Hdrawn. cbn zeta in *.
  revert Hdrawn.
  generalize (CLISubscriber.run toLowerCase lineCount stringify dateNow inputs
                                CLISubscriber.newSubscriber).
  intros st Hdrawn Hcloses Hfull.
  destruct st as [acc lines first timer last pending out reads].
  cbn in Hfull, Hdrawn.
  destruct e; try discriminate Hcloses;
    unfold CLISubscriber.subscribe, CLISubscriber.onThinking,
      CLISubscriber.onToolCall, CLISubscriber.onResponse,
      CLISubscriber.renderAccumulatedResponse;
    destruct timer; cbn; rewrite ?fold_nonBlank, Hfull;
    subscriber_cases; rewrite ?lastResponseBox_app; cbn;
    (split; [|reflexivity]); try reflexivity; now apply Hdrawn.
Qed.

Lemma no_chunks_summary (events : list Event) :
  chunksOf events = [] ->
  CLISubscriber.accumulatedOver events [] = []
  /\ CLISubscriber.displayedOver toLowerCase events []
     = map (cleanDuplicateText toLowerCase) (responsesOf events).
Proof.
  induction events as [|e events IH]; intros Hnone; [now split|].
  destruct e; cbn in Hnone; try discriminate Hnone;
    destruct (IH Hnone) as [Hacc Hshown]; cbn;
    rewrite ?nonBlank_nil; cbn; rewrite Hacc, Hshown; now split.
Qed.

Lemma generate_steps_summary (steps : list StepResult) :
  chunksOf (flat_map eventsAtGenerateStep steps) = []
  /\ responsesOf (flat_map eventsAtGenerateStep steps)
     = filter truthy (map text steps).
Proof.
  induction steps as [|step steps [IHc IHr]]; [now split|].
  cbn [flat_map map filter]. rewrite chunksOf_app, responsesOf_app, IHc, IHr.
  unfold eventsAtGenerateStep.
  rewrite !chunksOf_app, !responsesOf_app, responsesOf_toolCalls,
    responsesOf_toolResults.
  rewrite (chunksOf_none toolCallEvent), (chunksOf_none toolResultEvent)
    by reflexivity.
  destruct (truthy (text step)); now split.
Qed.

(** X18.  A task in non-streaming mode is displayed step by step: of
    the events that [completeTask] publishes, the subscriber hands to
    [displayAIResponse] the cleaned text of every step whose text is
    not empty, once each and in order, and nothing else, whether the
    provider call settles or fails and whenever the timer ticks. *)
Theorem nonstreaming_task_displays_each_step_text_once
        (env : Env) (maxIterations : Z) (userInput : jsstring)
        (imageData : option ImageData) (tools : ToolSet) (formatted : list Message)
        (s : State) (inputs : list CLISubscriber.Input)
        (st : CLISubscriber.Subscriber) :
  rejectsUserMessage env userInput imageData = None ->
  getAllTools env = inr tools ->
  getFormattedMessages env (messageManager s ++ [userMessage userInput imageData])
  = inr formatted ->
  eventEmitter (execState (completeTask env maxIterations userInput imageData) s)
  = eventEmitter s ++ CLISubscriber.eventsIn inputs ->
  CLISubscriber.displayed
    (CLISubscriber.terminal
       (CLISubscriber.run toLowerCase lineCount stringify dateNow inputs st))
  = CLISubscriber.displayed (CLISubscriber.terminal st)
    ++ map (cleanDuplicateText toLowerCase)
           (filter truthy
                   (map text
                        (stepsFinished
                           (sdkGenerateText env formatted (formatTools tools)
                                            maxIterations)))).
Proof.
  intros Haccepted Hlisted Hformatted Hevents.
  unfold execState in Hevents.
  rewrite (completeTask_run env maxIterations userInput imageData tools s
                            Haccepted Hlisted), Hformatted in Hevents.
  cbn zeta in Hevents.
  set (steps := stepsFinished
                  (sdkGenerateText env formatted (formatTools tools) maxIterations))
    in *.
  destruct (generate_steps_summary steps) as [Hchunks Hresponses].
  assert (Hin : exists tail,
             CLISubscriber.eventsIn inputs
             = [EvThinking] ++ flat_map eventsAtGenerateStep steps ++ tail
             /\ chunksOf tail = [] /\ responsesOf tail = []).
  { destruct (settled (sdkGenerateText env formatted (formatTools tools) maxIterations))
      as [error|response]; cbn in Hevents; apply app_inv_head in Hevents.
    - exists [EvError (errorMessage error)]. now rewrite <- Hevents.
    - exists []. now rewrite <- Hevents, app_nil_r. }
  destruct Hin as (tail & Hin & Htailc & Htailr).
  destruct (run_summary inputs st) as [_ Hshown]. rewrite Hshown, Hin.
  rewrite displayedOver_app. cbn [CLISubscriber.displayedOver CLISubscriber.displayedAt
                                  CLISubscriber.accumulatedOver
                                  CLISubscriber.accumulatedAfter app].
  destruct (no_chunks_summary (flat_map eventsAtGenerateStep steps ++ tail)) as [_ ->].
  - now rewrite chunksOf_app, Hchunks, Htailc.
  - now rewrite responsesOf_app, Hresponses, Htailr, app_nil_r.
Qed.

Lemma toolCalls_summary (calls : list ToolCall) (accumulated : jsstring) :
  CLISubscriber.displayedOver toLowerCase (map toolCallEvent calls) accumulated = []
  /\ CLISubscriber.accumulatedOver (map toolCallEvent calls) accumulated
     = if hasItems calls then [] else accumulated.
Proof.
  destruct calls as [|call calls]; [now split|].
  rewrite hasItems_cons. cbn.
  induction calls as [|call' calls IH]; [now split|]. exact IH.
Qed.

Lemma toolResults_summary (results : list ToolResult) (accumulated : jsstring) :
  CLISubscriber.displayedOver toLowerCase (map toolResultEvent results) accumulated = []
  /\ CLISubscriber.accumulatedOver (map toolResultEvent results) accumulated
     = accumulated.
Proof. induction results as [|r results IH]; [now split | exact IH]. Qed.

Lemma signal_never_displays (sig : Signal) (buf accumulated : jsstring) :
  match sig with
  | SError _ => False
  | SStepFinish step => nonBlank (text step) = true -> nonBlank buf = true
  | _ => True
  end ->
  (nonBlank buf = true -> nonBlank accumulated = true) ->
  CLISubscriber.displayedOver toLowerCase (eventsAt sig buf) accumulated = []
  /\ (nonBlank (bufferAfter sig buf) = true ->
      nonBlank (CLISubscriber.accumulatedOver (eventsAt sig buf) accumulated) = true).
Proof.
  intros Hsig Hsync. destruct sig as [[delta|other] | step | | error].
  - cbn. destruct (truthy delta) eqn:Hdelta; cbn.
    + split; [reflexivity|]. rewrite nonBlank_app.
      destruct (endsWithb accumulated delta) eqn:Hends.
      * apply endsWithb_spec in Hends. destruct Hends as (front & ->).
        rewrite nonBlank_app. intros H. apply orb_true_iff in H.
        destruct H as [H | H]; [|now rewrite H, orb_true_r].
        specialize (Hsync H). now rewrite nonBlank_app in Hsync.
      * rewrite nonBlank_app. intros H. apply orb_true_iff in H.
        destruct H as [H | H]; [now rewrite (Hsync H) | now rewrite H, orb_true_r].
    + split; [reflexivity|]. destruct delta; [|discriminate Hdelta].
      now rewrite app_nil_r.
  - cbn. now split.
  - cbn [eventsAt bufferAfter]. unfold eventsAtStep, bufferAfterStep.
    split.
    + rewrite !displayedOver_app.
      destruct (toolCalls_summary (toolCalls step)
                  (CLISubscriber.accumulatedOver
                     (map EvResponse (flushedAtStep step buf)) accumulated))
        as [-> _].
      destruct (toolResults_summary (toolResults step)
                  (CLISubscriber.accumulatedOver
                     (if hasItems (toolCalls step) then [EvResetAccumulation] else [])
                     (CLISubscriber.accumulatedOver (map toolCallEvent (toolCalls step))
                        (CLISubscriber.accumulatedOver
                           (map EvResponse (flushedAtStep step buf)) accumulated))))
        as [-> _].
      assert (Hflush : CLISubscriber.displayedOver
                         toLowerCase (map EvResponse (flushedAtStep step buf)) accumulated
                       = []).
      { unfold flushedAtStep.
        destruct (nonBlank (text step)) eqn:Htext.
        - cbn. now rewrite (Hsync (Hsig eq_refl)).
        - destruct (nonBlank buf) eqn:Hbuf; cbn; [|reflexivity].
          destruct (hasItems (toolCalls step) || negb (hasItems (toolResults step)));
            cbn; [|reflexivity].
          now rewrite (Hsync eq_refl). }
      rewrite Hflush. now destruct (hasItems (toolCalls step)).
    + destruct (nonBlank (text step) || hasItems (toolCalls step)
                || hasItems (toolResults step) || nonBlank buf) eqn:Hany.
      * rewrite nonBlank_nil. discriminate.
      * intros Hbuf. apply orb_false_iff in Hany. destruct Hany as [_ Hany]. congruence.
  - cbn. destruct (nonBlank buf) eqn:Hbuf; cbn.
    + rewrite (Hsync eq_refl). split; [reflexivity|]. rewrite nonBlank_nil. discriminate.
    + split; [reflexivity|]. rewrite nonBlank_nil. discriminate.
  - contradiction.
Qed.

Lemma stream_never_displays (signals : list Signal) :
  forall buf accumulated,
    noErrorSignal signals = true ->
    closedTextsWereStreamed signals buf = true ->
    (nonBlank buf = true -> nonBlank accumulated = true) ->
    CLISubscriber.displayedOver toLowerCase (eventsOver signals buf) accumulated = [].
Proof.
  induction signals as [|sig signals IH]; intros buf acc Hnoerr Hstreamed Hsync;
    [reflexivity|].
  cbn in Hnoerr, Hstreamed. apply andb_true_iff in Hnoerr, Hstreamed.
  destruct Hnoerr as [Hsig Hnoerr]. destruct Hstreamed as [Hstep Hstreamed].
  destruct (signal_never_displays sig buf acc) as [Hshown Hsync'].
  - destruct sig as [chunk | step | | error]; try exact I; [|discriminate Hsig].
    intros Htext. rewrite Htext in Hstep. exact Hstep.
  - exact Hsync.
  - cbn [eventsOver]. rewrite displayedOver_app, Hshown. cbn [app].
    now apply IH.
Qed.

(** X19.  A streamed task is not printed a second time.  When the
    stream is consumed to its end without an error notice and the text
    of every step has been streamed before the step finishes, the
    subscriber never calls [displayAIResponse] for the events that
    [completeTaskStreaming] publishes: every response event finds
    non-blank text accumulated from the chunks and only closes that
    segment. *)
Theorem streamed_task_is_not_displayed_again
        (env : Env) (maxIterations : Z) (userInput : jsstring)
        (imageData : option ImageData) (tools : ToolSet) (formatted : list Message)
        (signals : list Signal)
        (s : State) (inputs : list CLISubscriber.Input)
        (st : CLISubscriber.Subscriber) :
  rejectsUserMessage env userInput imageData = None ->
  getAllTools env = inr tools ->
  getFormattedMessages env (messageManager s ++ [userMessage userInput imageData])
  = inr formatted ->
  sdkStreamText env formatted (formatTools tools) maxIterations
  = Stream signals Consumed ->
  noErrorSignal signals = true ->
  closedTextsWereStreamed signals [] = true ->
  eventEmitter
    (execState (completeTaskStreaming env maxIterations userInput imageData) s)
  = eventEmitter s ++ CLISubscriber.eventsIn inputs ->
  CLISubscriber.displayed
    (CLISubscriber.terminal
       (CLISubscriber.run toLowerCase lineCount stringify dateNow inputs st))
  = CLISubscriber.displayed (CLISubscriber.terminal st).
Proof.
  intros Haccepted Hlisted Hformatted Hstream Hnoerr Hstreamed Hevents.
  unfold execState in Hevents.
  rewrite (completeTaskStreaming_run env maxIterations userInput imageData tools s
                                     Haccepted Hlisted), Hformatted, Hstream
    in Hevents.
  cbn in Hevents. rewrite app_nil_r in Hevents. apply app_inv_head in Hevents.
  destruct (run_summary inputs st) as [_ Hshown]. rewrite Hshown, <- Hevents.
  cbn [CLISubscriber.displayedOver CLISubscriber.displayedAt
       CLISubscriber.accumulatedAfter app].
  rewrite stream_never_displays; [apply app_nil_r | exact Hnoerr | exact Hstreamed |].
  rewrite nonBlank_nil. discriminate.
Qed.

Lemma chunk_signals_summary (deltas : list jsstring) :
  forall buf,
    CLISubscriber.noTailRepeated
      (chunksOf (eventsOver (map (fun delta => SChunk (TextDelta delta)) deltas) buf))
      buf = true ->
    CLISubscriber.accumulatedOver
      (eventsOver (map (fun delta => SChunk (TextDelta delta)) deltas) buf) buf
    = bufferOver (map (fun delta => SChunk (TextDelta delta)) deltas) buf.
Proof.
  induction deltas as [|delta deltas IH]; intros buf Hfresh; [reflexivity|].
  cbn [map eventsOver bufferOver eventsAt bufferAfter] in *.
  destruct delta as [|c delta].
  - cbn [truthy isEmpty negb app] in *. rewrite app_nil_r in *. now apply IH.
  - change (truthy (c :: delta)) with true in *. cbn iota in *.
    cbn [app chunksOf flat_map CLISubscriber.noTailRepeated
         CLISubscriber.accumulatedOver CLISubscriber.accumulatedAfter] in *.
    apply andb_true_iff in Hfresh. destruct Hfresh as [Hnew Hfresh].
    apply negb_true_iff in Hnew. rewrite Hnew. now apply IH.
Qed.

(** X20.  While text deltas stream in and none of them repeats the end
    of the text received before it, the subscriber accumulates exactly
    the text that the service buffers. *)
Theorem subscriber_accumulates_the_segment_buffer
        (deltas : list jsstring) (inputs : list CLISubscriber.Input)
        (st : CLISubscriber.Subscriber) :
  let signals := map (fun delta => SChunk (TextDelta delta)) deltas in
  CLISubscriber.eventsIn inputs = eventsOver signals [] ->
  CLISubscriber.accumulatedResponse st = [] ->
  CLISubscriber.noTailRepeated (chunksOf (CLISubscriber.eventsIn inputs)) [] = true ->
  CLISubscriber.accumulatedResponse
    (CLISubscriber.run toLowerCase lineCount stringify dateNow inputs st)
  = bufferOver signals [].
Proof.
  intros signals Hevents Hempty Hfresh.
  destruct (run_summary inputs st) as [Hacc _]. rewrite Hacc, Hempty.
  rewrite Hevents in *. now apply chunk_signals_summary.
Qed.

(** X21.  A chunk that arrives twice in a row is accumulated once: after
    [onChunk] the accumulated response ends with the chunk, and handling
    the same chunk again leaves the accumulated response as it is. *)
Theorem repeated_chunk_is_accumulated_once
        (chunk : jsstring) (st : CLISubscriber.Subscriber) :
  let st' := CLISubscriber.onChunk toLowerCase lineCount dateNow chunk st in
  endsWith (CLISubscriber.accumulatedResponse st') chunk
  /\ CLISubscriber.accumulatedResponse
       (CLISubscriber.onChunk toLowerCase lineCount dateNow chunk st')
     = CLISubscriber.accumulatedResponse st'.
Proof.
  cbn zeta.
  assert (Hstep : forall st0,
             CLISubscriber.accumulatedResponse
               (CLISubscriber.onChunk toLowerCase lineCount dateNow chunk st0)
             = CLISubscriber.accumulatedAfter
                 (EvChunk chunk) (CLISubscriber.accumulatedResponse st0)).
  { intros [acc lines first timer last pending out reads].
    unfold CLISubscriber.onChunk, CLISubscriber.renderAccumulatedResponse.
    subscriber_cases; reflexivity. }
  assert (Hends : endsWith (CLISubscriber.accumulatedResponse
                              (CLISubscriber.onChunk toLowerCase lineCount dateNow chunk st))
                           chunk).
  { rewrite Hstep. cbn.
    destruct (endsWithb (CLISubscriber.accumulatedResponse st) chunk) eqn:Hseen.
    - now apply endsWithb_spec.
    - now exists (CLISubscriber.accumulatedResponse st). }
  split; [exact Hends|].
  rewrite (Hstep (CLISubscriber.onChunk toLowerCase lineCount dateNow chunk st)).
  cbn. apply endsWithb_spec in Hends. now rewrite Hends.
Qed.

Lemma reset_after_toolCall (toolName : jsstring) (args : json)
      (st : CLISubscriber.Subscriber) :
  CLISubscriber.onResetAccumulation
    (CLISubscriber.onToolCall toLowerCase stringify toolName args st)
  = CLISubscriber.onToolCall toLowerCase stringify toolName args st.
Proof.
  destruct st as [acc lines first timer last pending out reads].
  unfold CLISubscriber.onResetAccumulation, CLISubscriber.onToolCall.
  destruct timer; cbn; rewrite ?fold_nonBlank;
    destruct (nonBlank acc); cbn; destruct lines; reflexivity.
Qed.

Lemma run_app (a b : list CLISubscriber.Input) (st : CLISubscriber.Subscriber) :
  CLISubscriber.run toLowerCase lineCount stringify dateNow (a ++ b) st
  = CLISubscriber.run toLowerCase lineCount stringify dateNow b
      (CLISubscriber.run toLowerCase lineCount stringify dateNow a st).
Proof. apply fold_left_app. Qed.

(** X22.  For this subscriber the resetAccumulation event of the
    service is redundant.  Among the events that a step-finish notice
    publishes it comes right after the toolCall events, and
    [onToolCall] has already cleared everything [onResetAccumulation]
    clears: handling the events of the step with or without it leaves
    the same fields and the same terminal. *)
Theorem resetAccumulation_is_redundant_for_the_subscriber
        (step : StepResult) (buf : jsstring) (st : CLISubscriber.Subscriber) :
  CLISubscriber.run toLowerCase lineCount stringify dateNow
                    (map CLISubscriber.Emitted (eventsAtStep step buf)) st
  = CLISubscriber.run toLowerCase lineCount stringify dateNow
                      (map CLISubscriber.Emitted
                           (filter (fun e => negb (isResetAccumulation e))
                                   (eventsAtStep step buf)))
                      st.
Proof.
  rewrite filter_eventsAtStep.
  rewrite (filter_map_all _ EvResponse), (filter_map_all _ toolCallEvent),
    (filter_map_all _ toolResultEvent) by reflexivity.
  unfold eventsAtStep. rewrite !map_app, !run_app.
  destruct (toolCalls step) as [|call calls]; [reflexivity|].
  rewrite hasItems_cons.
  destruct (exists_last (l := call :: calls)) as (front & final & Hlast);
    [discriminate|].
  rewrite Hlast. cbn [filter isResetAccumulation negb].
  f_equal. rewrite !map_app, !run_app.
  unfold CLISubscriber.run at 1 2 4 5.
  cbn [map fold_left CLISubscriber.step CLISubscriber.subscribe toolCallEvent].
  apply reset_after_toolCall.
Qed.

End CLISubscriberFacts.

Lemma accumulated_response_is_drawn_before_it_is_cleared_witness :
  let render := CLISubscriber.run (fun s => s) (fun _ => 5) (fun _ => []) (fun _ => 0%Z) in
  let st := render [CLISubscriber.Emitted EvThinking;
                    CLISubscriber.Emitted (EvChunk (lit "Hi"));
                    CLISubscriber.Emitted (EvChunk (lit " there"))]
                   CLISubscriber.newSubscriber in
  CLISubscriber.pendingUpdate st = true
  /\ CLISubscriber.lastResponseBox (CLISubscriber.terminal st) None = Some (lit "Hi")
  /\ CLISubscriber.lastResponseBox
       (CLISubscriber.terminal
          (CLISubscriber.subscribe (fun s => s) (fun _ => 5) (fun _ => []) (fun _ => 0%Z)
                                   (EvResponse (lit "Hi there")) st))
       None
     = Some (cleanDuplicateText (fun s => s) (lit "Hi there")).
Proof.
  cbv zeta. split; [reflexivity|]. split; [reflexivity|].
  exact (proj1 (accumulated_response_is_drawn_before_it_is_cleared
                  (fun s => s) (fun _ => 5) (fun _ => []) (fun _ => 0%Z)
                  [CLISubscriber.Emitted EvThinking;
                   CLISubscriber.Emitted (EvChunk (lit "Hi"));
                   CLISubscriber.Emitted (EvChunk (lit " there"))]
                  (EvResponse (lit "Hi there")) eq_refl eq_refl)).
Defined.

Lemma nonstreaming_task_displays_each_step_text_once_witness :
  CLISubscriber.displayed
    (CLISubscriber.terminal
       (CLISubscriber.run
          (fun s => s) (fun _ => 5) (fun _ => []) (fun _ => 0%Z)
          (map CLISubscriber.Emitted
               (eventEmitter
                  (execState (completeTask (settledEnv alwaysToolCalls NotIterable) 2
                                           (lit "list files") None)
                             initialState)))
          CLISubscriber.newSubscriber))
  = [cleanDuplicateText (fun s => s) (lit "Checking.");
     cleanDuplicateText (fun s => s) (lit "Checking.")].
Proof.
  exact (nonstreaming_task_displays_each_step_text_once
           (fun s => s) (fun _ => 5) (fun _ => []) (fun _ => 0%Z)
           (settledEnv alwaysToolCalls NotIterable) 2 (lit "list files") None []
           [userMessage (lit "list files") None] initialState
           (map CLISubscriber.Emitted
                (eventEmitter
                   (execState (completeTask (settledEnv alwaysToolCalls NotIterable) 2
                                            (lit "list files") None)
                              initialState)))
           CLISubscriber.newSubscriber eq_refl eq_refl eq_refl eq_refl).
Defined.

Lemma streamed_task_is_not_displayed_again_witness :
  let stream :=
      Stream [textDelta "Hi";
              SStepFinish {| text := lit "Hi"; toolCalls := [fsList];
                             toolResults := [fsListResult] |};
              textDelta "Done."; SFinish]
             Consumed in
  CLISubscriber.displayed
    (CLISubscriber.terminal
       (CLISubscriber.run
          (fun s => s) (fun _ => 5) (fun _ => []) (fun _ => 0%Z)
          (map CLISubscriber.Emitted
               (eventEmitter
                  (execState (completeTaskStreaming (settledEnv generateNothing stream) 2
                                                    (lit "list files") None)
                             initialState)))
          CLISubscriber.newSubscriber))
  = [].
Proof.
  exact (streamed_task_is_not_displayed_again
           (fun s => s) (fun _ => 5) (fun _ => []) (fun _ => 0%Z)
           (settledEnv generateNothing
                       (Stream [textDelta "Hi";
                                SStepFinish {| text := lit "Hi"; toolCalls := [fsList];
                                               toolResults := [fsListResult] |};
                                textDelta "Done."; SFinish]
                               Consumed))
           2 (lit "list files") None [] [userMessage (lit "list files") None]
           [textDelta "Hi";
            SStepFinish {| text := lit "Hi"; toolCalls := [fsList];
                           toolResults := [fsListResult] |};
            textDelta "Done."; SFinish]
           initialState
           (map CLISubscriber.Emitted
                (eventEmitter
                   (execState
                      (completeTaskStreaming
                         (settledEnv generateNothing
                                     (Stream [textDelta "Hi";
                                              SStepFinish
                                                {| text := lit "Hi"; toolCalls := [fsList];
                                                   toolResults := [fsListResult] |};
                                              textDelta "Done."; SFinish]
                                             Consumed))
                         2 (lit "list files") None)
                      initialState)))
           CLISubscriber.newSubscriber
           eq_refl eq_refl eq_refl eq_refl eq_refl eq_refl eq_refl).
Defined.

Lemma subscriber_accumulates_the_segment_buffer_witness :
  CLISubscriber.accumulatedResponse
    (CLISubscriber.run (fun s => s) (fun _ => 5) (fun _ => []) (fun _ => 0%Z)
                       [CLISubscriber.Emitted (EvChunk (lit "Hel"));
                        CLISubscriber.IntervalElapsed;
                        CLISubscriber.Emitted (EvChunk (lit "lo"))]
                       CLISubscriber.newSubscriber)
  = bufferOver [textDelta "Hel"; textDelta "lo"] [].
Proof.
  exact (subscriber_accumulates_the_segment_buffer
           (fun s => s) (fun _ => 5) (fun _ => []) (fun _ => 0%Z)
           [lit "Hel"; lit "lo"]
           [CLISubscriber.Emitted (EvChunk (lit "Hel"));
            CLISubscriber.IntervalElapsed;
            CLISubscriber.Emitted (EvChunk (lit "lo"))]
           CLISubscriber.newSubscriber eq_refl eq_refl eq_refl).
Defined.

(* ================================================================= *)
(** ** The scenario of the specification *)

(** Input "list files"; the provider streams ["I'll "], ["check that."],
    finishes a step with that text and a call of [fs.list], whose result
    is reported with the step-finish notice of the call, and answers
    ["Found a.txt"] in the next step. *)
Example list_files_scenario :
  completeTaskStreaming
    (settledEnv generateNothing
       (Stream [textDelta "I'll "; textDelta "check that.";
                SStepFinish {| text := lit "I'll check that.";
                               toolCalls := [fsList];
                               toolResults := [fsListResult] |};
                textDelta "Found a.txt";
                SStepFinish {| text := lit "Found a.txt";
                               toolCalls := []; toolResults := [] |};
                SFinish]
               Consumed))
    10 (lit "list files") None initialState
  = (Normal tt,
     mkState 2 []
             [userMessage (lit "list files") None;
              assistantMessage (lit "I'll check that.");
              assistantMessage (lit "Found a.txt")]
             [EvThinking; EvChunk (lit "I'll "); EvChunk (lit "check that.");
              EvResponse (lit "I'll check that.");
              toolCallEvent fsList; EvResetAccumulation;
              toolResultEvent fsListResult;
              EvChunk (lit "Found a.txt"); EvResponse (lit "Found a.txt")]).
Proof. reflexivity. Qed.
